(** * Hue control: structure indexing and display ordering

    A shallow embedding of the indexing and ordering code of the Hue
    control panel ([hue_structure_generator.py] and [Hue Control.py]),
    with the properties of its specification stated over it.

    Conventions of the embedding.
    - A Python [str] is a [string] whose characters are the code points
      below 256; strings compare lexicographically by code point, as in
      Python.
    - A JSON object read with [.get] becomes a record whose optional
      fields have an [option] type ([None] is "key absent"); the fields
      that are present have the type the bridge's API gives them.
    - A Python [dict] that is iterated, copied or serialised is an
      insertion-ordered association list; a [dict] that is only looked up
      is a [gmap].
    - [sorted] and [list.sort] are the stable sort by a string key.
    - An uncaught Python exception is the result [Raised].
    - The file system, the bridge and the user interface are explicit
      state; text printed to the console is not modelled. *)

From Stdlib Require Import Ascii String QArith.
From stdpp Require Import base list sorting strings gmap pretty.

Local Close Scope Q_scope.
Local Open Scope string_scope.
Local Open Scope list_scope.
Local Open Scope stdpp_scope.

(** * Part I: the program *)

(** ** Stable sorting by a string key

    Python's [sorted(l, key=f)] and [l.sort(key=f)] return the stable
    rearrangement of [l] by ascending [f]: the result is ordered and items
    with equal keys keep their relative input order. That result is unique
    ([stable_sort_unique] below), so any stable sort models it; insertion
    from the right is the one used here. *)

Section Sorting.
Context {A : Type} (key : A → string).

Definition key_le (x y : A) : Prop := String.le (key x) (key y).

Fixpoint insert_by_key (x : A) (l : list A) : list A :=
  match l with
  | [] => [x]
  | y :: l' =>
      if decide (String.le (key x) (key y)) then x :: y :: l'
      else y :: insert_by_key x l'
  end.

Definition sorted (l : list A) : list A := foldr insert_by_key [] l.

End Sorting.

(** ** Insertion-ordered dictionaries

    A Python [dict] keeps its keys in insertion order; assigning to a key
    that is present replaces the value and leaves the key where it is;
    [del] removes the entry. *)

Section ODict.
Context {K V : Type} `{EqDecision K}.

Fixpoint od_get (d : list (K * V)) (k : K) : option V :=
  match d with
  | [] => None
  | (k', v) :: d' => if decide (k = k') then Some v else od_get d' k
  end.

(** [k in d] *)
Definition od_mem (d : list (K * V)) (k : K) : bool :=
  bool_decide (is_Some (od_get d k)).

(** [d[k] = v] *)
Fixpoint od_set (d : list (K * V)) (k : K) (v : V) : list (K * V) :=
  match d with
  | [] => [(k, v)]
  | (k', v') :: d' =>
      if decide (k = k') then (k, v) :: d' else (k', v') :: od_set d' k v
  end.

(** [del d[k]] *)
Fixpoint od_del (d : list (K * V)) (k : K) : list (K * V) :=
  match d with
  | [] => []
  | (k', v') :: d' =>
      if decide (k = k') then d' else (k', v') :: od_del d' k
  end.

(** [d.values()] and [d.keys()], in insertion order *)
Definition od_values (d : list (K * V)) : list V := d.*2.
Definition od_keys (d : list (K * V)) : list K := d.*1.

End ODict.

(** ** OrderResolver: [get_ordered_items] ([Hue Control.py])

    The items are the room, group and device objects of the structure
    document; [name_of item] is [item.get(name_key)], [None] when the item
    has no such key. The sort key [x.get(name_key, "")] falls back to the
    empty string. *)

Section OrderResolver.
Context {A : Type} (name_of : A → option string).

Definition sort_name (x : A) : string := default "" (name_of x).

(** [{item.get(name_key): item for item in actual_items}] *)
Definition items_map (actual_items : list A) : list (option string * A) :=
  foldl (λ d item, od_set d (name_of item) item) [] actual_items.

(** One turn of the loop over [preferred_order_names]; the state is
    [(final_ordered_list, remaining_items_map)]. *)
Definition place_preferred (ordered_items_map : list (option string * A))
    (st : list A * list (option string * A)) (name : string)
    : list A * list (option string * A) :=
  let '(final_ordered_list, remaining_items_map) := st in
  match od_get ordered_items_map (Some name) with
  | Some item =>
      (final_ordered_list ++ [item],
       if od_mem remaining_items_map (Some name)
       then od_del remaining_items_map (Some name)
       else remaining_items_map)
  | None => (final_ordered_list, remaining_items_map)
  end.

Definition get_ordered_items (actual_items : list A)
    (preferred_order_names : list string) : list A :=
  match preferred_order_names with
  | [] => sorted sort_name actual_items
  | _ =>
      let ordered_items_map := items_map actual_items in
      let '(final_ordered_list, remaining_items_map) :=
        foldl (place_preferred ordered_items_map)
              ([], ordered_items_map) preferred_order_names in
      final_ordered_list
      ++ sorted sort_name (od_values remaining_items_map)
  end.

End OrderResolver.

(** ** Regular expressions of the normaliser

    The two patterns of [_normalize_device_name] are sequences of
    character-class repetitions and the end anchor. [match_here] is the
    backtracking matcher of [re]: a repetition is greedy and gives
    characters back one at a time; the result is the text left after the
    match. *)

(** [\s] on [str]: the characters for which [str.isspace()] holds. Below
    256 these are TAB..CR, FS..US, the space, NEL and the no-break
    space. *)
Definition is_space (c : ascii) : bool :=
  let n := nat_of_ascii c in
  ((9 <=? n) && (n <=? 13) || (28 <=? n) && (n <=? 32)
   || (n =? 133) || (n =? 160))%nat.

(** [\d] on [str]: the decimal digits; below 256 these are [0]..[9]. *)
Definition is_digit (c : ascii) : bool :=
  let n := nat_of_ascii c in ((48 <=? n) && (n <=? 57))%nat.

Definition newline : ascii := ascii_of_nat 10.

Inductive re_item :=
  | ReStar (cls : ascii → bool)   (* [c*] *)
  | RePlus (cls : ascii → bool)   (* [c+] *)
  | ReEnd.                        (* [$] *)

(** [$] without [re.MULTILINE]: at the end of the string, or just before a
    newline that ends the string. *)
Definition at_end (s : list ascii) : bool :=
  match s with
  | [] => true
  | [c] => bool_decide (c = newline)
  | _ => false
  end.

Fixpoint match_star (cls : ascii → bool)
    (k : list ascii → option (list ascii)) (s : list ascii)
    : option (list ascii) :=
  match s with
  | c :: t =>
      if cls c then
        match match_star cls k t with
        | Some r => Some r
        | None => k s
        end
      else k s
  | [] => k []
  end.

Fixpoint match_here (p : list re_item) (s : list ascii)
    : option (list ascii) :=
  match p with
  | [] => Some s
  | ReStar cls :: p' => match_star cls (match_here p') s
  | RePlus cls :: p' =>
      match s with
      | c :: t => if cls c then match_star cls (match_here p') t else None
      | [] => None
      end
  | ReEnd :: p' => if at_end s then match_here p' s else None
  end.

(** [re.sub(p, '', s)]: scan from the left; where the pattern matches, drop
    the matched text and go on after it; elsewhere keep the character.
    [skip] counts the characters of the current match still to drop. (An
    empty match would replace nothing by nothing.) *)
Fixpoint re_sub_from (p : list re_item) (s : list ascii) (skip : nat)
    : list ascii :=
  match s with
  | [] => []
  | c :: t =>
      match skip with
      | S n => re_sub_from p t n
      | O =>
          match match_here p s with
          | Some r =>
              match length s - length r with
              | O => c :: re_sub_from p t 0
              | S n => re_sub_from p t n
              end
          | None => c :: re_sub_from p t 0
          end
      end
  end.

Definition re_sub (p : list re_item) (s : string) : string :=
  string_of_list_ascii (re_sub_from p (list_ascii_of_string s) 0).

(** [r'\s*\d+$'] and [r'\s+'] *)
Definition re_trailing_number : list re_item :=
  [ReStar is_space; RePlus is_digit; ReEnd].
Definition re_spaces : list re_item := [RePlus is_space].

(** ** NameNormalizer: [_normalize_device_name]
    ([hue_structure_generator.py]) *)

Definition _normalize_device_name (name : string) : string :=
  if bool_decide (name = "") then "UnnamedDevice"
  else
    let base_name := re_sub re_trailing_number name in
    re_sub re_spaces base_name.

(** ** Python results and exceptions *)

Inductive py_result (A : Type) : Type :=
  | Returned (a : A)
  | Raised (exc : string).
Arguments Returned {A} a.
Arguments Raised {A} exc.

(** A [for] loop that updates a state and stops at the first exception. *)
Fixpoint py_foldl {A S : Type} (f : S → A → py_result S) (s : S)
    (l : list A) : py_result S :=
  match l with
  | [] => Returned s
  | x :: l' =>
      match f s x with
      | Returned s' => py_foldl f s' l'
      | Raised e => Raised e
      end
  end.

(** A loop that appends one result per item. *)
Fixpoint py_mapM {A B : Type} (f : A → py_result B) (l : list A)
    : py_result (list B) :=
  match l with
  | [] => Returned []
  | x :: l' =>
      match f x with
      | Returned y =>
          match py_mapM f l' with
          | Returned ys => Returned (y :: ys)
          | Raised e => Raised e
          end
      | Raised e => Raised e
      end
  end.

(** Truth value of a string or a list that may be [None]. *)
Definition truthy_str (o : option string) : bool :=
  match o with Some s => negb (bool_decide (s = "")) | None => false end.

Definition truthy_list {A : Type} (o : option (list A)) : bool :=
  match o with Some (_ :: _) => true | _ => false end.

(** [s[:n]] and [s[-n:]] *)
Definition str_prefix (n : nat) (s : string) : string := substring 0 n s.
Definition str_suffix (n : nat) (s : string) : string :=
  substring (String.length s - n) n s.

(** ** The raw resources of the bridge (CLIP v2) *)

(** A device resource: [dev.get("id")] and
    [dev.get("metadata", {}).get("name")]. *)
Record raw_device := {
  raw_device_id : option string;
  raw_device_name : option string
}.

(** A light service resource: [service.get("id")],
    [service.get("owner", {}).get("rid")],
    [service.get("metadata", {}).get("name")], the ["dimming"] object when
    present with its optional ["brightness"], the presence of ["color"] and
    ["color_temperature"], and [service.get("on", {}).get("on")]. *)
Record raw_light := {
  raw_light_id : option string;
  raw_light_owner_rid : option string;
  raw_light_name : option string;
  raw_light_dimming : option (option Q);
  raw_light_color : bool;
  raw_light_color_temperature : bool;
  raw_light_on : option bool
}.

(** A child reference of a room: [child_ref.get("rtype")] and
    [child_ref.get("rid")]. *)
Record child_ref := {
  rtype : option string;
  rid : option string
}.

(** A room resource: [room.get("id")],
    [room.get("metadata", {}).get("name")] and
    [room.get("children", [])]. *)
Record raw_room := {
  raw_room_id : option string;
  raw_room_name : option string;
  children : list child_ref
}.

(** ** The structure document *)

(** An entry of [device_details_map]. *)
Record device_detail := {
  detail_name : string;
  normalized_name : string;
  detail_id : string
}.

Record light_service := {
  service_id : string;
  service_name : string;
  original_metadata_name : option string;
  is_on : bool;
  supports_dimming : bool;
  current_brightness : option Q;
  supports_color : bool;
  supports_color_temperature : bool
}.

Record hue_device := {
  device_name : string;
  device_id : string;
  light_services : list light_service
}.

Record device_group := {
  group_base_name : string;
  hue_devices : list hue_device
}.

Record room_data := {
  room_name : string;
  room_id : string;
  device_groups : list device_group;
  standalone_devices : list hue_device
}.

Record house_structure := {
  house_name : string;
  rooms : list room_data
}.

(** The ordering document [ui_order.json]; [device_order_in_room] is a JSON
    object, kept in insertion order. *)
Record ui_order := {
  room_order : list string;
  device_order_in_room : list (string * list string)
}.

(** ** StructureBuilder: the body of [generate_hue_structure_json] *)

(** Step 1, one turn of the loop over [devices_raw]. The default of the
    name, [f"Unnamed Device {dev_id[:6]}"], is evaluated before [.get] is
    called: a device without an id raises [TypeError]. *)
Definition index_device (device_details_map : gmap string device_detail)
    (dev : raw_device) : py_result (gmap string device_detail) :=
  match raw_device_id dev with
  | None => Raised "TypeError"
  | Some dev_id =>
      let dev_name :=
        default ("Unnamed Device " +:+ str_prefix 6 dev_id)
                (raw_device_name dev) in
      if truthy_str (Some dev_id) then
        Returned (<[dev_id := {| detail_name := dev_name;
                                 normalized_name :=
                                   _normalize_device_name dev_name;
                                 detail_id := dev_id |}]>
                    device_details_map)
      else Returned device_details_map
  end.

(** The service name: the service's own metadata name, or
    ["<device name> Light"] when it is missing, empty or equal to the
    owner's name. *)
Definition final_service_name (service_name_meta : option string)
    (owner_device_name : string) : string :=
  match service_name_meta with
  | Some n =>
      if bool_decide (n = "") || bool_decide (n = owner_device_name)
      then owner_device_name +:+ " Light"
      else n
  | None => owner_device_name +:+ " Light"
  end.

(** The dictionary appended for one light service (lines 128-146). *)
Definition make_light_service (service_id : string)
    (owner_device_name : string) (service : raw_light) : light_service :=
  let service_name_meta := raw_light_name service in
  let supports_dimming := bool_decide (is_Some (raw_light_dimming service)) in
  let current_brightness :=
    if supports_dimming then default None (raw_light_dimming service)
    else None in
  let supports_color := raw_light_color service in
  let supports_color_temperature := raw_light_color_temperature service in
  let is_on := default false (raw_light_on service) in
  {| service_id := service_id;
     service_name := final_service_name service_name_meta owner_device_name;
     original_metadata_name := service_name_meta;
     is_on := is_on;
     supports_dimming := supports_dimming;
     current_brightness :=
       if is_on && supports_dimming then current_brightness else None;
     supports_color := supports_color;
     supports_color_temperature := supports_color_temperature |}.

(** Step 2, one turn of the loop over [light_services_raw]. *)
Definition index_light_service
    (device_details_map : gmap string device_detail)
    (hue_device_to_light_services : gmap string (list light_service))
    (service : raw_light) : gmap string (list light_service) :=
  match raw_light_owner_rid service, raw_light_id service with
  | Some owner_id, Some service_id =>
      if truthy_str (Some owner_id) && truthy_str (Some service_id) then
        let owner_device_name :=
          default "Unknown Owner"
                  (detail_name <$> device_details_map !! owner_id) in
        let previous :=
          default [] (hue_device_to_light_services !! owner_id) in
        <[owner_id :=
            previous ++ [make_light_service service_id owner_device_name
                                            service]]>
          hue_device_to_light_services
      else hue_device_to_light_services
  | _, _ => hue_device_to_light_services
  end.

(** Step 3: the ids of the children of type ["device"]. *)
Definition room_hue_device_ids (room : raw_room) : list (option string) :=
  rid <$> filter (λ child_ref, rtype child_ref = Some "device")
                 (children room).

(** One turn of the loop that groups the devices of a room by normalised
    name; [device_details_map.get(dev_id)] finds nothing for an id that is
    missing or unknown. *)
Definition add_room_device (device_details_map : gmap string device_detail)
    (hue_device_to_light_services : gmap string (list light_service))
    (devices_by_normalized_name_in_room : list (string * list hue_device))
    (dev_id : option string) : list (string * list hue_device) :=
  match dev_id with
  | Some i =>
      match device_details_map !! i with
      | Some detail =>
          let norm_name := normalized_name detail in
          let bucket :=
            default []
              (od_get devices_by_normalized_name_in_room norm_name) in
          od_set devices_by_normalized_name_in_room norm_name
            (bucket ++ [{| device_name := detail_name detail;
                           device_id := detail_id detail;
                           light_services :=
                             default []
                               (hue_device_to_light_services !! i) |}])
      | None => devices_by_normalized_name_in_room
      end
  | None => devices_by_normalized_name_in_room
  end.

Definition devices_by_normalized_name
    (device_details_map : gmap string device_detail)
    (hue_device_to_light_services : gmap string (list light_service))
    (room : raw_room) : list (string * list hue_device) :=
  foldl (add_room_device device_details_map hue_device_to_light_services)
        [] (room_hue_device_ids room).

(** One turn of the loop over the buckets; the state is
    [(current_room_data["device_groups"],
      current_room_data["standalone_devices"])]. *)
Definition place_bucket
    (st : list (string * device_group) * list hue_device)
    (bucket : string * list hue_device)
    : list (string * device_group) * list hue_device :=
  let '(groups, standalone) := st in
  let '(norm_name, hue_devices_list) := bucket in
  if bool_decide (1 < length hue_devices_list) then
    (od_set groups norm_name
       {| group_base_name := norm_name;
          hue_devices := sorted device_name hue_devices_list |},
     standalone)
  else
    match hue_devices_list with
    | [d] => (groups, standalone ++ [d])
    | _ => (groups, standalone)
    end.

(** One turn of the loop over [rooms_raw]; as for devices, a room without
    an id raises [TypeError]. *)
Definition build_room (device_details_map : gmap string device_detail)
    (hue_device_to_light_services : gmap string (list light_service))
    (room : raw_room) : py_result room_data :=
  match raw_room_id room with
  | None => Raised "TypeError"
  | Some room_id =>
      let room_name :=
        default ("Unnamed Room " +:+ str_prefix 6 room_id)
                (raw_room_name room) in
      let buckets :=
        devices_by_normalized_name device_details_map
          hue_device_to_light_services room in
      let '(groups, standalone) := foldl place_bucket ([], []) buckets in
      Returned {| room_name := room_name;
                  room_id := room_id;
                  device_groups := sorted group_base_name (od_values groups);
                  standalone_devices := sorted device_name standalone |}
  end.

Definition build_structure (bridge_ip : option string)
    (devices_raw : list raw_device) (light_services_raw : list raw_light)
    (rooms_raw : list raw_room) : py_result house_structure :=
  match py_foldl index_device ∅ devices_raw with
  | Raised e => Raised e
  | Returned device_details_map =>
      let hue_device_to_light_services :=
        foldl (index_light_service device_details_map) ∅
              light_services_raw in
      match py_mapM (build_room device_details_map
                                hue_device_to_light_services) rooms_raw with
      | Raised e => Raised e
      | Returned rooms =>
          Returned {| house_name :=
                        "Hue Setup on " +:+ default "None" bridge_ip;
                      rooms := sorted room_name rooms |}
      end
  end.

(** ** DefaultOrderSynthesizer (lines 214-228) *)

Definition device_names_in_room (room_data : room_data) : list string :=
  (group_base_name <$> device_groups room_data)
  ++ (device_name <$> standalone_devices room_data).

Definition default_ui_order (house_structure : house_structure) : ui_order :=
  {| room_order := room_name <$> rooms house_structure;
     device_order_in_room :=
       foldl (λ d room_data,
                od_set d (room_name room_data)
                       (device_names_in_room room_data))
             [] (rooms house_structure) |}.

(** ** The environment of the generator *)

(** The [.env] configuration. *)
Record environment := {
  BRIDGE_IP : option string;
  HUE_APP_KEY : option string
}.

Definition CONFIG_VALID (env : environment) : bool :=
  truthy_str (BRIDGE_IP env) && truthy_str (HUE_APP_KEY env).

(** What the three calls of [_get_hue_resources] return: the ["data"]
    list, or [None] after a network, HTTP, JSON or API error. *)
Record bridge_resources := {
  fetched_devices : option (list raw_device);
  fetched_lights : option (list raw_light);
  fetched_rooms : option (list raw_room)
}.

(** What a file of the store holds: one of the two documents of the
    program, the JSON documents [null] or [{}], or a text that [json.load]
    rejects. *)
Inductive file_content :=
  | StructureFile (s : house_structure)
  | UiOrderFile (o : ui_order)
  | NullFile
  | EmptyObjectFile
  | OtherFile (text : string).

(** The files by path; the paths at which a write raises [IOError]; and
    what such a write leaves behind. [os.makedirs] and [open] fail before
    the file is touched: nothing is left, [None]. [json.dump] fails after
    [open(path, 'w')] has truncated the file: the file then holds the part
    of the document that was written, a text that [json.load] rejects. *)
Record file_system := {
  files : gmap string file_content;
  write_fails : string → bool;
  write_remains : string → file_content → option string
}.

Definition path_exists (fs : file_system) (path : string) : bool :=
  bool_decide (is_Some (files fs !! path)).

(** [makedirs], [open] and [json.dump] inside [try]: the store after a
    write that went through, [None] when [IOError] was raised. *)
Definition write_file (path : string) (c : file_content) (fs : file_system)
    : option file_system :=
  if write_fails fs path then None
  else Some {| files := <[path := c]> (files fs);
               write_fails := write_fails fs;
               write_remains := write_remains fs |}.

(** The store when the [except IOError] clause is entered. *)
Definition failed_write (path : string) (c : file_content)
    (fs : file_system) : file_system :=
  match write_remains fs path c with
  | None => fs
  | Some text => {| files := <[path := OtherFile text]> (files fs);
                    write_fails := write_fails fs;
                    write_remains := write_remains fs |}
  end.

Definition DEFAULT_OUTPUT_FILE : string := "reference/hue_light_structure.json".
Definition UI_ORDER_FILE_PATH_DEFAULT : string := "reference/ui_order.json".

(** Lines 210-238: the default order file is created when none exists; an
    [IOError] is reported and the run goes on. *)
Definition create_default_ui_order (house_structure : house_structure)
    (fs : file_system) : file_system :=
  if negb (path_exists fs UI_ORDER_FILE_PATH_DEFAULT) then
    match write_file UI_ORDER_FILE_PATH_DEFAULT
                     (UiOrderFile (default_ui_order house_structure)) fs with
    | Some fs' => fs'
    | None => failed_write UI_ORDER_FILE_PATH_DEFAULT
                (UiOrderFile (default_ui_order house_structure)) fs
    end
  else fs.

Definition generate_hue_structure_json (env : environment)
    (bridge : bridge_resources) (output_file_path : string)
    (fs : file_system) : py_result (option house_structure) * file_system :=
  if negb (CONFIG_VALID env) then (Returned None, fs)
  else
    let devices_raw := fetched_devices bridge in
    let light_services_raw := fetched_lights bridge in
    let rooms_raw := fetched_rooms bridge in
    if negb (truthy_list devices_raw && truthy_list light_services_raw
             && truthy_list rooms_raw)
    then (Returned None, fs)
    else
      match build_structure (BRIDGE_IP env) (default [] devices_raw)
              (default [] light_services_raw) (default [] rooms_raw) with
      | Raised e => (Raised e, fs)
      | Returned house_structure =>
          let fs := create_default_ui_order house_structure fs in
          match write_file output_file_path
                           (StructureFile house_structure) fs with
          | Some fs' => (Returned (Some house_structure), fs')
          | None =>
              (Returned None,
               failed_write output_file_path (StructureFile house_structure)
                 fs)
          end
      end.

(** ** Light commands ([Hue Control.py]) *)

Inductive light_payload :=
  | PayloadOn (on : bool)            (* [{"on": {"on": on}}] *)
  | PayloadBrightness (b : Q).       (* [{"dimming": {"brightness": b}}] *)

(** The outcome of one PUT: success, an HTTP 200 with a non-empty error
    array, or a [RequestException]. *)
Inductive put_response :=
  | PutOk
  | PutApiErrors (descriptions : list string)
  | PutException (e : string).

Inductive ui_event :=
  | UiWarning (msg : string)
  | UiError (msg : string)
  | UiToast (msg : string)
  | UiInfo (msg : string)
  | UiProgress (completed total : nat)   (* [st.progress], [my_bar.progress] *)
  | UiProgressEmpty.                     (* [my_bar.empty()] *)

(** One PUT sent to the bridge, with what came back. *)
Record put_record := {
  put_service_id : string;
  put_payload : light_payload;
  put_response_of : put_response
}.

Section LightCommands.
Context {Bridge : Type}.
(** The bridge answers a PUT and moves to its next state. *)
Context (bridge_put : Bridge → string → light_payload → put_response * Bridge).
Context (APP_CONFIG_VALID : bool).

Record app_state := {
  bridge_state : Bridge;
  put_log : list put_record;
  ui_log : list ui_event;
  data_dirty : bool
}.

Definition ui_emit (e : ui_event) (st : app_state) : app_state :=
  {| bridge_state := bridge_state st;
     put_log := put_log st;
     ui_log := ui_log st ++ [e];
     data_dirty := data_dirty st |}.

Definition set_data_dirty (b : bool) (st : app_state) : app_state :=
  {| bridge_state := bridge_state st;
     put_log := put_log st;
     ui_log := ui_log st;
     data_dirty := b |}.

Definition send_light_payload (service_id : string) (payload : light_payload)
    (action_description : string) (st : app_state) : bool * app_state :=
  if negb APP_CONFIG_VALID then (false, st)
  else
    let '(response, b) := bridge_put (bridge_state st) service_id payload in
    let st :=
      {| bridge_state := b;
         put_log := put_log st ++ [{| put_service_id := service_id;
                                      put_payload := payload;
                                      put_response_of := response |}];
         ui_log := ui_log st;
         data_dirty := data_dirty st |} in
    match response with
    | PutOk => (true, st)
    | PutApiErrors errors =>
        (false,
         ui_emit (UiError ("API Error(s) for " +:+ action_description
                           +:+ " (light " +:+ str_suffix 6 service_id
                           +:+ "): " +:+ String.concat "; " errors)) st)
    | PutException e =>
        (false,
         ui_emit (UiError ("Error for " +:+ action_description
                           +:+ " (light " +:+ str_suffix 6 service_id
                           +:+ "): " +:+ e)) st)
    end.

(** One turn of the loop of [set_lights_on_off] over
    [enumerate(service_ids)]; the state is [(success_count, st)]. *)
Definition on_off_step (payload : light_payload)
    (action_description : string) (my_bar : bool) (total_lights : nat)
    (acc : nat * app_state) (item : nat * string) : nat * app_state :=
  let '(success_count, st) := acc in
  let '(i, service_id) := item in
  let '(ok, st) :=
    send_light_payload service_id payload action_description st in
  let success_count := if ok then S success_count else success_count in
  let st := if my_bar then ui_emit (UiProgress (i + 1) total_lights) st
            else st in
  (success_count, st).

Definition set_lights_on_off (service_ids : list string) (turn_on : bool)
    (st : app_state) : app_state :=
  match service_ids with
  | [] => ui_emit (UiWarning "No lights provided to turn on/off.") st
  | _ =>
      let action := if turn_on then "ON" else "OFF" in
      let action_lower := if turn_on then "on" else "off" in
      let total_lights := length service_ids in
      let my_bar := bool_decide (1 < total_lights) in
      let st := if my_bar then ui_emit (UiProgress 0 total_lights) st
                else st in
      let payload := PayloadOn turn_on in
      let action_description := "turn " +:+ action in
      let '(success_count, st) :=
        foldl (on_off_step payload action_description my_bar total_lights)
              (0, st) (zip (seq 0 total_lights) service_ids) in
      let st := if my_bar then ui_emit UiProgressEmpty st else st in
      let st :=
        if (success_count =? total_lights)%nat && (0 <? total_lights)%nat
        then ui_emit (UiToast ("Successfully set " +:+ pretty success_count
                               +:+ " light(s) " +:+ action_lower +:+ ".")) st
        else if (0 <? total_lights)%nat
        then ui_emit (UiWarning ("Attempted to set " +:+ pretty total_lights
                                 +:+ " light(s) " +:+ action_lower +:+ ". "
                                 +:+ pretty success_count
                                 +:+ " succeeded.")) st
        else st in
      set_data_dirty true st
  end.

End LightCommands.

Arguments app_state Bridge : clear implicits.

(** * Vocabulary of the statements *)

(** ** Names *)

Fixpoint drop_while {A : Type} (p : A → bool) (l : list A) : list A :=
  match l with
  | x :: l' => if p x then drop_while p l' else l
  | [] => []
  end.

Fixpoint take_while {A : Type} (p : A → bool) (l : list A) : list A :=
  match l with
  | x :: l' => if p x then x :: take_while p l' else []
  | [] => []
  end.

(** The match of [r'\s*\d+$'] at the start of [s], in closed form: the
    spaces, then at least one digit, then the end; the result is what is
    left (nothing, or the final newline). *)
Definition tail_number (s : list ascii) : option (list ascii) :=
  match drop_while is_space s with
  | c :: t =>
      if is_digit c then
        let r := drop_while is_digit t in
        if at_end r then Some r else None
      else None
  | [] => None
  end.

(** The specification's "strip one trailing run of whitespace followed by
    digits", read from the end of the name: the digits that end the name
    (a single final newline does not count), then the whitespace before
    them. A name that does not end in a digit is left as it is. *)
Definition strip_trailing_number_chars (s : list ascii) : list ascii :=
  let r := reverse s in
  let '(e, body) :=
    match r with
    | c :: r' => if bool_decide (c = newline) then ([c], r') else ([], r)
    | [] => ([], r)
    end in
  let before_digits := drop_while is_digit body in
  if bool_decide (length before_digits = length body) then s
  else reverse (drop_while is_space before_digits) ++ e.

Definition strip_trailing_number (s : string) : string :=
  string_of_list_ascii (strip_trailing_number_chars (list_ascii_of_string s)).

(** The specification's "remove all whitespace characters". *)
Definition remove_spaces (s : string) : string :=
  string_of_list_ascii
    (filter (λ c, is_space c = false) (list_ascii_of_string s)).

(** A prefix is clean when the run of whitespace and digits cannot be
    extended into it. *)
Definition clean_prefix (pre w : list ascii) : Prop :=
  ∀ c, last pre = Some c →
       is_space c = false ∧ (w = [] → is_digit c = false).

(** A run of whitespace [w] followed by digits [d], at the end of the name
    or before its final newline [e]. *)
Definition number_run (w d e : list ascii) : Prop :=
  Forall (λ c, is_space c = true) w
  ∧ Forall (λ c, is_digit c = true) d
  ∧ d ≠ []
  ∧ (e = [] ∨ e = [newline]).

(** ** Structures *)

(** A fetch whose list is empty, read as a failed fetch. *)
Definition fail_empty {A : Type} (o : option (list A)) : option (list A) :=
  match o with
  | Some [] => None
  | _ => o
  end.

Definition fail_empty_resources (bridge : bridge_resources)
    : bridge_resources :=
  {| fetched_devices := fail_empty (fetched_devices bridge);
     fetched_lights := fail_empty (fetched_lights bridge);
     fetched_rooms := fail_empty (fetched_rooms bridge) |}.

(** The devices of a room of the structure, and the light services of the
    whole structure, in the order [get_flat_light_services_map] visits
    them. *)
Definition devices_of_room (r : room_data) : list hue_device :=
  (device_groups r ≫= hue_devices) ++ standalone_devices r.

Definition all_light_services (h : house_structure) : list light_service :=
  rooms h ≫= λ r, devices_of_room r ≫= light_services.

Definition brightness_only_when_on_and_dimmable (s : light_service) : Prop :=
  is_Some (current_brightness s) →
  is_on s = true ∧ supports_dimming s = true.

(** The device a child reference of a room resolves to, with its
    normalised name; nothing for a reference without an id or to an
    unknown device. *)
Definition resolve_device (device_details_map : gmap string device_detail)
    (hue_device_to_light_services : gmap string (list light_service))
    (dev_id : option string) : option (string * hue_device) :=
  i ← dev_id;
  detail ← device_details_map !! i;
  Some (normalized_name detail,
        {| device_name := detail_name detail;
           device_id := detail_id detail;
           light_services :=
             default [] (hue_device_to_light_services !! i) |}).

(** The devices of a raw room, in the order of its children. *)
Definition room_devices (device_details_map : gmap string device_detail)
    (hue_device_to_light_services : gmap string (list light_service))
    (room : raw_room) : list (string * hue_device) :=
  omap (resolve_device device_details_map hue_device_to_light_services)
       (room_hue_device_ids room).

(** The bucket of a normalised name: the devices of the room that carry
    it, in the order of the room's children. *)
Definition bucket_of (entries : list (string * hue_device)) (n : string)
    : list hue_device :=
  (filter (λ e, e.1 = n) entries).*2.

(** The maps built by steps 1 and 2. *)
Definition device_details_map_of (devices_raw : list raw_device)
    : py_result (gmap string device_detail) :=
  py_foldl index_device ∅ devices_raw.

Definition light_services_map_of
    (device_details_map : gmap string device_detail)
    (light_services_raw : list raw_light)
    : gmap string (list light_service) :=
  foldl (index_light_service device_details_map) ∅ light_services_raw.

(** The grouping of the devices of a room by normalised name (the loop of
    lines 172-184 over the resolved devices), and what the loop of lines
    187-194 makes of one bucket. *)
Definition bucketize (entries : list (string * hue_device))
    : list (string * list hue_device) :=
  foldl (λ d e, od_set d e.1 (default [] (od_get d e.1) ++ [e.2]))
        [] entries.

Definition group_of_bucket (bucket : string * list hue_device)
    : option (string * device_group) :=
  if bool_decide (1 < length bucket.2) then
    Some (bucket.1,
          {| group_base_name := bucket.1;
             hue_devices := sorted device_name bucket.2 |})
  else None.

Definition standalone_of_bucket (bucket : string * list hue_device)
    : list hue_device :=
  match bucket.2 with
  | [d] => [d]
  | _ => []
  end.

(** ** Example resources *)

Definition example_env : environment :=
  {| BRIDGE_IP := Some "192.168.1.2"; HUE_APP_KEY := Some "key" |}.

Definition example_device (i n : string) : raw_device :=
  {| raw_device_id := Some i; raw_device_name := Some n |}.

Definition example_light (i owner : string) (on : bool)
    (brightness : option Q) : raw_light :=
  {| raw_light_id := Some i;
     raw_light_owner_rid := Some owner;
     raw_light_name := None;
     raw_light_dimming := Some brightness;
     raw_light_color := false;
     raw_light_color_temperature := false;
     raw_light_on := Some on |}.

Definition example_room (i n : string) (devices : list string) : raw_room :=
  {| raw_room_id := Some i;
     raw_room_name := Some n;
     children := (λ d, {| rtype := Some "device"; rid := Some d |})
                 <$> devices |}.

Definition empty_fs : file_system :=
  {| files := ∅;
     write_fails := λ _, false;
     write_remains := λ _ _, None |}.

(** The example of the specification: two numbered lamps and a desk lamp
    in one room; the first lamp is on at brightness 80, the second is
    off. *)
Definition example_bridge : bridge_resources :=
  {| fetched_devices :=
       Some [example_device "d1" "Lamp 1"; example_device "d2" "Lamp 2";
             example_device "d3" "Desk"];
     fetched_lights :=
       Some [example_light "s1" "d1" true (Some 80%Q);
             example_light "s2" "d2" false (Some 35%Q)];
     fetched_rooms :=
       Some [example_room "r1" "Bedroom" ["d1"; "d2"; "d3"]] |}.

Definition example_service (i n : string) (on : bool)
    (brightness : option Q) : light_service :=
  {| service_id := i;
     service_name := n;
     original_metadata_name := None;
     is_on := on;
     supports_dimming := true;
     current_brightness := brightness;
     supports_color := false;
     supports_color_temperature := false |}.

Definition example_house : house_structure :=
  {| house_name := "Hue Setup on 192.168.1.2";
     rooms :=
       [{| room_name := "Bedroom";
           room_id := "r1";
           device_groups :=
             [{| group_base_name := "Lamp";
                 hue_devices :=
                   [{| device_name := "Lamp 1";
                       device_id := "d1";
                       light_services :=
                         [example_service "s1" "Lamp 1 Light" true
                                          (Some 80%Q)] |};
                    {| device_name := "Lamp 2";
                       device_id := "d2";
                       light_services :=
                         [example_service "s2" "Lamp 2 Light" false
                                          None] |}] |}];
           standalone_devices :=
             [{| device_name := "Desk";
                 device_id := "d3";
                 light_services := [] |}] |}] |}.

Definition example_order : ui_order :=
  {| room_order := ["Bedroom"];
     device_order_in_room := [("Bedroom", ["Lamp"; "Desk"])] |}.

Definition example_fs : file_system :=
  {| files :=
       <[DEFAULT_OUTPUT_FILE := StructureFile example_house]>
         (<[UI_ORDER_FILE_PATH_DEFAULT := UiOrderFile example_order]> ∅);
     write_fails := λ _, false;
     write_remains := λ _ _, None |}.

(** A room with a single numbered lamp. *)
Definition single_bridge : bridge_resources :=
  {| fetched_devices := Some [example_device "d1" "Lamp 1"];
     fetched_lights := Some [example_light "s1" "d1" true (Some 80%Q)];
     fetched_rooms := Some [example_room "r1" "Bedroom" ["d1"]] |}.

Definition single_house : house_structure :=
  {| house_name := "Hue Setup on 192.168.1.2";
     rooms :=
       [{| room_name := "Bedroom";
           room_id := "r1";
           device_groups := [];
           standalone_devices :=
             [{| device_name := "Lamp 1";
                 device_id := "d1";
                 light_services :=
                   [example_service "s1" "Lamp 1 Light" true
                                    (Some 80%Q)] |}] |}] |}.

(** Two rooms that share their name. *)
Definition twin_bridge : bridge_resources :=
  {| fetched_devices :=
       Some [example_device "d1" "Lamp"; example_device "d3" "Desk"];
     fetched_lights := Some [example_light "s1" "d1" true (Some 80%Q)];
     fetched_rooms :=
       Some [example_room "r1" "Bedroom" ["d3"];
             example_room "r2" "Bedroom" ["d1"]] |}.

Definition twin_room_1 : room_data :=
  {| room_name := "Bedroom";
     room_id := "r1";
     device_groups := [];
     standalone_devices :=
       [{| device_name := "Desk";
           device_id := "d3";
           light_services := [] |}] |}.

Definition twin_room_2 : room_data :=
  {| room_name := "Bedroom";
     room_id := "r2";
     device_groups := [];
     standalone_devices :=
       [{| device_name := "Lamp";
           device_id := "d1";
           light_services :=
             [example_service "s1" "Lamp Light" true (Some 80%Q)] |}] |}.

Definition twin_house : house_structure :=
  {| house_name := "Hue Setup on 192.168.1.2";
     rooms := [twin_room_1; twin_room_2] |}.

Definition twin_order : ui_order :=
  {| room_order := ["Bedroom"; "Bedroom"];
     device_order_in_room := [("Bedroom", ["Lamp"])] |}.

Definition twin_fs : file_system :=
  {| files :=
       <[DEFAULT_OUTPUT_FILE := StructureFile twin_house]>
         (<[UI_ORDER_FILE_PATH_DEFAULT := UiOrderFile twin_order]> ∅);
     write_fails := λ _, false;
     write_remains := λ _ _, None |}.

(** The items of the examples: a name and a payload. *)
Definition example_name (x : string * nat) : option string := Some x.1.

(** ** Light commands *)

Definition put_succeeded (p : put_record) : bool :=
  match put_response_of p with
  | PutOk => true
  | _ => false
  end.

Definition succeeded_count (puts : list put_record) : nat :=
  length (filter (λ p, put_succeeded p = true) puts).

(** The bridge answering one PUT per id, in sequence, whatever it
    answers. *)
Fixpoint bridge_run {Bridge : Type}
    (bridge_put : Bridge → string → light_payload → put_response * Bridge)
    (b : Bridge) (ids : list string) (payload : light_payload)
    : list put_record * Bridge :=
  match ids with
  | [] => ([], b)
  | i :: ids' =>
      let '(response, b') := bridge_put b i payload in
      let '(puts, b'') := bridge_run bridge_put b' ids' payload in
      ({| put_service_id := i;
          put_payload := payload;
          put_response_of := response |} :: puts, b'')
  end.

(** The closing message of [set_lights_on_off]: the toast when every PUT
    succeeded, the warning with the tally otherwise. *)
Definition tally_message (turn_on : bool) (succeeded total : nat) : ui_event :=
  let action_lower := if turn_on then "on" else "off" in
  if (succeeded =? total)%nat then
    UiToast ("Successfully set " +:+ pretty succeeded +:+ " light(s) "
             +:+ action_lower +:+ ".")
  else
    UiWarning ("Attempted to set " +:+ pretty total +:+ " light(s) "
               +:+ action_lower +:+ ". " +:+ pretty succeeded
               +:+ " succeeded.").

(** An example bridge, whose state counts the PUTs it received and which
    cannot reach the light "s2". *)
Definition example_bridge_put (b : nat) (service_id : string)
    (payload : light_payload) : put_response * nat :=
  (if bool_decide (service_id = "s2") then PutException "timed out"
   else PutOk, S b).

Definition example_app_state : app_state nat :=
  {| bridge_state := 0; put_log := []; ui_log := []; data_dirty := false |}.

(** ** Order resolver *)

(** The item that carries a name: the last one, when several do. *)
Definition item_named {A : Type} (name_of : A → option string)
    (items : list A) (n : string) : option A :=
  last (filter (λ x, name_of x = Some n) items).

(** ** Names, continued *)

(** The last character of a name that is not whitespace. *)
Definition last_visible (s : string) : option ascii :=
  head (drop_while is_space (reverse (list_ascii_of_string s))).

Definition all_chars (p : ascii → bool) (s : string) : Prop :=
  Forall (λ c, p c = true) (list_ascii_of_string s).

(** ** Structures, continued *)

(** The name under which step 2 knows the owner of a light service. *)
Definition owner_name (device_details_map : gmap string device_detail)
    (i : string) : string :=
  default "Unknown Owner" (detail_name <$> device_details_map !! i).

(** [s] is the entry made for the raw light [raw], owned by device [i]. *)
Definition light_service_of (device_details_map : gmap string device_detail)
    (i : string) (raw : raw_light) (s : light_service) : Prop :=
  raw_light_owner_rid raw = Some i
  ∧ raw_light_id raw = Some (service_id s)
  ∧ s = make_light_service (service_id s) (owner_name device_details_map i)
          raw.

(** Parts of the example structure. *)
Definition example_s1 : light_service :=
  example_service "s1" "Lamp 1 Light" true (Some 80%Q).

Definition example_lamp_1 : hue_device :=
  {| device_name := "Lamp 1";
     device_id := "d1";
     light_services := [example_s1] |}.

Definition example_lamp_2 : hue_device :=
  {| device_name := "Lamp 2";
     device_id := "d2";
     light_services := [example_service "s2" "Lamp 2 Light" false None] |}.

Definition example_desk : hue_device :=
  {| device_name := "Desk"; device_id := "d3"; light_services := [] |}.

Definition example_lamp_group : device_group :=
  {| group_base_name := "Lamp";
     hue_devices := [example_lamp_1; example_lamp_2] |}.

Definition example_bedroom : room_data :=
  {| room_name := "Bedroom";
     room_id := "r1";
     device_groups := [example_lamp_group];
     standalone_devices := [example_desk] |}.

(** * The rest of the program *)

(** ** Fetching: [_get_hue_resources] ([hue_structure_generator.py]) *)

(** An entry of the ["errors"] array of a response. *)
Record api_error := {
  error_description : option string
}.

(** What a GET on a resource endpoint comes to: a [RequestException]
    (connection, timeout, HTTP status), a body that is not JSON, or a JSON
    object with its ["errors"] and ["data"] arrays when present. *)
Inductive http_outcome (A : Type) : Type :=
  | HttpRequestFailed (e : string)
  | HttpNotJson (text : string)
  | HttpJson (errors : option (list api_error)) (data : option (list A)).
Arguments HttpRequestFailed {A} e.
Arguments HttpNotJson {A} text.
Arguments HttpJson {A} errors data.

Definition _get_hue_resources {A : Type} (env : environment)
    (outcome : http_outcome A) : option (list A) :=
  if negb (CONFIG_VALID env) then None
  else
    match outcome with
    | HttpRequestFailed _ => None
    | HttpNotJson _ => None
    | HttpJson errors data =>
        if truthy_list errors then None else Some (default [] data)
    end.

(** The answers of the bridge to the three requests of a run. *)
Record bridge_responses := {
  device_response : http_outcome raw_device;
  light_response : http_outcome raw_light;
  room_response : http_outcome raw_room
}.

(** Lines 87-89 of [generate_hue_structure_json]. *)
Definition fetch_resources (env : environment) (responses : bridge_responses)
    : bridge_resources :=
  {| fetched_devices := _get_hue_resources env (device_response responses);
     fetched_lights := _get_hue_resources env (light_response responses);
     fetched_rooms := _get_hue_resources env (room_response responses) |}.

(** ** Loading the documents ([Hue Control.py])

    A loader returns what [json.load] makes of the file, whatever
    document that is: a structure, an order document, [None] for [null]
    or the empty object. Its fallback, [None] or [{}], is for a missing
    file and for a text that [json.load] rejects. JSON documents of other
    shapes (an array, a number) are not contents of the store. The
    loaders are cached by [st.cache_data]; the definitions are their
    bodies, run when the cache has no entry. *)
Inductive json_value :=
  | JsonNull
  | JsonEmptyObject
  | JsonStructure (h : house_structure)
  | JsonUiOrder (o : ui_order).

Definition STRUCTURE_FILE_PATH : string := "reference/hue_light_structure.json".
Definition UI_ORDER_FILE_PATH : string := "reference/ui_order.json".

(** The result and the messages shown. *)
Definition load_hue_structure (fs : file_system) (file_path : string)
    : json_value * list ui_event :=
  match files fs !! file_path with
  | None => (JsonNull, [])
  | Some (StructureFile h) => (JsonStructure h, [])
  | Some (UiOrderFile o) => (JsonUiOrder o, [])
  | Some NullFile => (JsonNull, [])
  | Some EmptyObjectFile => (JsonEmptyObject, [])
  | Some (OtherFile _) =>
      (JsonNull, [UiError ("Error decoding JSON from " +:+ file_path +:+ ".")])
  end.

Definition load_ui_order (fs : file_system) (file_path : string)
    : json_value * list ui_event :=
  match files fs !! file_path with
  | None =>
      (JsonEmptyObject,
       [UiInfo ("UI order file (`" +:+ file_path
                +:+ "`) not found. Using default order.")])
  | Some (StructureFile h) => (JsonStructure h, [])
  | Some (UiOrderFile o) => (JsonUiOrder o, [])
  | Some NullFile => (JsonNull, [])
  | Some EmptyObjectFile => (JsonEmptyObject, [])
  | Some (OtherFile _) =>
      (JsonEmptyObject,
       [UiError ("Error decoding JSON from " +:+ file_path
                 +:+ ". Using default order.")])
  end.

(** [get_flat_light_services_map]: the services by id, visited room by
    room, the groups before the standalone devices; a later service
    replaces an earlier one with the same id. *)
Definition get_flat_light_services_map (structure_data : json_value)
    : gmap string light_service :=
  match structure_data with
  | JsonStructure h =>
      foldl (λ services_map service,
               <[service_id service := service]> services_map)
            ∅ (all_light_services h)
  | _ => ∅
  end.

(** [order_config.get("room_order", [])]; [.get] on [None] raises. *)
Definition room_order_of (order_config : json_value)
    : py_result (list string) :=
  match order_config with
  | JsonNull => Raised "AttributeError"
  | JsonUiOrder o => Returned (room_order o)
  | _ => Returned []
  end.

Definition get_ordered_room_definitions (structure_data : json_value)
    (order_config : json_value) : py_result (list room_data) :=
  match structure_data with
  | JsonStructure h =>
      match room_order_of order_config with
      | Returned preferred_room_order_internal =>
          Returned (get_ordered_items (λ r, Some (room_name r)) (rooms h)
                      preferred_room_order_internal)
      | Raised e => Raised e
      end
  | _ => Returned []
  end.

(** ** The devices of a room tab (lines 308-322 of
    [render_room_content_fragment]) *)

(** A group or a standalone device, as tagged by ['_ui_type']. *)
Inductive room_item :=
  | GroupItem (g : device_group)
  | StandaloneItem (d : hue_device).

(** ['_ui_sort_name'] *)
Definition ui_sort_name (item : room_item) : option string :=
  match item with
  | GroupItem g => Some (group_base_name g)
  | StandaloneItem d => Some (device_name d)
  end.

Definition all_room_devices (room : room_data) : list room_item :=
  (GroupItem <$> device_groups room)
  ++ (StandaloneItem <$> standalone_devices room).

(** [ui_order_config_data.get("device_order_in_room", {})
      .get(room['room_name'], [])] *)
Definition device_order_of (ui_order_config_data : json_value)
    (room_name : string) : py_result (list string) :=
  match ui_order_config_data with
  | JsonNull => Raised "AttributeError"
  | JsonUiOrder o =>
      Returned (default [] (od_get (device_order_in_room o) room_name))
  | _ => Returned []
  end.

Definition ordered_room_devices (room : room_data)
    (ui_order_config_data : json_value) : py_result (list room_item) :=
  match device_order_of ui_order_config_data (room_name room) with
  | Returned room_specific_device_order =>
      Returned (get_ordered_items ui_sort_name (all_room_devices room)
                  room_specific_device_order)
  | Raised e => Raised e
  end.

(** ** [get_all_service_ids_from_structure]

    [list(set(all_ids))] lists every id once, in the order in which Python
    iterates the set; that order is the parameter [list_of_set]. *)
Definition get_all_service_ids_from_structure
    (list_of_set : gset string → list string) (structure : json_value)
    : list string :=
  match structure with
  | JsonStructure h =>
      list_of_set (list_to_set (service_id <$> all_light_services h))
  | _ => []
  end.

(** What is known of the iteration order of a set. *)
Definition enumerates_sets (list_of_set : gset string → list string) : Prop :=
  ∀ X, NoDup (list_of_set X) ∧ ∀ x, x ∈ list_of_set X ↔ x ∈ X.

(** ** [set_lights_brightness] ([Hue Control.py]) *)

Section BrightnessCommands.
Context {Bridge : Type}.
Context (bridge_put : Bridge → string → light_payload → put_response * Bridge).
Context (APP_CONFIG_VALID : bool).

(** One turn of the loop over [enumerate(service_ids)]; the state is
    [(success_count, dimmable_lights_controlled, st)]. *)
Definition brightness_step (light_details_map : gmap string light_service)
    (payload : light_payload) (action_description : string) (my_bar : bool)
    (total_to_potentially_control : nat)
    (acc : nat * nat * app_state Bridge) (item : nat * string)
    : nat * nat * app_state Bridge :=
  let '(success_count, dimmable_lights_controlled, st) := acc in
  let '(i, service_id) := item in
  let '(success_count, dimmable_lights_controlled, st) :=
    match light_details_map !! service_id with
    | Some light_info =>
        if supports_dimming light_info then
          let '(ok, st) :=
            send_light_payload bridge_put APP_CONFIG_VALID service_id payload
              action_description st in
          (if ok then S success_count else success_count,
           S dimmable_lights_controlled, st)
        else (success_count, dimmable_lights_controlled, st)
    | None => (success_count, dimmable_lights_controlled, st)
    end in
  let st :=
    if my_bar
    then ui_emit (UiProgress (i + 1) total_to_potentially_control) st
    else st in
  (success_count, dimmable_lights_controlled, st).

Definition set_lights_brightness (service_ids : list string)
    (brightness_percent : Z) (light_details_map : gmap string light_service)
    (st : app_state Bridge) : app_state Bridge :=
  match service_ids with
  | [] => ui_emit (UiWarning "No lights selected for brightness change.") st
  | _ =>
      let total_to_potentially_control := length service_ids in
      let my_bar := bool_decide (1 < total_to_potentially_control) in
      let st :=
        if my_bar
        then ui_emit (UiProgress 0 total_to_potentially_control) st
        else st in
      let payload := PayloadBrightness (inject_Z brightness_percent) in
      let action_description :=
        "set brightness to " +:+ pretty brightness_percent +:+ "%" in
      let '(success_count, dimmable_lights_controlled, st) :=
        foldl (brightness_step light_details_map payload action_description
                 my_bar total_to_potentially_control)
              (0, 0, st)
              (zip (seq 0 total_to_potentially_control) service_ids) in
      let st := if my_bar then ui_emit UiProgressEmpty st else st in
      let st :=
        if (dimmable_lights_controlled =? 0)%nat
           && (0 <? total_to_potentially_control)%nat
        then ui_emit (UiInfo "None of the selected lights support brightness adjustment.") st
        else if (success_count =? dimmable_lights_controlled)%nat
                && (0 <? dimmable_lights_controlled)%nat
        then ui_emit (UiToast ("Successfully set brightness for "
                               +:+ pretty success_count +:+ " light(s).")) st
        else if (0 <? dimmable_lights_controlled)%nat
        then ui_emit (UiWarning ("Attempted to set brightness for "
                                 +:+ pretty dimmable_lights_controlled
                                 +:+ " light(s). " +:+ pretty success_count
                                 +:+ " succeeded.")) st
        else st in
      set_data_dirty true st
  end.

End BrightnessCommands.

(** ** The controls of a room tab (lines 271-303 of
    [render_room_content_fragment]) *)

Definition temp_room_services (room : room_data) : list light_service :=
  ((device_groups room ≫= hue_devices) ≫= light_services)
  ++ (standalone_devices room ≫= light_services).

(** [flat_light_services_map.get(service_id, {}).get("supports_dimming")] *)
Definition detail_supports_dimming
    (flat_light_services_map : gmap string light_service)
    (service_id : string) : bool :=
  match flat_light_services_map !! service_id with
  | Some service_detail => supports_dimming service_detail
  | None => false
  end.

Definition room_all_service_ids (list_of_set : gset string → list string)
    (room : room_data) : list string :=
  list_of_set (list_to_set (service_id <$> temp_room_services room)).

Definition room_dimmable_service_ids
    (list_of_set : gset string → list string)
    (flat_light_services_map : gmap string light_service)
    (room : room_data) : list string :=
  list_of_set
    (list_to_set
       (filter (λ i, detail_supports_dimming flat_light_services_map i = true)
               (service_id <$> temp_room_services room))).

(** * Vocabulary of the statements, continued *)

(** A response that lets the run go on: JSON without errors and with at
    least one resource. *)
Definition clean_response {A : Type} (outcome : http_outcome A) : Prop :=
  ∃ errors data,
    outcome = HttpJson errors (Some data)
    ∧ truthy_list errors = false ∧ data ≠ [].

Definition example_responses : bridge_responses :=
  {| device_response := HttpJson None (fetched_devices example_bridge);
     light_response := HttpJson (Some []) (fetched_lights example_bridge);
     room_response := HttpJson None (fetched_rooms example_bridge) |}.

Definition item_name (item : room_item) : string :=
  match item with
  | GroupItem g => group_base_name g
  | StandaloneItem d => device_name d
  end.

(** The ids, among [service_ids], that the map knows as dimmable. *)
Definition dimmable_ids (light_details_map : gmap string light_service)
    (service_ids : list string) : list string :=
  filter (λ i, detail_supports_dimming light_details_map i = true)
         service_ids.

(** The closing message of [set_lights_brightness]. *)
Definition brightness_message (succeeded controlled : nat) : ui_event :=
  if (controlled =? 0)%nat then
    UiInfo "None of the selected lights support brightness adjustment."
  else if (succeeded =? controlled)%nat then
    UiToast ("Successfully set brightness for " +:+ pretty succeeded
             +:+ " light(s).")
  else
    UiWarning ("Attempted to set brightness for " +:+ pretty controlled
               +:+ " light(s). " +:+ pretty succeeded +:+ " succeeded.").

Definition is_ui_error (e : ui_event) : bool :=
  match e with UiError _ => true | _ => false end.

Definition error_count (log : list ui_event) : nat :=
  length (filter (λ e, is_ui_error e = true) log).

(** The store of the example on a full disk: every write fails after the
    first character; and the same store where no file can be opened for
    writing. *)
Definition full_disk_fs : file_system :=
  {| files := files example_fs;
     write_fails := λ _, true;
     write_remains := λ _ _, Some "{" |}.

Definition read_only_fs : file_system :=
  {| files := files example_fs;
     write_fails := λ _, true;
     write_remains := λ _ _, None |}.

(** Every device and every room of the bridge has an id. *)
Definition ids_present (bridge : bridge_resources) : Prop :=
  Forall (λ dev, is_Some (raw_device_id dev))
         (default [] (fetched_devices bridge))
  ∧ Forall (λ room, is_Some (raw_room_id room))
           (default [] (fetched_rooms bridge)).

(** The example, with a device that has a name and no id. *)
Definition anonymous_bridge : bridge_resources :=
  {| fetched_devices :=
       Some [example_device "d1" "Lamp 1";
             {| raw_device_id := None; raw_device_name := Some "Lamp 2" |}];
     fetched_lights := fetched_lights example_bridge;
     fetched_rooms := fetched_rooms example_bridge |}.

(** Three devices in one room, two of them numbered: "A1 2" and "A1 3"
    make the group "A1", and the device "A1", whose normalized name is
    "A", stands alone beside it. *)
Definition shadow_bridge : bridge_resources :=
  {| fetched_devices :=
       Some [example_device "d1" "A1 2"; example_device "d2" "A1 3";
             example_device "d3" "A1"];
     fetched_lights :=
       Some [example_light "s1" "d1" true (Some 80%Q);
             example_light "s2" "d2" false (Some 35%Q);
             example_light "s3" "d3" true (Some 50%Q)];
     fetched_rooms :=
       Some [example_room "r1" "Bedroom" ["d1"; "d2"; "d3"]] |}.

Definition shadow_group : device_group :=
  {| group_base_name := "A1";
     hue_devices :=
       [{| device_name := "A1 2";
           device_id := "d1";
           light_services :=
             [example_service "s1" "A1 2 Light" true (Some 80%Q)] |};
        {| device_name := "A1 3";
           device_id := "d2";
           light_services :=
             [example_service "s2" "A1 3 Light" false None] |}] |}.

Definition shadow_device : hue_device :=
  {| device_name := "A1";
     device_id := "d3";
     light_services := [example_service "s3" "A1 Light" true (Some 50%Q)] |}.

Definition shadow_room : room_data :=
  {| room_name := "Bedroom";
     room_id := "r1";
     device_groups := [shadow_group];
     standalone_devices := [shadow_device] |}.

Definition shadow_house : house_structure :=
  {| house_name := "Hue Setup on 192.168.1.2"; rooms := [shadow_room] |}.

(** * Part II: properties *)

(** ** Stable sorting *)

Section SortingFacts.
Context {A : Type} (key : A → string).

#[global] Instance key_le_trans : Transitive (key_le key).
Proof. intros x y z; unfold key_le; apply transitivity. Qed.

#[global] Instance key_le_total : Total (key_le key).
Proof. intros x y; unfold key_le; apply total, _. Qed.

Lemma insert_by_key_perm x l : insert_by_key key x l ≡ₚ x :: l.
Proof.
  induction l as [|y l IH]; simpl; [done|].
  case_decide; [done|].
  rewrite IH. apply Permutation_swap.
Qed.

Lemma sorted_perm l : sorted key l ≡ₚ l.
Proof.
  induction l as [|x l IH]; simpl; [done|].
  rewrite insert_by_key_perm. by f_equiv.
Qed.

Lemma insert_by_key_Sorted x l :
  Sorted (key_le key) l → Sorted (key_le key) (insert_by_key key x l).
Proof.
  induction 1 as [|y l Hs IH Hhd]; simpl.
  - by repeat constructor.
  - case_decide as Hxy.
    + by repeat constructor.
    + constructor; [done|].
      assert (key_le key y x) as Hyx
        by (destruct (total (key_le key) x y); [done|done]).
      destruct Hhd as [|z l' Hyz]; simpl.
      * by constructor.
      * case_decide; by constructor.
Qed.

Lemma sorted_Sorted l : Sorted (key_le key) (sorted key l).
Proof.
  induction l; simpl; [constructor|]. by apply insert_by_key_Sorted.
Qed.

Lemma sorted_StronglySorted l : StronglySorted (key_le key) (sorted key l).
Proof. apply Sorted_StronglySorted; [apply _|apply sorted_Sorted]. Qed.

(** Stability: the items carrying any given key come out in their input
    order. *)
Lemma insert_by_key_filter k x l :
  filter (λ y, key y = k) (insert_by_key key x l)
  = filter (λ y, key y = k) (x :: l).
Proof.
  induction l as [|y l IH]; simpl; [done|].
  case_decide as Hxy; [done|].
  rewrite (filter_cons _ y), IH, !filter_cons.
  destruct (decide (key y = k)) as [Hy|Hy], (decide (key x = k)) as [Hx|Hx];
    try done.
  destruct Hxy. rewrite Hx, <- Hy. done.
Qed.

Lemma sorted_stable k l :
  filter (λ y, key y = k) (sorted key l) = filter (λ y, key y = k) l.
Proof.
  induction l as [|x l IH]; simpl; [done|].
  rewrite insert_by_key_filter, !filter_cons, IH. done.
Qed.

(** Two ordered lists that agree, key by key, on the sequence of items
    carrying that key are equal: the stable sort of a list is unique. *)
Lemma stable_sort_unique l1 l2 :
  StronglySorted (key_le key) l1 → StronglySorted (key_le key) l2 →
  (∀ k, filter (λ y, key y = k) l1 = filter (λ y, key y = k) l2) →
  l1 = l2.
Proof.
  intros Hs1. revert l2.
  induction Hs1 as [|x1 l1 Hs1 IH Hall1]; intros l2 Hs2 Hf.
  - destruct l2 as [|x2 l2]; [done|].
    specialize (Hf (key x2)). rewrite filter_cons in Hf.
    by rewrite decide_True in Hf.
  - destruct Hs2 as [|x2 l2 Hs2 Hall2].
    { specialize (Hf (key x1)). rewrite filter_cons in Hf.
      by rewrite decide_True in Hf. }
    assert (x1 ∈ x2 :: l2) as Hin1.
    { apply (list_elem_of_filter (λ y, key y = key x1)).
      rewrite <- Hf, filter_cons, decide_True by done. left. }
    assert (x2 ∈ x1 :: l1) as Hin2.
    { apply (list_elem_of_filter (λ y, key y = key x2)).
      rewrite Hf, filter_cons, decide_True by done. left. }
    assert (key x1 = key x2) as Hk.
    { apply (anti_symm String.le).
      - apply elem_of_cons in Hin2 as [->|Hin2]; [done|].
        rewrite Forall_forall in Hall1. by apply Hall1.
      - apply elem_of_cons in Hin1 as [->|Hin1]; [done|].
        rewrite Forall_forall in Hall2. by apply Hall2. }
    assert (x1 = x2) as ->.
    { specialize (Hf (key x1)). rewrite !filter_cons in Hf.
      rewrite decide_True in Hf by done.
      rewrite decide_True in Hf by done. congruence. }
    f_equal. apply IH; [done|]. intros k. specialize (Hf k).
    rewrite !filter_cons in Hf. case_decide; congruence.
Qed.

Lemma sorted_unique l l' :
  StronglySorted (key_le key) l' →
  (∀ k, filter (λ y, key y = k) l' = filter (λ y, key y = k) l) →
  l' = sorted key l.
Proof.
  intros Hs Hf. apply stable_sort_unique; [done|apply sorted_StronglySorted|].
  intros k. by rewrite Hf, sorted_stable.
Qed.

Lemma sorted_elem_of x l : x ∈ sorted key l ↔ x ∈ l.
Proof. by rewrite sorted_perm. Qed.

Lemma sorted_length l : length (sorted key l) = length l.
Proof. by rewrite sorted_perm. Qed.

(** A filter that only looks at the key commutes with the sort. *)
Lemma sorted_filter_key (P : string → Prop) `{∀ k, Decision (P k)} l :
  filter (λ y, P (key y)) (sorted key l)
  = sorted key (filter (λ y, P (key y)) l).
Proof.
  apply sorted_unique.
  - induction (sorted_StronglySorted l) as [|x l' Hs IH Hall];
      [constructor|].
    rewrite filter_cons. case_decide; [|done].
    constructor; [done|].
    apply Forall_forall. intros y [_ Hy]%list_elem_of_filter.
    rewrite Forall_forall in Hall. by apply Hall.
  - intros k. rewrite !list_filter_filter.
    destruct (decide (P k)) as [HP|HP].
    + assert (∀ y, key y = k ∧ P (key y) ↔ key y = k) as Hiff.
      { intros y. split; [by intros [? _]|].
        intros Hy. split; [done|]. by rewrite Hy. }
      rewrite !(list_filter_iff _ _ _ Hiff). apply sorted_stable.
    + assert (∀ l0 : list A, filter (λ y, key y = k ∧ P (key y)) l0 = [])
        as Hnil.
      { intros l0. induction l0 as [|y l0 IH]; [done|].
        rewrite filter_cons, IH. case_decide as Hy; [|done].
        destruct Hy as [Hy1 Hy2]. by rewrite Hy1 in Hy2. }
      by rewrite !Hnil.
Qed.

End SortingFacts.

(** ** Insertion-ordered dictionaries *)

Section ODictFacts.
Context {K V : Type} `{EqDecision K}.
Implicit Types (d : list (K * V)) (k : K) (v : V).

Lemma od_get_None d k : od_get d k = None ↔ k ∉ od_keys d.
Proof.
  unfold od_keys. induction d as [|[k' v'] d IH]; simpl.
  - split; [intros _; apply not_elem_of_nil|done].
  - rewrite not_elem_of_cons. case_decide as Hk.
    + split; [done|]. intros [Hne _]. by destruct Hne.
    + rewrite IH. split; [by split|by intros [_ ?]].
Qed.

Lemma od_get_Some_elem_of d k v : od_get d k = Some v → (k, v) ∈ d.
Proof.
  induction d as [|[k' v'] d IH]; simpl; [done|].
  case_decide; [intros [= ->]; subst; left|right; auto].
Qed.

Lemma od_mem_true d k : od_mem d k = true ↔ k ∈ od_keys d.
Proof.
  unfold od_mem. rewrite bool_decide_eq_true.
  rewrite <- not_eq_None_Some, od_get_None.
  split; [apply dec_stable|auto].
Qed.

Lemma od_set_fresh d k v : k ∉ od_keys d → od_set d k v = d ++ [(k, v)].
Proof.
  unfold od_keys. induction d as [|[k' v'] d IH]; simpl; [done|].
  rewrite not_elem_of_cons. intros [Hne Hnin].
  rewrite decide_False by done. by rewrite IH.
Qed.

Lemma od_keys_set d k v :
  od_keys (od_set d k v)
  = if decide (k ∈ od_keys d) then od_keys d else od_keys d ++ [k].
Proof.
  unfold od_keys. induction d as [|[k' v'] d IH].
  - cbn [od_set fmap list_fmap fst app].
    rewrite decide_False; [done|apply not_elem_of_nil].
  - cbn [od_set fmap list_fmap fst].
    destruct (decide (k = k')) as [->|Hne]; cbn [fmap list_fmap fst].
    + rewrite decide_True; [done|left].
    + fold (@fmap list _ _ _ (@fst K V) (od_set d k v)).
      fold (@fmap list _ _ _ (@fst K V) d).
      rewrite IH. destruct (decide (k ∈ d.*1)) as [Hin|Hnin].
      * rewrite decide_True; [done|by right].
      * rewrite decide_False; [done|].
        rewrite not_elem_of_cons. done.
Qed.

Lemma od_set_NoDup d k v : NoDup (od_keys d) → NoDup (od_keys (od_set d k v)).
Proof.
  intros Hd. rewrite od_keys_set. case_decide; [done|].
  apply NoDup_app. split_and!; [done| |apply NoDup_singleton].
  intros x Hx. rewrite list_elem_of_singleton. by intros ->.
Qed.

Lemma od_get_set d k v k' :
  od_get (od_set d k v) k' = if decide (k' = k) then Some v else od_get d k'.
Proof.
  induction d as [|[k0 v0] d IH]; simpl.
  - done.
  - destruct (decide (k = k0)) as [->|Hne]; simpl.
    + by destruct (decide (k' = k0)).
    + rewrite IH. destruct (decide (k' = k0)) as [->|]; [|done].
      by rewrite decide_False.
Qed.

Lemma od_get_del_ne d k k' : k ≠ k' → od_get (od_del d k) k' = od_get d k'.
Proof.
  intros Hne. induction d as [|[k0 v0] d IH]; simpl; [done|].
  destruct (decide (k = k0)) as [->|Hk]; simpl.
  - by rewrite decide_False.
  - by rewrite IH.
Qed.

Lemma od_del_values_perm d k v :
  od_get d k = Some v → od_values d ≡ₚ v :: od_values (od_del d k).
Proof.
  unfold od_values. induction d as [|[k0 v0] d IH]; simpl; [done|].
  destruct (decide (k = k0)) as [->|Hk]; simpl.
  - by intros [= ->].
  - intros Hg. rewrite (IH Hg). apply Permutation_swap.
Qed.

Lemma od_get_elem_of_NoDup d k v :
  NoDup (od_keys d) → (k, v) ∈ d → od_get d k = Some v.
Proof.
  unfold od_keys. induction d as [|[k0 v0] d IH]; simpl.
  - by intros _ ?%elem_of_nil.
  - intros [Hk0 Hnd]%NoDup_cons [[= -> ->]|Hin]%elem_of_cons.
    + by rewrite decide_True.
    + rewrite decide_False; [by apply IH|].
      intros ->. apply Hk0. by apply (list_elem_of_fmap_2 fst) in Hin.
Qed.

End ODictFacts.

(** ** OrderResolver *)

Section OrderResolverFacts.
Context {A : Type} (name_of : A → option string).

Lemma items_map_fresh_from d items :
  NoDup (od_keys d ++ (name_of <$> items)) →
  foldl (λ d item, od_set d (name_of item) item) d items
  = d ++ ((λ item, (name_of item, item)) <$> items).
Proof.
  revert d. induction items as [|x items IH]; intros d Hnd; simpl.
  - by rewrite app_nil_r.
  - rewrite od_set_fresh.
    + rewrite IH; [by rewrite <- app_assoc|].
      unfold od_keys. rewrite fmap_app. simpl. by rewrite <- app_assoc.
    + apply NoDup_app in Hnd as (_ & Hdisj & _).
      intros Hin. apply (Hdisj _ Hin). left.
Qed.

Lemma items_map_distinct items :
  NoDup (name_of <$> items) →
  items_map name_of items = (λ item, (name_of item, item)) <$> items.
Proof. intros Hnd. unfold items_map. by rewrite items_map_fresh_from. Qed.

Lemma items_map_values_distinct items :
  NoDup (name_of <$> items) → od_values (items_map name_of items) = items.
Proof.
  intros Hnd. rewrite items_map_distinct by done. unfold od_values.
  rewrite <- list_fmap_compose. apply list_fmap_id.
Qed.

(** The loop over the preferred names moves items from the remaining map
    to the output: together they keep holding the same items, as long as
    no name comes twice. *)
Lemma place_preferred_perm (m : list (option string * A)) (names : list string)
    (final : list A) (rem : list (option string * A)) :
  NoDup names →
  (∀ n, n ∈ names → od_get rem (Some n) = od_get m (Some n)) →
  let '(final', rem') := foldl (place_preferred m) (final, rem) names in
  final' ++ od_values rem' ≡ₚ final ++ od_values rem.
Proof.
  revert final rem.
  induction names as [|n names IH]; intros final rem Hnd Hag; simpl; [done|].
  apply NoDup_cons in Hnd as [Hn Hnd].
  destruct (od_get m (Some n)) as [item|] eqn:Hm.
  - assert (od_get rem (Some n) = Some item) as Hr
      by (rewrite Hag; [done|left]).
    assert (od_mem rem (Some n) = true) as ->
      by (unfold od_mem; by rewrite Hr, bool_decide_eq_true).
    specialize (IH (final ++ [item]) (od_del rem (Some n)) Hnd).
    destruct (foldl _ _ names) as [final' rem'].
    rewrite IH.
    + rewrite (od_del_values_perm rem _ _ Hr), <- app_assoc. simpl. done.
    + intros n' Hn'. rewrite od_get_del_ne by (intros [= <-]; done).
      apply Hag. by right.
  - apply IH; [done|]. intros n' Hn'. apply Hag. by right.
Qed.

(** What the resolver does get right: for items whose keys are pairwise
    distinct and preferred keys without repetition, its output is a
    permutation of the input, every input item coming exactly once. In
    particular a preferred key that matches no item is skipped and leaves
    no entry. *)
Lemma get_ordered_items_permutation (actual_items : list A)
    (preferred_order_names : list string) :
  NoDup (name_of <$> actual_items) →
  NoDup preferred_order_names →
  get_ordered_items name_of actual_items preferred_order_names
  ≡ₚ actual_items.
Proof.
  intros Hitems Hpref. unfold get_ordered_items.
  destruct preferred_order_names as [|n names]; [apply sorted_perm|].
  pose proof (place_preferred_perm (items_map name_of actual_items)
                (n :: names) [] (items_map name_of actual_items) Hpref) as HP.
  destruct (foldl _ _ (n :: names)) as [final rem].
  rewrite sorted_perm, HP by done. simpl.
  by rewrite items_map_values_distinct.
Qed.

(** C8. With an empty sequence of preferred keys the resolver returns the
    input items sorted by key: the stable sort of the input, which is a
    permutation of it, ascending for the comparison of strings, with items
    of equal key in input order. *)
Theorem get_ordered_items_no_preference (actual_items : list A) :
  let result := get_ordered_items name_of actual_items [] in
  result = sorted (sort_name name_of) actual_items
  ∧ result ≡ₚ actual_items
  ∧ StronglySorted (λ x y, String.le (sort_name name_of x)
                                    (sort_name name_of y)) result
  ∧ ∀ k, filter (λ x, sort_name name_of x = k) result
         = filter (λ x, sort_name name_of x = k) actual_items.
Proof.
  simpl. split_and!.
  - done.
  - apply sorted_perm.
  - apply (sorted_StronglySorted (sort_name name_of)).
  - intros k. apply sorted_stable.
Qed.

End OrderResolverFacts.

Example get_ordered_items_spec_example :
  get_ordered_items example_name [("A", 1); ("B", 2); ("C", 3)]
                    ["C"; "Z"; "A"]
  = [("C", 3); ("A", 1); ("B", 2)].
Proof. reflexivity. Qed.

(** Outside these conditions the output is no permutation of the input. A
    preferred key that comes twice emits its item twice; and two items
    that share a key are merged into one by the lookup table as soon as
    the preferred sequence is not empty. *)
Lemma get_ordered_items_not_permutation :
  ¬ (get_ordered_items example_name [("A", 1)] ["A"; "A"] ≡ₚ [("A", 1)])
  ∧ ¬ (get_ordered_items example_name [("A", 1); ("A", 2)] ["Z"]
       ≡ₚ [("A", 1); ("A", 2)]).
Proof.
  split; intros Hp%Permutation_length; vm_compute in Hp; discriminate.
Qed.

Example get_ordered_items_repeated_preference :
  get_ordered_items example_name [("A", 1)] ["A"; "A"]
  = [("A", 1); ("A", 1)].
Proof. reflexivity. Qed.

Example get_ordered_items_shared_key :
  get_ordered_items example_name [("A", 1); ("A", 2)] ["Z"] = [("A", 2)].
Proof. reflexivity. Qed.

(** ** NameNormalizer *)

Lemma is_digit_not_space c : is_digit c = true → is_space c = false.
Proof.
  destruct c as [[] [] [] [] [] [] [] []]; vm_compute; congruence.
Qed.

Lemma is_space_not_digit c : is_space c = true → is_digit c = false.
Proof.
  intros Hs. destruct (is_digit c) eqn:Hd; [|done].
  apply is_digit_not_space in Hd. congruence.
Qed.

Lemma newline_is_space : is_space newline = true.
Proof. reflexivity. Qed.

Lemma newline_not_digit : is_digit newline = false.
Proof. reflexivity. Qed.

Section WhileFacts.
Context {A : Type} (p : A → bool).

Lemma take_drop_while l : take_while p l ++ drop_while p l = l.
Proof. induction l as [|x l IH]; simpl; [done|]. destruct (p x); simpl; by f_equal. Qed.

Lemma take_while_Forall l : Forall (λ x, p x = true) (take_while p l).
Proof.
  induction l as [|x l IH]; simpl; [constructor|].
  destruct (p x) eqn:Hx; by constructor.
Qed.

Lemma drop_while_head l x : head (drop_while p l) = Some x → p x = false.
Proof.
  induction l as [|y l IH]; simpl; [done|].
  destruct (p y) eqn:Hy; [done|]. simpl. by intros [= <-].
Qed.

Lemma drop_while_all l : Forall (λ x, p x = true) l → drop_while p l = [].
Proof. induction 1 as [|x l Hx _ IH]; simpl; [done|]. by rewrite Hx. Qed.

Lemma drop_while_app_all l1 l2 :
  Forall (λ x, p x = true) l1 → drop_while p (l1 ++ l2) = drop_while p l2.
Proof. induction 1 as [|x l Hx _ IH]; simpl; [done|]. by rewrite Hx. Qed.

Lemma drop_while_stop x l : p x = false → drop_while p (x :: l) = x :: l.
Proof. intros Hx. simpl. by rewrite Hx. Qed.

(** Dropping from [l1 ++ l2] stops inside [l1] when [l1] has an item
    outside the class. *)
Lemma drop_while_app_stop l1 l2 :
  ¬ Forall (λ x, p x = true) l1 →
  drop_while p (l1 ++ l2) = drop_while p l1 ++ l2
  ∧ drop_while p l1 ≠ [] ∧ last (drop_while p l1) = last l1.
Proof.
  induction l1 as [|x l1 IH]; intros Hn.
  - destruct Hn. constructor.
  - simpl. destruct (p x) eqn:Hx.
    + destruct IH as (IH1 & IH2 & IH3).
      { intros Hall. apply Hn. by constructor. }
      split_and!; [done|done|]. rewrite IH3.
      destruct l1; [done|]. by rewrite last_cons_cons.
    + done.
Qed.

Lemma drop_while_length l : (length (drop_while p l) ≤ length l)%nat.
Proof. induction l as [|x l IH]; simpl; [done|]. destruct (p x); simpl; lia. Qed.

Lemma drop_while_length_eq l :
  length (drop_while p l) = length l → drop_while p l = l.
Proof.
  destruct l as [|x l]; simpl; [done|]. destruct (p x); [|done].
  pose proof (drop_while_length l). lia.
Qed.

End WhileFacts.

Lemma match_star_greedy cls k s :
  (∀ c t, cls c = true → k (c :: t) = None) →
  match_star cls k s = k (drop_while cls s).
Proof.
  intros Hk. induction s as [|c t IH]; simpl; [done|].
  destruct (cls c) eqn:Hc; [|done].
  rewrite IH. destruct (k (drop_while cls t)); [done|]. by apply Hk.
Qed.

Lemma match_here_trailing_number s :
  match_here re_trailing_number s = tail_number s.
Proof.
  unfold re_trailing_number, tail_number.
  cbn [match_here]. rewrite match_star_greedy.
  - destruct (drop_while is_space s) as [|c t]; [done|].
    destruct (is_digit c); [|done].
    rewrite match_star_greedy; [done|].
    intros c' t' Hc'. destruct t' as [|? ?]; simpl; [|done].
    case_bool_decide as Hnl; [|done]. subst. done.
  - intros c t Hc. by rewrite (is_space_not_digit c Hc).
Qed.

Lemma at_end_inv r : at_end r = true → r = [] ∨ r = [newline].
Proof.
  destruct r as [|c [|? ?]]; simpl; [by left| |done].
  intros ->%bool_decide_eq_true. by right.
Qed.

Lemma tail_number_Some s r :
  tail_number s = Some r →
  (r = [] ∨ r = [newline])
  ∧ ∃ w d, s = w ++ d ++ r ∧ Forall (λ c, is_space c = true) w
           ∧ Forall (λ c, is_digit c = true) d ∧ d ≠ [].
Proof.
  unfold tail_number. intros Ht.
  pose proof (take_drop_while is_space s) as Hs.
  destruct (drop_while is_space s) as [|c t]; [done|].
  destruct (is_digit c) eqn:Hc; [|done].
  pose proof (take_drop_while is_digit t) as Hd.
  destruct (at_end (drop_while is_digit t)) eqn:He; [|done].
  injection Ht as <-. split; [by apply at_end_inv|].
  exists (take_while is_space s), (c :: take_while is_digit t).
  split_and!.
  - rewrite <- Hs at 1. f_equal. simpl. by rewrite Hd.
  - apply take_while_Forall.
  - constructor; [done|apply take_while_Forall].
  - done.
Qed.

Lemma tail_number_newline : tail_number [newline] = None.
Proof. reflexivity. Qed.

Lemma re_sub_from_skip p a r :
  re_sub_from p (a ++ r) (length a) = re_sub_from p r 0.
Proof. induction a as [|c a IH]; simpl; [by destruct r|done]. Qed.

Lemma re_sub_trailing_unfold c t :
  re_sub_from re_trailing_number (c :: t) 0
  = match tail_number (c :: t) with
    | Some r => r
    | None => c :: re_sub_from re_trailing_number t 0
    end.
Proof.
  cbn [re_sub_from]. rewrite match_here_trailing_number.
  destruct (tail_number (c :: t)) as [r|] eqn:Ht; [|done].
  apply tail_number_Some in Ht as (Hr & w & d & Hs & _ & _ & Hd).
  assert (∃ a, t = a ++ r ∧ length (c :: t) - length r = S (length a))
    as (a & -> & ->).
  { destruct (w ++ d) as [|c' a] eqn:Hwd.
    - apply app_eq_nil in Hwd as [_ ->]. done.
    - rewrite app_assoc, Hwd in Hs. injection Hs as -> ->.
      exists a. split; [done|]. simpl. rewrite length_app. lia. }
  rewrite re_sub_from_skip.
  destruct Hr as [->| ->]; [done|].
  cbn [re_sub_from]. rewrite match_here_trailing_number. done.
Qed.


Lemma tail_number_run w d e :
  number_run w d e → tail_number (w ++ d ++ e) = Some e.
Proof.
  intros (Hw & Hd & Hd0 & He).
  unfold tail_number. rewrite drop_while_app_all by done.
  destruct d as [|c d']; [done|].
  apply Forall_cons in Hd as [Hc Hd'].
  cbn [app]. rewrite (drop_while_stop _ c) by by apply is_digit_not_space.
  rewrite Hc. cbn zeta. rewrite drop_while_app_all by done.
  by destruct He as [->| ->].
Qed.

Lemma run_not_at_end (w d e l : list ascii) :
  d ≠ [] → l ≠ [] → at_end (l ++ w ++ d ++ e) = false.
Proof.
  intros Hd0 Hl. destruct l as [|c l]; [done|].
  destruct (l ++ w ++ d ++ e) as [|c' l'] eqn:Hl'; [|by rewrite <- app_comm_cons, Hl'].
  apply app_eq_nil in Hl' as [_ Hl'].
  apply app_eq_nil in Hl' as [_ Hl'].
  by apply app_eq_nil in Hl' as [-> _].
Qed.

Lemma tail_number_before_run w d e pre :
  number_run w d e →
  pre ≠ [] → clean_prefix pre w → tail_number (pre ++ w ++ d ++ e) = None.
Proof.
  intros (Hw & Hd & Hd0 & He) Hpre Hclean. unfold tail_number.
  assert (∃ c, last pre = Some c) as [c Hc]
    by (by apply last_is_Some).
  destruct (Hclean c Hc) as [Hcs Hcd].
  destruct (drop_while_app_stop is_space pre (w ++ d ++ e))
    as (-> & Hq0 & Hqlast).
  { intros Hall. apply last_Some_elem_of in Hc.
    rewrite Forall_forall in Hall. rewrite (Hall c Hc) in Hcs. done. }
  destruct (drop_while is_space pre) as [|x q] eqn:Hq; [done|].
  cbn [app]. destruct (is_digit x) eqn:Hx; [|done]. cbn zeta.
  destruct (decide (Forall (λ c, is_digit c = true) q)) as [Hall|Hnall].
  - rewrite drop_while_app_all by done.
    assert (is_digit c = true) as Hcdig.
    { rewrite Hc in Hqlast. destruct q as [|y q'].
      - simpl in Hqlast. congruence.
        - rewrite last_cons_cons in Hqlast.
          apply last_Some_elem_of in Hqlast.
          rewrite Forall_forall in Hall. by apply Hall. }
    destruct w as [|y w'] eqn:Hw'.
    + rewrite Hcd in Hcdig; done.
    + apply Forall_cons in Hw as [Hy _].
      cbn [app]. rewrite drop_while_stop by by apply is_space_not_digit.
      destruct d as [|z d']; [done|].
      destruct w'; done.
  - destruct (drop_while_app_stop is_digit q (w ++ d ++ e) Hnall)
      as (-> & Hq' & _).
    by rewrite run_not_at_end.
Qed.

(** The substitution removes the run and nothing else. *)
Lemma re_sub_trailing_run w d e pre :
  number_run w d e →
  clean_prefix pre w →
  re_sub_from re_trailing_number (pre ++ w ++ d ++ e) 0 = pre ++ e.
Proof.
  intros Hrun. induction pre as [|c pre IH]; intros Hclean.
  - cbn [app]. destruct (w ++ d ++ e) as [|c t] eqn:Hs.
    { destruct Hrun as (_ & _ & Hd0 & _).
      apply app_eq_nil in Hs as [_ Hs]. by apply app_eq_nil in Hs as [? _]. }
    rewrite re_sub_trailing_unfold, <- Hs, tail_number_run; done.
  - rewrite <- app_comm_cons, re_sub_trailing_unfold, app_comm_cons.
    rewrite tail_number_before_run by done.
    rewrite IH; [done|].
    intros c' Hc'. apply Hclean. destruct pre; [done|].
    by rewrite last_cons_cons.
Qed.

(** Where no suffix matches, nothing is removed. *)
Lemma re_sub_trailing_none s :
  (∀ pre s', s = pre ++ s' → tail_number s' = None) →
  re_sub_from re_trailing_number s 0 = s.
Proof.
  induction s as [|c t IH]; intros Hnone; [done|].
  rewrite re_sub_trailing_unfold, (Hnone [] (c :: t)) by done.
  f_equal. apply IH. intros pre s' ->. by apply (Hnone (c :: pre)).
Qed.

(** The reading from the end agrees with the substitution. *)
Lemma re_sub_trailing_number_strip s :
  re_sub_from re_trailing_number s 0 = strip_trailing_number_chars s.
Proof.
  unfold strip_trailing_number_chars.
  set (r := reverse s).
  assert (s = reverse r) as Hs by (unfold r; by rewrite reverse_involutive).
  clearbody r. subst s.
  set (eb := match r with
             | c :: r' =>
                 if bool_decide (c = newline) then ([c], r') else ([], r)
             | [] => ([], r)
             end).
  assert (r = eb.1 ++ eb.2 ∧ (eb.1 = [] ∨ eb.1 = [newline])
          ∧ (eb.1 = [] → ∀ c, head eb.2 = Some c → c ≠ newline))
    as (Hr & He & Hnl).
  { unfold eb. destruct r as [|c r']; [by split_and!; [|left|]|].
    case_bool_decide as Hc; simpl.
    - subst c. split_and!; [done|by right|done].
    - split_and!; [done|by left|]. intros _ c' [= <-]. done. }
  destruct eb as [e body]. simpl in Hr, He, Hnl.
  case_bool_decide as Hlen.
  - (* the name does not end in a digit *)
    apply re_sub_trailing_none. intros pre s' Hs'.
    destruct (tail_number s') as [e'|] eqn:Ht; [exfalso|done].
    apply tail_number_Some in Ht as (He' & w & d & -> & _ & Hd & Hd0).
    apply drop_while_length_eq in Hlen.
    assert (∃ c, last d = Some c) as [c Hc] by (by apply last_is_Some).
    assert (is_digit c = true) as Hcd.
    { apply last_Some_elem_of in Hc. rewrite Forall_forall in Hd. auto. }
    apply (f_equal reverse) in Hs'.
    rewrite reverse_involutive, !reverse_app in Hs'.
    apply last_Some in Hc as [d' ->]. rewrite reverse_snoc in Hs'.
    rewrite <- !app_assoc in Hs'. cbn [app] in Hs'.
    assert (head body = Some c) as Hhd.
    { subst r. destruct He' as [->| ->], He as [->| ->]; simpl in Hs'.
      - by rewrite Hs'.
      - injection Hs' as Hc' _. subst c. done.
      - rewrite Hs' in Hnl. by specialize (Hnl eq_refl _ eq_refl).
      - injection Hs' as Hb. by rewrite Hb. }
    destruct body as [|c0 body']; [done|]. injection Hhd as ->.
    simpl in Hlen. rewrite Hcd in Hlen.
    pose proof (drop_while_length is_digit body') as Hle.
    rewrite Hlen in Hle. simpl in Hle. lia.
  - (* the digits that end the name, and the whitespace before them *)
    pose proof (take_drop_while is_digit body) as Hbody.
    pose proof (take_drop_while is_space (drop_while is_digit body)) as Hbd.
    set (rest := drop_while is_space (drop_while is_digit body)) in *.
    rewrite Hr, <- Hbody, <- Hbd, !reverse_app, <- !app_assoc.
    fold rest.
    assert (e = reverse e) as Hrev by (by destruct He as [->| ->]).
    rewrite <- Hrev.
    rewrite (re_sub_trailing_run
               (reverse (take_while is_space (drop_while is_digit body)))
               (reverse (take_while is_digit body)) e).
    + done.
    + split_and!.
      * apply Forall_reverse, take_while_Forall.
      * apply Forall_reverse, take_while_Forall.
      * intros Hnil. apply (f_equal reverse) in Hnil.
        rewrite reverse_involutive in Hnil. simpl in Hnil.
        rewrite Hnil in Hbody. simpl in Hbody. by rewrite Hbody in Hlen.
      * done.
    + intros c Hc. rewrite last_reverse in Hc.
      split; [by apply (drop_while_head is_space _ _ Hc)|].
      intros Hnil. apply (f_equal reverse) in Hnil.
      rewrite reverse_involutive in Hnil. simpl in Hnil.
      rewrite Hnil in Hbd. simpl in Hbd. fold rest in Hbd.
      rewrite Hbd in Hc. by apply (drop_while_head is_digit _ _ Hc).
Qed.

(** The second substitution removes exactly the whitespace. *)
Lemma match_star_id cls s :
  match_star cls (λ s, Some s) s = Some (drop_while cls s).
Proof.
  induction s as [|c t IH]; simpl; [done|].
  destruct (cls c); [by rewrite IH|done].
Qed.

Lemma re_sub_spaces_filter s n :
  Forall (λ c, is_space c = true) (take n s) →
  re_sub_from re_spaces s n = filter (λ c, is_space c = false) s.
Proof.
  revert n. induction s as [|c t IH]; intros n Hn; [done|].
  destruct n as [|n]; cbn [re_sub_from].
  - unfold re_spaces. cbn [match_here].
    destruct (is_space c) eqn:Hc.
    + change (match_here []) with (λ s : list ascii, Some s).
      rewrite match_star_id.
      rewrite <- (take_drop_while is_space t) at 1.
      rewrite app_comm_cons, length_app.
      replace (length (c :: take_while is_space t)
               + length (drop_while is_space t)
               - length (drop_while is_space t))
        with (S (length (take_while is_space t))) by (simpl; lia).
      rewrite filter_cons_False by congruence.
      apply IH.
      rewrite <- (take_drop_while is_space t) at 2.
      rewrite take_app_length. apply take_while_Forall.
    + rewrite filter_cons_True by done. f_equal. apply IH. constructor.
  - simpl in Hn. apply Forall_cons in Hn as [Hc Hn].
    rewrite filter_cons_False by congruence. by apply IH.
Qed.

Lemma re_sub_trailing_number_spec s :
  re_sub re_trailing_number s = strip_trailing_number s.
Proof.
  unfold re_sub, strip_trailing_number.
  by rewrite re_sub_trailing_number_strip.
Qed.

Lemma re_sub_spaces_spec s : re_sub re_spaces s = remove_spaces s.
Proof.
  unfold re_sub, remove_spaces. rewrite re_sub_spaces_filter; [done|].
  constructor.
Qed.

(** C2 (amended). The normaliser is a total function. The empty name maps
    to the sentinel ["UnnamedDevice"]; every other name loses one trailing
    run of whitespace followed by digits and then all its remaining
    whitespace. The sentinel is not used when the stripping leaves nothing:
    such a name normalises to the empty string. *)
Theorem normalize_device_name_spec (name : string) :
  _normalize_device_name name
  = if bool_decide (name = "") then "UnnamedDevice"
    else remove_spaces (strip_trailing_number name).
Proof.
  unfold _normalize_device_name. case_bool_decide; [done|].
  by rewrite re_sub_trailing_number_spec, re_sub_spaces_spec.
Qed.

(** What the reading from the end removes: for a name that ends in a run
    of whitespace [w] and digits [d] (before an optional final newline
    [e]), with the run taken as long as possible, exactly the run. *)
Lemma strip_trailing_number_run pre w d e :
  number_run w d e →
  clean_prefix pre w →
  strip_trailing_number_chars (pre ++ w ++ d ++ e) = pre ++ e.
Proof.
  intros Hrun Hclean.
  rewrite <- re_sub_trailing_number_strip. by apply re_sub_trailing_run.
Qed.

Example normalize_lamp_1 : _normalize_device_name "Lamp 1" = "Lamp".
Proof. reflexivity. Qed.

Example normalize_lamp_2 : _normalize_device_name "Lamp 2" = "Lamp".
Proof. reflexivity. Qed.

Example normalize_office_lamp :
  _normalize_device_name "Office Lamp" = "OfficeLamp".
Proof. reflexivity. Qed.

Example normalize_bed_boob : _normalize_device_name "Bed Boob 1" = "BedBoob".
Proof. reflexivity. Qed.

Example normalize_empty : _normalize_device_name "" = "UnnamedDevice".
Proof. reflexivity. Qed.

(** One run only is stripped, and a name that ends in whitespace keeps its
    digits. *)
Example normalize_one_run : _normalize_device_name "Lamp 1 2" = "Lamp1".
Proof. reflexivity. Qed.

Example normalize_trailing_space : _normalize_device_name "Lamp 2 " = "Lamp2".
Proof. reflexivity. Qed.

(** C2, as stated, fails on a name made of digits only: the stripping
    leaves nothing, and the result is the empty string, not the sentinel.
    (And the run that is stripped may stand before a final newline, since
    [$] also matches there.) *)
Lemma normalize_device_name_digits_only :
  strip_trailing_number "42" = ""
  ∧ _normalize_device_name "42" = ""
  ∧ _normalize_device_name "42" ≠ "UnnamedDevice"
  ∧ _normalize_device_name ("Lamp 2" +:+ String newline "") = "Lamp".
Proof. split_and!; [reflexivity|reflexivity|discriminate|reflexivity]. Qed.

(** ** StructureBuilder: fetch failures *)

Lemma truthy_list_fail_empty {A} (o : option (list A)) :
  truthy_list (fail_empty o) = truthy_list o.
Proof. by destruct o as [[|? ?]|]. Qed.

Lemma fail_empty_truthy {A} (o : option (list A)) :
  truthy_list o = true → fail_empty o = o.
Proof. by destruct o as [[|? ?]|]. Qed.

(** The guard [if not all([devices_raw, light_services_raw, rooms_raw])]. *)
Lemma generate_guard env bridge output_file_path fs :
  truthy_list (fetched_devices bridge) && truthy_list (fetched_lights bridge)
  && truthy_list (fetched_rooms bridge) = false →
  generate_hue_structure_json env bridge output_file_path fs
  = (Returned None, fs).
Proof.
  intros Hg. unfold generate_hue_structure_json.
  destruct (CONFIG_VALID env); [|done]. simpl. by rewrite Hg.
Qed.

Lemma generate_fail_empty env bridge output_file_path fs :
  generate_hue_structure_json env bridge output_file_path fs
  = generate_hue_structure_json env (fail_empty_resources bridge)
      output_file_path fs.
Proof.
  destruct (truthy_list (fetched_devices bridge)
            && truthy_list (fetched_lights bridge)
            && truthy_list (fetched_rooms bridge)) eqn:Hg.
  - apply andb_true_iff in Hg as [[Hd Hl]%andb_true_iff Hr].
    destruct bridge as [d l r]. unfold fail_empty_resources. simpl in *.
    by rewrite !fail_empty_truthy.
  - rewrite !generate_guard; [done| |done].
    unfold fail_empty_resources. simpl. by rewrite !truthy_list_fail_empty.
Qed.

(** C3. When any of the three fetches fails to obtain its list, the build
    returns no document and leaves the store as it is; in particular when
    the room fetch fails while the two others succeed. *)
Theorem generate_aborts_on_fetch_failure env bridge output_file_path fs :
  fetched_devices bridge = None ∨ fetched_lights bridge = None
  ∨ fetched_rooms bridge = None →
  generate_hue_structure_json env bridge output_file_path fs
  = (Returned None, fs).
Proof.
  intros Hfail. apply generate_guard.
  destruct Hfail as [-> | [-> | ->]]; simpl.
  - done.
  - by rewrite andb_false_r.
  - by rewrite andb_false_r.
Qed.

(** The room fetch fails while the device and light fetches succeed. *)
Lemma generate_aborts_on_fetch_failure_witness :
  generate_hue_structure_json example_env
    {| fetched_devices := Some [example_device "d1" "Lamp 1"];
       fetched_lights := Some [example_light "s1" "d1" true (Some 80%Q)];
       fetched_rooms := None |}
    DEFAULT_OUTPUT_FILE empty_fs
  = (Returned None, empty_fs).
Proof.
  apply generate_aborts_on_fetch_failure. simpl. right. right. reflexivity.
Defined.

(** C10. A fetch that succeeds with an empty list aborts the build in the
    same way: no document, the store untouched, and nothing that tells the
    run from one in which that fetch failed. *)
Theorem generate_aborts_on_empty_list env bridge output_file_path fs :
  fetched_devices bridge = Some [] ∨ fetched_lights bridge = Some []
  ∨ fetched_rooms bridge = Some [] →
  generate_hue_structure_json env bridge output_file_path fs
  = (Returned None, fs)
  ∧ generate_hue_structure_json env bridge output_file_path fs
    = generate_hue_structure_json env (fail_empty_resources bridge)
        output_file_path fs.
Proof.
  intros Hempty. split; [|apply generate_fail_empty].
  apply generate_guard.
  destruct Hempty as [-> | [-> | ->]]; simpl.
  - done.
  - by rewrite andb_false_r.
  - by rewrite andb_false_r.
Qed.

(** A bridge with devices and lights but no room. *)
Lemma generate_aborts_on_empty_list_witness :
  let bridge :=
    {| fetched_devices := Some [example_device "d1" "Lamp 1"];
       fetched_lights := Some [example_light "s1" "d1" true (Some 80%Q)];
       fetched_rooms := Some [] |} in
  generate_hue_structure_json example_env bridge DEFAULT_OUTPUT_FILE empty_fs
  = (Returned None, empty_fs)
  ∧ generate_hue_structure_json example_env bridge DEFAULT_OUTPUT_FILE
      empty_fs
    = generate_hue_structure_json example_env (fail_empty_resources bridge)
        DEFAULT_OUTPUT_FILE empty_fs.
Proof.
  apply generate_aborts_on_empty_list. simpl. right. right. reflexivity.
Defined.

(** ** The store *)

Lemma write_file_Some path c fs fs' :
  write_file path c fs = Some fs' →
  write_fails fs path = false
  ∧ fs' = {| files := <[path := c]> (files fs);
             write_fails := write_fails fs;
             write_remains := write_remains fs |}.
Proof.
  unfold write_file. destruct (write_fails fs path); [done|].
  by intros [= <-].
Qed.

Lemma write_file_None path c fs :
  write_file path c fs = None → write_fails fs path = true.
Proof. unfold write_file. by destruct (write_fails fs path). Qed.

Lemma write_file_again path c fs fs' :
  write_file path c fs = Some fs' → write_file path c fs' = Some fs'.
Proof.
  intros [Hw ->]%write_file_Some. unfold write_file. simpl.
  by rewrite Hw, insert_insert_eq.
Qed.

Lemma write_file_exists path c fs fs' path' :
  write_file path c fs = Some fs' →
  path_exists fs path' = true → path_exists fs' path' = true.
Proof.
  intros [_ ->]%write_file_Some. unfold path_exists. simpl.
  rewrite !bool_decide_eq_true. intros Hex.
  destruct (decide (path = path')) as [->|Hne].
  - by rewrite lookup_insert_eq.
  - by rewrite lookup_insert_ne.
Qed.

Lemma write_file_written path c fs fs' :
  write_file path c fs = Some fs' → path_exists fs' path = true.
Proof.
  intros [_ ->]%write_file_Some. unfold path_exists. simpl.
  by rewrite bool_decide_eq_true, lookup_insert_eq.
Qed.

Lemma write_file_fails_eq path c fs fs' :
  write_file path c fs = Some fs' → write_fails fs' = write_fails fs.
Proof. by intros [_ ->]%write_file_Some. Qed.

Lemma write_file_remains_eq path c fs fs' :
  write_file path c fs = Some fs' → write_remains fs' = write_remains fs.
Proof. by intros [_ ->]%write_file_Some. Qed.

(** *** A write that fails *)

Lemma failed_write_fails_eq path c fs :
  write_fails (failed_write path c fs) = write_fails fs.
Proof. unfold failed_write. by destruct (write_remains fs path c). Qed.

Lemma failed_write_remains_eq path c fs :
  write_remains (failed_write path c fs) = write_remains fs.
Proof. unfold failed_write. by destruct (write_remains fs path c). Qed.

Lemma failed_write_exists path c fs path' :
  path_exists fs path' = true →
  path_exists (failed_write path c fs) path' = true.
Proof.
  unfold failed_write. destruct (write_remains fs path c); [|done].
  unfold path_exists. simpl. rewrite !bool_decide_eq_true. intros Hex.
  destruct (decide (path = path')) as [->|Hne].
  - by rewrite lookup_insert_eq.
  - by rewrite lookup_insert_ne.
Qed.

Lemma failed_write_lookup_ne path c fs p :
  p ≠ path → files (failed_write path c fs) !! p = files fs !! p.
Proof.
  intros Hne. unfold failed_write. destruct (write_remains fs path c); [|done].
  simpl. by rewrite lookup_insert_ne.
Qed.

(** What a failed write leaves at its path: the file as it was, or the
    part that was written. *)
Lemma failed_write_lookup path c fs :
  files (failed_write path c fs) !! path
  = match write_remains fs path c with
    | None => files fs !! path
    | Some text => Some (OtherFile text)
    end.
Proof.
  unfold failed_write. destruct (write_remains fs path c); [|done].
  simpl. by rewrite lookup_insert_eq.
Qed.

Lemma failed_write_again path c fs :
  failed_write path c (failed_write path c fs) = failed_write path c fs.
Proof.
  unfold failed_write at 2.
  destruct (write_remains fs path c) as [text|] eqn:Hr.
  - unfold failed_write. simpl. rewrite Hr. simpl.
    by rewrite insert_insert_eq.
  - unfold failed_write. by rewrite Hr.
Qed.

Lemma write_file_fails path c fs fs2 :
  write_fails fs2 = write_fails fs →
  write_file path c fs = None → write_file path c fs2 = None.
Proof.
  intros Hf Hw%write_file_None. unfold write_file. by rewrite Hf, Hw.
Qed.

(** *** The synthesizer *)

(** The synthesizer leaves an existing order file alone. *)
Lemma create_default_ui_order_exists house fs :
  path_exists fs UI_ORDER_FILE_PATH_DEFAULT = true →
  create_default_ui_order house fs = fs.
Proof. unfold create_default_ui_order. by intros ->. Qed.

Lemma create_default_ui_order_fails house fs :
  write_fails (create_default_ui_order house fs) = write_fails fs.
Proof.
  unfold create_default_ui_order.
  destruct (path_exists fs UI_ORDER_FILE_PATH_DEFAULT); simpl; [done|].
  destruct (write_file _ _ fs) as [fs'|] eqn:Hw.
  - by eapply write_file_fails_eq.
  - apply failed_write_fails_eq.
Qed.

Lemma create_default_ui_order_remains house fs :
  write_remains (create_default_ui_order house fs) = write_remains fs.
Proof.
  unfold create_default_ui_order.
  destruct (path_exists fs UI_ORDER_FILE_PATH_DEFAULT); simpl; [done|].
  destruct (write_file _ _ fs) as [fs'|] eqn:Hw.
  - by eapply write_file_remains_eq.
  - apply failed_write_remains_eq.
Qed.

(** After the synthesizer ran, the order file exists, or it could not be
    created and the store is as it was. *)
Lemma create_default_ui_order_cases house fs :
  path_exists (create_default_ui_order house fs) UI_ORDER_FILE_PATH_DEFAULT
  = true
  ∨ (write_fails fs UI_ORDER_FILE_PATH_DEFAULT = true
     ∧ write_remains fs UI_ORDER_FILE_PATH_DEFAULT
         (UiOrderFile (default_ui_order house)) = None).
Proof.
  unfold create_default_ui_order.
  destruct (path_exists fs UI_ORDER_FILE_PATH_DEFAULT) eqn:Hex; simpl;
    [by left|].
  destruct (write_file _ _ fs) as [fs'|] eqn:Hw.
  - left. by eapply write_file_written.
  - apply write_file_None in Hw.
    destruct (write_remains fs UI_ORDER_FILE_PATH_DEFAULT
                (UiOrderFile (default_ui_order house))) as [text|] eqn:Hr;
      [left|by right].
    unfold failed_write, path_exists. rewrite Hr. simpl.
    by rewrite bool_decide_eq_true, lookup_insert_eq.
Qed.

(** In a store that came from the one the synthesizer left, without
    losing the order file, the synthesizer has nothing more to do. *)
Lemma create_default_ui_order_settled house fs fs2 :
  write_fails fs2 = write_fails fs →
  write_remains fs2 = write_remains fs →
  (path_exists (create_default_ui_order house fs) UI_ORDER_FILE_PATH_DEFAULT
   = true →
   path_exists fs2 UI_ORDER_FILE_PATH_DEFAULT = true) →
  create_default_ui_order house fs2 = fs2.
Proof.
  intros Hf Hr Hex.
  destruct (create_default_ui_order_cases house fs) as [Hc|[Hfail Hnone]].
  - apply create_default_ui_order_exists. by apply Hex.
  - unfold create_default_ui_order.
    destruct (path_exists fs2 UI_ORDER_FILE_PATH_DEFAULT); simpl; [done|].
    unfold write_file, failed_write. by rewrite Hf, Hfail, Hr, Hnone.
Qed.

(** Running the synthesizer a second time changes nothing. *)
Lemma create_default_ui_order_again house fs :
  create_default_ui_order house (create_default_ui_order house fs)
  = create_default_ui_order house fs.
Proof.
  apply (create_default_ui_order_settled house fs); [| |done].
  - apply create_default_ui_order_fails.
  - apply create_default_ui_order_remains.
Qed.

(** After the structure file is written over the state the synthesizer
    left, the synthesizer has nothing more to do. *)
Lemma create_default_ui_order_after_write house path c fs fs' :
  write_file path c (create_default_ui_order house fs) = Some fs' →
  create_default_ui_order house fs' = fs'.
Proof.
  intros Hw. apply (create_default_ui_order_settled house fs).
  - by rewrite (write_file_fails_eq _ _ _ _ Hw),
               create_default_ui_order_fails.
  - by rewrite (write_file_remains_eq _ _ _ _ Hw),
               create_default_ui_order_remains.
  - by apply (write_file_exists _ _ _ _ _ Hw).
Qed.

(** Nor has it after a write of the structure file that failed. *)
Lemma create_default_ui_order_after_failed_write house path c fs :
  create_default_ui_order house
    (failed_write path c (create_default_ui_order house fs))
  = failed_write path c (create_default_ui_order house fs).
Proof.
  apply (create_default_ui_order_settled house fs).
  - by rewrite failed_write_fails_eq, create_default_ui_order_fails.
  - by rewrite failed_write_remains_eq, create_default_ui_order_remains.
  - apply failed_write_exists.
Qed.

(** C7. Running the build twice on the same raw inputs gives the same
    result: the second run, started from the store the first one left,
    returns the same document (or the same failure) and leaves the store
    as it found it. *)
Theorem generate_idempotent env bridge output_file_path fs :
  let '(result, fs') :=
    generate_hue_structure_json env bridge output_file_path fs in
  generate_hue_structure_json env bridge output_file_path fs'
  = (result, fs').
Proof.
  unfold generate_hue_structure_json.
  destruct (CONFIG_VALID env); simpl; [|done].
  destruct (truthy_list (fetched_devices bridge)
            && truthy_list (fetched_lights bridge)
            && truthy_list (fetched_rooms bridge)); simpl; [|done].
  destruct (build_structure _ _ _ _) as [house|e]; [|done].
  destruct (write_file output_file_path (StructureFile house)
              (create_default_ui_order house fs)) as [fs'|] eqn:Hw.
  - rewrite (create_default_ui_order_after_write _ _ _ _ _ Hw).
    by rewrite (write_file_again _ _ _ _ Hw).
  - rewrite create_default_ui_order_after_failed_write.
    rewrite (write_file_fails _ _ _ _ (failed_write_fails_eq _ _ _) Hw).
    by rewrite (failed_write_again output_file_path (StructureFile house)).
Qed.

(** ** Reading a successful run backwards *)

Lemma py_mapM_Returned {A B} (f : A → py_result B) l ys :
  py_mapM f l = Returned ys → Forall2 (λ x y, f x = Returned y) l ys.
Proof.
  revert ys. induction l as [|x l IH]; intros ys; simpl.
  - intros [= <-]. constructor.
  - destruct (f x) as [y|e] eqn:Hx; [|done].
    destruct (py_mapM f l) as [ys'|e]; [|done].
    intros [= <-]. constructor; [done|]. by apply IH.
Qed.

Lemma build_structure_Returned bridge_ip devices_raw light_services_raw
    rooms_raw house :
  build_structure bridge_ip devices_raw light_services_raw rooms_raw
  = Returned house →
  ∃ device_details_map built_rooms,
    device_details_map_of devices_raw = Returned device_details_map
    ∧ Forall2 (λ raw r,
                 build_room device_details_map
                   (light_services_map_of device_details_map
                      light_services_raw) raw
                 = Returned r) rooms_raw built_rooms
    ∧ rooms house = sorted room_name built_rooms.
Proof.
  unfold build_structure, device_details_map_of, light_services_map_of.
  destruct (py_foldl index_device ∅ devices_raw) as [dmap|e]; [|done].
  destruct (py_mapM _ rooms_raw) as [built|e] eqn:Hrooms; [|done].
  intros [= <-]. exists dmap, built. split_and!; [done| |done].
  by apply py_mapM_Returned.
Qed.

Lemma generate_Returned_Some env bridge output_file_path fs house fs' :
  generate_hue_structure_json env bridge output_file_path fs
  = (Returned (Some house), fs') →
  ∃ devices_raw light_services_raw rooms_raw,
    fetched_devices bridge = Some devices_raw
    ∧ fetched_lights bridge = Some light_services_raw
    ∧ fetched_rooms bridge = Some rooms_raw
    ∧ build_structure (BRIDGE_IP env) devices_raw light_services_raw
        rooms_raw = Returned house
    ∧ write_file output_file_path (StructureFile house)
        (create_default_ui_order house fs) = Some fs'.
Proof.
  unfold generate_hue_structure_json.
  destruct (CONFIG_VALID env); cbn [negb]; [|done].
  destruct (truthy_list (fetched_devices bridge)
            && truthy_list (fetched_lights bridge)
            && truthy_list (fetched_rooms bridge)) eqn:Hg;
    cbn [negb]; [|done].
  apply andb_true_iff in Hg as [[Hd Hl]%andb_true_iff Hr].
  destruct (fetched_devices bridge) as [ds|]; [|done].
  destruct (fetched_lights bridge) as [ls|]; [|done].
  destruct (fetched_rooms bridge) as [rs|]; [|done].
  cbn [default].
  destruct (build_structure _ _ _ _) as [h|e] eqn:Hb; [|done].
  destruct (write_file _ _ _) as [fs1|] eqn:Hw; [|done].
  intros [= <- <-]. by exists ds, ls, rs.
Qed.

(** ** DefaultOrderSynthesizer *)

(** A dictionary filled by successive assignments holds, for each key, the
    value assigned last. *)
Lemma od_get_foldl_set {K V X} `{EqDecision K} (k : X → K) (v : X → V)
    (d0 : list (K * V)) (l : list X) (n : K) :
  od_get (foldl (λ d x, od_set d (k x) (v x)) d0 l) n
  = match last (filter (λ x, k x = n) l) with
    | Some x => Some (v x)
    | None => od_get d0 n
    end.
Proof.
  revert d0. induction l as [|x l IH]; intros d0; simpl; [done|].
  rewrite IH, filter_cons, od_get_set.
  destruct (decide (k x = n)) as [Hx|Hx].
  - rewrite last_cons. destruct (last (filter _ l)); [done|].
    by rewrite decide_True.
  - destruct (last (filter _ l)); [done|]. by rewrite decide_False.
Qed.

Lemma default_ui_order_lookup house n :
  od_get (device_order_in_room (default_ui_order house)) n
  = device_names_in_room
    <$> last (filter (λ r, room_name r = n) (rooms house)).
Proof.
  unfold default_ui_order. simpl.
  rewrite (od_get_foldl_set room_name device_names_in_room).
  by destruct (last _).
Qed.

Lemma filter_none {X} (P : X → Prop) `{∀ x, Decision (P x)} (l : list X) :
  (∀ x, x ∈ l → ¬ P x) → filter P l = [].
Proof.
  induction l as [|x l IH]; intros Hn; [done|].
  rewrite filter_cons_False by (apply Hn; left).
  apply IH. intros y Hy. apply Hn. by right.
Qed.

Lemma last_filter_NoDup_fmap {X} (k : X → string) (l : list X) (x : X) :
  NoDup (k <$> l) → x ∈ l →
  last (filter (λ y, k y = k x) l) = Some x.
Proof.
  induction l as [|y l IH]; simpl.
  - by intros _ ?%elem_of_nil.
  - intros [Hy Hnd]%NoDup_cons Hin. rewrite filter_cons.
    assert (∀ z, z ∈ l → k z ≠ k y) as Hfresh.
    { intros z Hz Heq. apply Hy. rewrite <- Heq.
      by apply list_elem_of_fmap_2. }
    apply elem_of_cons in Hin as [->|Hin].
    + rewrite decide_True by done.
      assert (filter (λ z, k z = k y) l = []) as ->; [|done].
      apply filter_none. intros z Hz. by apply Hfresh.
    + rewrite decide_False by (intros Heq; by apply (Hfresh x)).
      by apply IH.
Qed.

(** C6 (amended). The default ordering document is synthesized only when
    no ordering file exists: an existing file is left as it is. When it is
    written, [room_order] is the list of the room names in the order of
    the structure, and the entry of [device_order_in_room] for a room name
    is the group base names followed by the standalone device names, in
    the order of the structure, of the last room that carries this name;
    so every room has its own entry when no two rooms share a name. *)
Theorem default_ui_order_synthesis env bridge output_file_path fs house fs' :
  generate_hue_structure_json env bridge output_file_path fs
  = (Returned (Some house), fs') →
  let after_synthesis := create_default_ui_order house fs in
  let order := default_ui_order house in
  write_file output_file_path (StructureFile house) after_synthesis
  = Some fs'
  ∧ (is_Some (files fs !! UI_ORDER_FILE_PATH_DEFAULT) →
     after_synthesis = fs)
  ∧ (files fs !! UI_ORDER_FILE_PATH_DEFAULT = None →
     write_fails fs UI_ORDER_FILE_PATH_DEFAULT = false →
     files after_synthesis
     = <[UI_ORDER_FILE_PATH_DEFAULT := UiOrderFile order]> (files fs))
  ∧ room_order order = room_name <$> rooms house
  ∧ (∀ n, od_get (device_order_in_room order) n
          = device_names_in_room
            <$> last (filter (λ r, room_name r = n) (rooms house)))
  ∧ (NoDup (room_name <$> rooms house) →
     ∀ r, r ∈ rooms house →
          od_get (device_order_in_room order) (room_name r)
          = Some ((group_base_name <$> device_groups r)
                  ++ (device_name <$> standalone_devices r))).
Proof.
  intros (ds & ls & rs & _ & _ & _ & _ & Hw)%generate_Returned_Some.
  split_and!.
  - done.
  - intros Hex. apply create_default_ui_order_exists.
    unfold path_exists. by rewrite bool_decide_eq_true.
  - intros Habs Hok. unfold create_default_ui_order, path_exists, write_file.
    rewrite Habs, Hok. rewrite bool_decide_eq_false_2; [done|].
    by intros [? ?].
  - done.
  - apply default_ui_order_lookup.
  - intros Hnd r Hr. rewrite default_ui_order_lookup.
    by rewrite (last_filter_NoDup_fmap room_name _ r Hnd Hr).
Qed.

(** The run on the example of the specification, from an empty store. *)
Lemma example_run :
  generate_hue_structure_json example_env example_bridge DEFAULT_OUTPUT_FILE
    empty_fs
  = (Returned (Some example_house), example_fs).
Proof. vm_compute. reflexivity. Qed.

Lemma twin_run :
  generate_hue_structure_json example_env twin_bridge DEFAULT_OUTPUT_FILE
    empty_fs
  = (Returned (Some twin_house), twin_fs).
Proof. vm_compute. reflexivity. Qed.

Lemma default_ui_order_synthesis_witness :
  let after_synthesis := create_default_ui_order example_house empty_fs in
  let order := default_ui_order example_house in
  write_file DEFAULT_OUTPUT_FILE (StructureFile example_house) after_synthesis
  = Some example_fs
  ∧ (is_Some (files empty_fs !! UI_ORDER_FILE_PATH_DEFAULT) →
     after_synthesis = empty_fs)
  ∧ (files empty_fs !! UI_ORDER_FILE_PATH_DEFAULT = None →
     write_fails empty_fs UI_ORDER_FILE_PATH_DEFAULT = false →
     files after_synthesis
     = <[UI_ORDER_FILE_PATH_DEFAULT := UiOrderFile order]> (files empty_fs))
  ∧ room_order order = room_name <$> rooms example_house
  ∧ (∀ n, od_get (device_order_in_room order) n
          = device_names_in_room
            <$> last (filter (λ r, room_name r = n) (rooms example_house)))
  ∧ (NoDup (room_name <$> rooms example_house) →
     ∀ r, r ∈ rooms example_house →
          od_get (device_order_in_room order) (room_name r)
          = Some ((group_base_name <$> device_groups r)
                  ++ (device_name <$> standalone_devices r))).
Proof.
  exact (default_ui_order_synthesis example_env example_bridge
           DEFAULT_OUTPUT_FILE empty_fs example_house example_fs
           example_run).
Defined.

(** C6, as stated, fails for two rooms that share their name: the entry
    under that name lists the devices of the second room, not those of
    the first. *)
Lemma default_ui_order_shared_room_name :
  generate_hue_structure_json example_env twin_bridge DEFAULT_OUTPUT_FILE
    empty_fs
  = (Returned (Some twin_house), twin_fs)
  ∧ files twin_fs !! UI_ORDER_FILE_PATH_DEFAULT
    = Some (UiOrderFile (default_ui_order twin_house))
  ∧ twin_room_1 ∈ rooms twin_house
  ∧ od_get (device_order_in_room (default_ui_order twin_house))
           (room_name twin_room_1)
    = Some ["Lamp"]
  ∧ (group_base_name <$> device_groups twin_room_1)
    ++ (device_name <$> standalone_devices twin_room_1)
    = ["Desk"]
  ∧ od_get (device_order_in_room (default_ui_order twin_house))
           (room_name twin_room_1)
    ≠ Some ((group_base_name <$> device_groups twin_room_1)
            ++ (device_name <$> standalone_devices twin_room_1)).
Proof.
  split_and!.
  - apply twin_run.
  - vm_compute. reflexivity.
  - left.
  - reflexivity.
  - reflexivity.
  - discriminate.
Qed.

(** ** StructureBuilder: light services *)

Lemma make_light_service_brightness service_id owner_device_name service :
  brightness_only_when_on_and_dimmable
    (make_light_service service_id owner_device_name service).
Proof.
  unfold brightness_only_when_on_and_dimmable, make_light_service. simpl.
  destruct (default false (raw_light_on service)); simpl;
    [|by intros [? ?]].
  case_bool_decide; [done|]. by intros [? ?].
Qed.

Lemma index_light_service_brightness device_details_map m service :
  map_Forall (λ _ l, Forall brightness_only_when_on_and_dimmable l) m →
  map_Forall (λ _ l, Forall brightness_only_when_on_and_dimmable l)
             (index_light_service device_details_map m service).
Proof.
  intros Hm. unfold index_light_service.
  destruct (raw_light_owner_rid service) as [owner_id|]; [|done].
  destruct (raw_light_id service) as [service_id|]; [|done].
  destruct (_ && _); [|done].
  apply map_Forall_insert_2; [|done].
  apply Forall_app. split.
  - destruct (m !! owner_id) as [l|] eqn:Hl; simpl; [|constructor].
    by apply (map_Forall_lookup_1 _ _ _ _ Hm Hl).
  - constructor; [apply make_light_service_brightness|constructor].
Qed.

Lemma light_services_map_brightness device_details_map light_services_raw :
  map_Forall (λ _ l, Forall brightness_only_when_on_and_dimmable l)
    (light_services_map_of device_details_map light_services_raw).
Proof.
  unfold light_services_map_of.
  assert (map_Forall
            (λ (_ : string) l, Forall brightness_only_when_on_and_dimmable l)
            (∅ : gmap string (list light_service))) as Hm
    by apply map_Forall_empty.
  revert Hm. generalize (∅ : gmap string (list light_service)).
  induction light_services_raw as [|s l IH]; intros m Hm; simpl; [done|].
  apply IH. by apply index_light_service_brightness.
Qed.

(** ** StructureBuilder: the devices of a room *)

Lemma devices_by_normalized_name_bucketize device_details_map
    hue_device_to_light_services room :
  devices_by_normalized_name device_details_map hue_device_to_light_services
    room
  = bucketize (room_devices device_details_map hue_device_to_light_services
                 room).
Proof.
  unfold devices_by_normalized_name, bucketize, room_devices.
  generalize (@nil (string * list hue_device)).
  induction (room_hue_device_ids room) as [|oid ids IH]; intros d; [done|].
  cbn [foldl]. rewrite IH. cbn [omap list_omap].
  assert (add_room_device device_details_map hue_device_to_light_services
            d oid
          = match resolve_device device_details_map
                    hue_device_to_light_services oid with
            | Some e => od_set d e.1 (default [] (od_get d e.1) ++ [e.2])
            | None => d
            end) as ->.
  { unfold add_room_device, resolve_device.
    destruct oid as [i|]; simpl; [|done].
    by destruct (device_details_map !! i) as [detail|]. }
  by destruct (resolve_device _ _ oid).
Qed.

Section Buckets.
Implicit Types (entries : list (string * hue_device)).
Implicit Types (d : list (string * list hue_device)).

Lemma bucket_of_cons e entries n :
  bucket_of (e :: entries) n
  = if decide (e.1 = n) then e.2 :: bucket_of entries n
    else bucket_of entries n.
Proof. unfold bucket_of. rewrite filter_cons. by case_decide. Qed.

Lemma bucketize_get_from d entries n :
  od_get (foldl (λ d e, od_set d e.1 (default [] (od_get d e.1) ++ [e.2]))
                d entries) n
  = match od_get d n, bucket_of entries n with
    | None, [] => None
    | o, b => Some (default [] o ++ b)
    end.
Proof.
  revert d. induction entries as [|e entries IH]; intros d.
  - simpl. destruct (od_get d n); simpl; [by rewrite app_nil_r|done].
  - cbn [foldl]. rewrite IH, od_get_set, bucket_of_cons.
    destruct (decide (n = e.1)) as [->|Hne].
    + rewrite decide_True by done. simpl.
      rewrite <- app_assoc. simpl.
      by destruct (od_get d e.1), (bucket_of entries e.1).
    + rewrite decide_False by done. done.
Qed.

Lemma bucketize_get entries n :
  od_get (bucketize entries) n
  = match bucket_of entries n with
    | [] => None
    | b => Some b
    end.
Proof. unfold bucketize. by rewrite bucketize_get_from. Qed.

Lemma bucketize_NoDup entries : NoDup (od_keys (bucketize entries)).
Proof.
  unfold bucketize.
  assert (NoDup (od_keys (@nil (string * list hue_device)))) as Hd
    by constructor.
  revert Hd. generalize (@nil (string * list hue_device)).
  induction entries as [|e entries IH]; intros d Hd; simpl; [done|].
  apply IH. by apply od_set_NoDup.
Qed.

Lemma bucketize_elem_of entries n l :
  (n, l) ∈ bucketize entries → l = bucket_of entries n ∧ l ≠ [].
Proof.
  intros Hin.
  apply (od_get_elem_of_NoDup _ _ _ (bucketize_NoDup entries)) in Hin.
  rewrite bucketize_get in Hin.
  destruct (bucket_of entries n); [done|]. by injection Hin as <-.
Qed.

Lemma bucket_of_elem_of entries n x :
  x ∈ bucket_of entries n ↔ (n, x) ∈ entries.
Proof.
  unfold bucket_of. rewrite list_elem_of_fmap. split.
  - intros ([n' x'] & -> & [Hn Hin]%list_elem_of_filter).
    simpl in *. by subst.
  - intros Hin. exists (n, x). split; [done|].
    by apply list_elem_of_filter.
Qed.

(** The loop over the buckets, in closed form: the keys of the buckets are
    distinct, so every group is appended. *)
Lemma place_buckets_from groups standalone d :
  NoDup (od_keys groups ++ od_keys d) →
  foldl place_bucket (groups, standalone) d
  = (groups ++ omap group_of_bucket d,
     standalone ++ (d ≫= standalone_of_bucket)).
Proof.
  revert groups standalone.
  induction d as [|[n l] d IH]; intros groups standalone Hnd.
  - simpl. by rewrite !app_nil_r.
  - cbn [foldl place_bucket]. rewrite bind_cons.
    unfold od_keys in Hnd. cbn [fmap list_fmap fst] in Hnd.
    fold (@fmap list _ _ _ (@fst string (list hue_device)) d) in Hnd.
    assert (n ∉ od_keys groups) as Hfresh.
    { apply NoDup_app in Hnd as (_ & Hdisj & _).
      intros Hin. apply (Hdisj _ Hin). left. }
    assert (∀ g, NoDup (od_keys (groups ++ [(n, g)]) ++ od_keys d)) as Hnd'.
    { intros g. unfold od_keys. rewrite fmap_app, <- app_assoc. done. }
    assert (NoDup (od_keys groups ++ od_keys d)) as Hnd''.
    { apply NoDup_app in Hnd as (H1 & H2 & [_ H3]%NoDup_cons).
      apply NoDup_app. split_and!; [done| |done].
      intros x Hx Hx'. apply (H2 x Hx). by right. }
    cbn [omap list_omap]. unfold group_of_bucket at 1, standalone_of_bucket at 1.
    cbn [fst snd].
    case_bool_decide as Hlen.
    + rewrite od_set_fresh by done. rewrite IH by apply Hnd'.
      rewrite <- app_assoc. cbn [app].
      destruct l as [|? [|? ?]]; simpl in Hlen; [lia|lia|done].
    + destruct l as [|x [|? ?]]; [| |simpl in Hlen; lia].
      * by rewrite IH.
      * rewrite IH by done. by rewrite <- app_assoc.
Qed.

End Buckets.

Lemma build_room_Returned device_details_map hue_device_to_light_services
    room r :
  build_room device_details_map hue_device_to_light_services room
  = Returned r →
  let buckets :=
    bucketize (room_devices device_details_map hue_device_to_light_services
                 room) in
  raw_room_id room = Some (room_id r)
  ∧ device_groups r
    = sorted group_base_name (od_values (omap group_of_bucket buckets))
  ∧ standalone_devices r
    = sorted device_name (buckets ≫= standalone_of_bucket).
Proof.
  unfold build_room. destruct (raw_room_id room) as [i|]; [|done].
  rewrite devices_by_normalized_name_bucketize, place_buckets_from.
  - by intros [= <-].
  - apply bucketize_NoDup.
Qed.

(** Every device of a built room is one of the resolved children of the
    raw room. *)
Lemma build_room_devices device_details_map hue_device_to_light_services
    room r d :
  build_room device_details_map hue_device_to_light_services room
  = Returned r →
  d ∈ devices_of_room r →
  ∃ n, (n, d) ∈ room_devices device_details_map hue_device_to_light_services
                  room.
Proof.
  intros (_ & Hg & Hs)%build_room_Returned. unfold devices_of_room.
  rewrite Hg, Hs, elem_of_app, !list_elem_of_bind.
  intros [(g & Hd & Hgin)|Hd].
  - apply sorted_elem_of in Hgin. unfold od_values in Hgin.
    apply list_elem_of_fmap in Hgin as ([n' g'] & -> & Hgin).
    apply list_elem_of_omap in Hgin as ([n l] & Hb & Hgrp).
    unfold group_of_bucket in Hgrp. simpl in Hgrp.
    case_bool_decide; [|done]. injection Hgrp as <- <-. simpl in Hd.
    apply sorted_elem_of in Hd.
    apply bucketize_elem_of in Hb as [-> _].
    exists n. by apply bucket_of_elem_of.
  - apply sorted_elem_of, list_elem_of_bind in Hd as ([n l] & Hd & Hb).
    unfold standalone_of_bucket in Hd. simpl in Hd.
    apply bucketize_elem_of in Hb as [-> _].
    exists n. apply bucket_of_elem_of.
    destruct (bucket_of _ n) as [|x [|? ?]];
      [by apply elem_of_nil in Hd|done|by apply elem_of_nil in Hd].
Qed.

Lemma room_devices_services device_details_map hue_device_to_light_services
    room n d :
  map_Forall (λ _ l, Forall brightness_only_when_on_and_dimmable l)
             hue_device_to_light_services →
  (n, d) ∈ room_devices device_details_map hue_device_to_light_services
             room →
  Forall brightness_only_when_on_and_dimmable (light_services d).
Proof.
  intros Hm (oid & _ & Hres)%list_elem_of_omap.
  unfold resolve_device in Hres.
  destruct oid as [i|]; simpl in Hres; [|done].
  destruct (device_details_map !! i) as [detail|]; simpl in Hres; [|done].
  injection Hres as <- <-. simpl.
  destruct (hue_device_to_light_services !! i) as [l|] eqn:Hl; simpl.
  - by apply (map_Forall_lookup_1 _ _ _ _ Hm Hl).
  - constructor.
Qed.

(** Every room of a built structure is the image of a raw room. *)
Lemma build_structure_room bridge_ip devices_raw light_services_raw
    rooms_raw house r :
  build_structure bridge_ip devices_raw light_services_raw rooms_raw
  = Returned house →
  r ∈ rooms house →
  ∃ device_details_map raw,
    device_details_map_of devices_raw = Returned device_details_map
    ∧ raw ∈ rooms_raw
    ∧ build_room device_details_map
        (light_services_map_of device_details_map light_services_raw) raw
      = Returned r.
Proof.
  intros (dmap & built & Hd & Hrooms & ->)%build_structure_Returned Hr.
  apply sorted_elem_of in Hr.
  apply list_elem_of_lookup in Hr as [i Hi].
  destruct (Forall2_lookup_r _ _ _ _ _ Hrooms Hi) as (raw & Hraw & Hb).
  exists dmap, raw. split_and!; [done| |done].
  by apply list_elem_of_lookup_2 in Hraw.
Qed.

(** C5. In the structure a build returns, the brightness of a light
    service is present only when the service is on and supports dimming;
    a service that is off, or that cannot be dimmed, has none. *)
Theorem current_brightness_only_when_on_and_dimmable env bridge
    output_file_path fs house fs' :
  generate_hue_structure_json env bridge output_file_path fs
  = (Returned (Some house), fs') →
  ∀ s, s ∈ all_light_services house →
       (is_Some (current_brightness s) →
        is_on s = true ∧ supports_dimming s = true)
       ∧ (is_on s = false ∨ supports_dimming s = false →
          current_brightness s = None).
Proof.
  intros (ds & ls & rs & _ & _ & _ & Hb & _)%generate_Returned_Some s Hs.
  assert (brightness_only_when_on_and_dimmable s) as HP.
  { unfold all_light_services in Hs.
    apply list_elem_of_bind in Hs as (r & Hs & Hr).
    apply list_elem_of_bind in Hs as (d & Hs & Hd).
    destruct (build_structure_room _ _ _ _ _ _ Hb Hr)
      as (dmap & raw & _ & _ & Hroom).
    destruct (build_room_devices _ _ _ _ _ Hroom Hd) as [n Hn].
    pose proof (room_devices_services _ _ _ _ _
                  (light_services_map_brightness dmap ls) Hn) as Hall.
    rewrite Forall_forall in Hall. by apply Hall. }
  split; [exact HP|].
  intros Hoff. destruct (current_brightness s) as [b|] eqn:Hb'; [|done].
  destruct HP as [Hon Hdim]; [by eexists|].
  destruct Hoff; congruence.
Qed.

Lemma current_brightness_only_when_on_and_dimmable_witness :
  Forall (λ s, (is_Some (current_brightness s) →
                is_on s = true ∧ supports_dimming s = true)
               ∧ (is_on s = false ∨ supports_dimming s = false →
                  current_brightness s = None))
         (all_light_services example_house).
Proof.
  apply Forall_forall.
  exact (current_brightness_only_when_on_and_dimmable example_env
           example_bridge DEFAULT_OUTPUT_FILE empty_fs example_house
           example_fs example_run).
Defined.

Example example_brightness :
  (λ s, (service_id s, current_brightness s))
  <$> all_light_services example_house
  = [("s1", Some 80%Q); ("s2", None)].
Proof. reflexivity. Qed.

(** ** StructureBuilder: groups and standalone devices *)

Lemma index_device_normalized m dev m' :
  map_Forall (λ _ detail, normalized_name detail
                          = _normalize_device_name (detail_name detail)) m →
  index_device m dev = Returned m' →
  map_Forall (λ _ detail, normalized_name detail
                          = _normalize_device_name (detail_name detail)) m'.
Proof.
  intros Hm. unfold index_device.
  destruct (raw_device_id dev) as [i|]; [|done].
  destruct (truthy_str (Some i)); intros [= <-]; [|done].
  by apply map_Forall_insert_2.
Qed.

Lemma device_details_map_normalized devices_raw device_details_map :
  device_details_map_of devices_raw = Returned device_details_map →
  map_Forall (λ _ detail, normalized_name detail
                          = _normalize_device_name (detail_name detail))
             device_details_map.
Proof.
  unfold device_details_map_of.
  assert (map_Forall (λ (_ : string) detail,
                        normalized_name detail
                        = _normalize_device_name (detail_name detail))
                     (∅ : gmap string device_detail)) as Hm
    by apply map_Forall_empty.
  revert Hm. generalize (∅ : gmap string device_detail).
  induction devices_raw as [|dev l IH]; intros m Hm; simpl.
  - by intros [= <-].
  - destruct (index_device m dev) as [m'|e] eqn:Hdev; [|done].
    apply IH. by eapply index_device_normalized.
Qed.

Lemma room_devices_normalized device_details_map
    hue_device_to_light_services room n d :
  map_Forall (λ _ detail, normalized_name detail
                          = _normalize_device_name (detail_name detail))
             device_details_map →
  (n, d) ∈ room_devices device_details_map hue_device_to_light_services
             room →
  n = _normalize_device_name (device_name d).
Proof.
  intros Hm (oid & _ & Hres)%list_elem_of_omap.
  unfold resolve_device in Hres.
  destruct oid as [i|]; simpl in Hres; [|done].
  destruct (device_details_map !! i) as [detail|] eqn:Hi; simpl in Hres;
    [|done].
  injection Hres as <- <-. simpl.
  by apply (map_Forall_lookup_1 _ _ _ _ Hm Hi).
Qed.

(** With each device filed under the normalised form of its name, the
    bucket of a name is made of the devices that normalise to it. *)
Lemma bucket_of_normalized (entries : list (string * hue_device)) n :
  (∀ n' d, (n', d) ∈ entries → n' = _normalize_device_name (device_name d)) →
  bucket_of entries n
  = filter (λ d, _normalize_device_name (device_name d) = n) entries.*2.
Proof.
  unfold bucket_of. induction entries as [|[n' d] entries IH]; intros Hn;
    [done|].
  cbn [fmap list_fmap snd]. rewrite !filter_cons. cbn [fst snd].
  rewrite <- (Hn n' d) by left.
  fold (@fmap list _ _ _ (@snd string hue_device) entries).
  rewrite <- IH by (intros ? ? ?; apply Hn; by right).
  by case_decide.
Qed.

Lemma od_filter_key {V} (d : list (string * V)) n :
  NoDup (od_keys d) →
  filter (λ kv, kv.1 = n) d
  = match od_get d n with
    | Some v => [(n, v)]
    | None => []
    end.
Proof.
  unfold od_keys. induction d as [|[k v] d IH]; [done|].
  cbn [fmap list_fmap fst]. intros [Hk Hnd]%NoDup_cons.
  rewrite filter_cons. cbn [fst od_get].
  destruct (decide (k = n)) as [->|Hne].
  - rewrite decide_True by done. f_equal.
    apply filter_none. intros [k' v'] Hin Heq. simpl in Heq. subst k'.
    apply Hk. by apply (list_elem_of_fmap_2 fst) in Hin.
  - rewrite decide_False by done. by apply IH.
Qed.

Lemma omap_cons_match {X Y} (f : X → option Y) x l :
  omap f (x :: l)
  = match f x with
    | Some y => y :: omap f l
    | None => omap f l
    end.
Proof. done. Qed.

Lemma group_of_bucket_Some b kg :
  group_of_bucket b = Some kg → group_base_name kg.2 = b.1.
Proof.
  unfold group_of_bucket. case_bool_decide; [|done]. by intros [= <-].
Qed.

Lemma groups_filter (d : list (string * list hue_device)) n :
  filter (λ g, group_base_name g = n) (od_values (omap group_of_bucket d))
  = od_values (omap group_of_bucket (filter (λ kv, kv.1 = n) d)).
Proof.
  unfold od_values. induction d as [|b d IH]; [done|].
  rewrite filter_cons, omap_cons_match.
  destruct (decide (b.1 = n)) as [Hb|Hb].
  - rewrite omap_cons_match.
    destruct (group_of_bucket b) as [kg|] eqn:Hgrp; [|done].
    rewrite !fmap_cons, filter_cons_True, IH; [done|].
    by rewrite (group_of_bucket_Some _ _ Hgrp).
  - destruct (group_of_bucket b) as [kg|] eqn:Hgrp; [|done].
    rewrite fmap_cons, filter_cons_False; [done|].
    by rewrite (group_of_bucket_Some _ _ Hgrp).
Qed.

Lemma standalone_filter (d : list (string * list hue_device)) n :
  (∀ k l x, (k, l) ∈ d → x ∈ l →
            _normalize_device_name (device_name x) = k) →
  filter (λ x, _normalize_device_name (device_name x) = n)
         (d ≫= standalone_of_bucket)
  = filter (λ kv, kv.1 = n) d ≫= standalone_of_bucket.
Proof.
  induction d as [|[k l] d IH]; intros Hk; [done|].
  rewrite bind_cons, filter_app, filter_cons, IH
    by (intros ? ? ? ? ?; eapply Hk; [by right|done]).
  assert (filter (λ x, _normalize_device_name (device_name x) = n)
                 (standalone_of_bucket (k, l))
          = if decide (k = n) then standalone_of_bucket (k, l) else [])
    as ->.
  { unfold standalone_of_bucket. cbn [snd].
    destruct l as [|x [|? ?]]; [by case_decide| |by case_decide].
    rewrite filter_cons, (Hk k [x] x) by left. by case_decide. }
  cbn [fst]. case_decide; [by rewrite bind_cons|done].
Qed.

(** The groups and the standalone devices of a built room, bucket by
    bucket. *)
Lemma build_room_buckets device_details_map hue_device_to_light_services
    room r n :
  map_Forall (λ _ detail, normalized_name detail
                          = _normalize_device_name (detail_name detail))
             device_details_map →
  build_room device_details_map hue_device_to_light_services room
  = Returned r →
  let bucket :=
    filter (λ d, _normalize_device_name (device_name d) = n)
           (room_devices device_details_map hue_device_to_light_services
              room).*2 in
  filter (λ g, group_base_name g = n) (device_groups r)
  = (if bool_decide (2 ≤ length bucket)%nat
     then [{| group_base_name := n;
              hue_devices := sorted device_name bucket |}]
     else [])
  ∧ filter (λ d, _normalize_device_name (device_name d) = n)
           (standalone_devices r)
    = (if bool_decide (length bucket = 1) then bucket else []).
Proof.
  intros Hm (_ & Hg & Hs)%build_room_Returned.
  set (entries := room_devices device_details_map
                    hue_device_to_light_services room) in *.
  assert (∀ n' d, (n', d) ∈ entries →
                  n' = _normalize_device_name (device_name d)) as Hnorm
    by (intros n' d; by apply room_devices_normalized).
  cbn zeta. rewrite <- (bucket_of_normalized entries n Hnorm).
  pose proof (od_filter_key (bucketize entries) n (bucketize_NoDup entries))
    as Hf.
  rewrite bucketize_get in Hf.
  split.
  - rewrite Hg, (sorted_stable group_base_name), groups_filter, Hf.
    destruct (bucket_of entries n) as [|x [|y l]] eqn:Hb; [done|done|].
    cbn [omap list_omap]. unfold group_of_bucket. cbn [fst snd].
    rewrite !bool_decide_eq_true_2 by (simpl; lia). done.
  - rewrite Hs.
    pose proof (sorted_filter_key device_name
                  (λ k, _normalize_device_name k = n)
                  (bucketize entries ≫= standalone_of_bucket)) as Hsort.
    cbn beta in Hsort. rewrite Hsort, standalone_filter, Hf.
    + by destruct (bucket_of entries n) as [|x [|y l]] eqn:Hb.
    + intros k l x [-> _]%bucketize_elem_of Hx%bucket_of_elem_of.
      symmetry. by apply Hnorm.
Qed.

(** C4. In every room of a built structure the devices are bucketed by
    normalised name: the devices of the raw room that share a normalised
    name form a device group, with its members sorted by device name, when
    they are two or more; a single device is a standalone device and no
    group carries its normalised name. *)
Theorem rooms_bucketed_by_normalized_name env bridge output_file_path fs
    house fs' :
  generate_hue_structure_json env bridge output_file_path fs
  = (Returned (Some house), fs') →
  ∃ devices_raw light_services_raw rooms_raw device_details_map,
    fetched_devices bridge = Some devices_raw
    ∧ fetched_lights bridge = Some light_services_raw
    ∧ fetched_rooms bridge = Some rooms_raw
    ∧ device_details_map_of devices_raw = Returned device_details_map
    ∧ ∀ r, r ∈ rooms house →
        ∃ raw, raw ∈ rooms_raw
          ∧ raw_room_id raw = Some (room_id r)
          ∧ ∀ n,
              let bucket :=
                filter (λ d, _normalize_device_name (device_name d) = n)
                  (room_devices device_details_map
                     (light_services_map_of device_details_map
                        light_services_raw) raw).*2 in
              filter (λ g, group_base_name g = n) (device_groups r)
              = (if bool_decide (2 ≤ length bucket)%nat
                 then [{| group_base_name := n;
                          hue_devices := sorted device_name bucket |}]
                 else [])
              ∧ filter (λ d, _normalize_device_name (device_name d) = n)
                       (standalone_devices r)
                = (if bool_decide (length bucket = 1) then bucket else []).
Proof.
  intros (ds & ls & rs & Hds & Hls & Hrs & Hb & _)%generate_Returned_Some.
  pose proof Hb as (dmap & built & Hd & _ & _)%build_structure_Returned.
  exists ds, ls, rs, dmap. split_and!; [done..|].
  intros r Hr.
  destruct (build_structure_room _ _ _ _ _ _ Hb Hr)
    as (dmap' & raw & Hd' & Hraw & Hroom).
  assert (dmap' = dmap) as -> by congruence.
  exists raw. split_and!; [done| |].
  - by apply build_room_Returned in Hroom as (? & _).
  - intros n. apply build_room_buckets; [|done].
    by eapply device_details_map_normalized.
Qed.

Lemma rooms_bucketed_by_normalized_name_witness :
  ∃ devices_raw light_services_raw rooms_raw device_details_map,
    fetched_devices example_bridge = Some devices_raw
    ∧ fetched_lights example_bridge = Some light_services_raw
    ∧ fetched_rooms example_bridge = Some rooms_raw
    ∧ device_details_map_of devices_raw = Returned device_details_map
    ∧ ∀ r, r ∈ rooms example_house →
        ∃ raw, raw ∈ rooms_raw
          ∧ raw_room_id raw = Some (room_id r)
          ∧ ∀ n,
              let bucket :=
                filter (λ d, _normalize_device_name (device_name d) = n)
                  (room_devices device_details_map
                     (light_services_map_of device_details_map
                        light_services_raw) raw).*2 in
              filter (λ g, group_base_name g = n) (device_groups r)
              = (if bool_decide (2 ≤ length bucket)%nat
                 then [{| group_base_name := n;
                          hue_devices := sorted device_name bucket |}]
                 else [])
              ∧ filter (λ d, _normalize_device_name (device_name d) = n)
                       (standalone_devices r)
                = (if bool_decide (length bucket = 1) then bucket else []).
Proof.
  exact (rooms_bucketed_by_normalized_name example_env example_bridge
           DEFAULT_OUTPUT_FILE empty_fs example_house example_fs
           example_run).
Defined.

(** The examples of the specification: "Lamp 1", "Lamp 2" and "Desk" give
    one group "Lamp" of two members and the standalone device "Desk"; a
    single "Lamp 1" stays a standalone device. *)
Example example_room_groups :
  (λ r, ((λ g, (group_base_name g, device_name <$> hue_devices g))
         <$> device_groups r,
         device_name <$> standalone_devices r))
  <$> rooms example_house
  = [([("Lamp", ["Lamp 1"; "Lamp 2"])], ["Desk"])].
Proof. reflexivity. Qed.

Example single_run :
  build_structure (BRIDGE_IP example_env)
    (default [] (fetched_devices single_bridge))
    (default [] (fetched_lights single_bridge))
    (default [] (fetched_rooms single_bridge))
  = Returned single_house.
Proof. vm_compute. reflexivity. Qed.

(** Step 5: the rooms, the groups of a room and its standalone devices
    are in ascending order of their names. *)
Lemma build_structure_sorted bridge_ip devices_raw light_services_raw
    rooms_raw house :
  build_structure bridge_ip devices_raw light_services_raw rooms_raw
  = Returned house →
  StronglySorted (key_le room_name) (rooms house)
  ∧ ∀ r, r ∈ rooms house →
         StronglySorted (key_le group_base_name) (device_groups r)
         ∧ StronglySorted (key_le device_name) (standalone_devices r).
Proof.
  intros Hb. split.
  - apply build_structure_Returned in Hb as (_ & built & _ & _ & ->).
    apply sorted_StronglySorted.
  - intros r Hr.
    destruct (build_structure_room _ _ _ _ _ _ Hb Hr)
      as (dmap & raw & _ & _ & Hroom).
    apply build_room_Returned in Hroom as (_ & -> & ->).
    split; apply sorted_StronglySorted.
Qed.

(** ** Light commands *)

Section LightCommandFacts.
Context {Bridge : Type}.
Context (bridge_put : Bridge → string → light_payload → put_response * Bridge).

Lemma send_light_payload_valid service_id payload action_description
    (st : app_state Bridge) :
  let '(response, b) := bridge_put (bridge_state st) service_id payload in
  let put := {| put_service_id := service_id;
                put_payload := payload;
                put_response_of := response |} in
  let '(ok, st') :=
    send_light_payload bridge_put true service_id payload action_description
      st in
  ok = put_succeeded put
  ∧ put_log st' = put_log st ++ [put]
  ∧ bridge_state st' = b
  ∧ data_dirty st' = data_dirty st.
Proof.
  unfold send_light_payload. simpl.
  destruct (bridge_put (bridge_state st) service_id payload) as [response b].
  destruct response; simpl; done.
Qed.

Lemma bridge_run_ids b ids payload :
  put_service_id <$> (bridge_run bridge_put b ids payload).1 = ids.
Proof.
  revert b. induction ids as [|i ids IH]; intros b; simpl; [done|].
  destruct (bridge_put b i payload) as [response b'].
  specialize (IH b').
  destruct (bridge_run bridge_put b' ids payload) as [puts b''].
  cbn [fst] in *. rewrite fmap_cons. cbn [put_service_id]. by rewrite IH.
Qed.

Lemma bridge_run_payload b ids payload :
  Forall (λ p, put_payload p = payload)
         (bridge_run bridge_put b ids payload).1.
Proof.
  revert b. induction ids as [|i ids IH]; intros b; simpl; [constructor|].
  destruct (bridge_put b i payload) as [response b'].
  specialize (IH b').
  destruct (bridge_run bridge_put b' ids payload) as [puts b''].
  cbn [fst] in *. by constructor.
Qed.

(** The loop sends one PUT per id, whatever the earlier ones returned, and
    counts the successes. *)
Lemma on_off_loop payload action_description my_bar total ids k c
    (st : app_state Bridge) :
  let '(c', st') :=
    foldl (on_off_step bridge_put true payload action_description my_bar
             total)
          (c, st) (zip (seq k (length ids)) ids) in
  let '(puts, b') := bridge_run bridge_put (bridge_state st) ids payload in
  c' = c + succeeded_count puts
  ∧ put_log st' = put_log st ++ puts
  ∧ bridge_state st' = b'
  ∧ data_dirty st' = data_dirty st.
Proof.
  revert k c st. induction ids as [|i ids IH]; intros k c st.
  - simpl. split_and!; [unfold succeeded_count; simpl; lia| |done|done].
    by rewrite app_nil_r.
  - cbn [length seq zip zip_with foldl bridge_run on_off_step].
    pose proof (send_light_payload_valid i payload action_description st)
      as Hsend.
    destruct (bridge_put (bridge_state st) i payload) as [response b].
    destruct (send_light_payload _ _ i payload action_description st)
      as [ok st1].
    destruct Hsend as (Hok & Hlog & Hb & Hdirty).
    set (st2 := if my_bar then ui_emit (UiProgress (k + 1) total) st1
                else st1).
    assert (put_log st2 = put_log st1 ∧ bridge_state st2 = bridge_state st1
            ∧ data_dirty st2 = data_dirty st1) as (Hlog2 & Hb2 & Hdirty2)
      by (unfold st2; by destruct my_bar).
    specialize (IH (S k) (if ok then S c else c) st2).
    destruct (foldl _ _ (zip (seq (S k) (length ids)) ids)) as [c' st'].
    rewrite Hb2, Hb in IH.
    destruct (bridge_run bridge_put b ids payload) as [puts b''].
    destruct IH as (Hc & Hlog' & Hb' & Hdirty').
    split_and!.
    + rewrite Hc. unfold succeeded_count. rewrite filter_cons.
      rewrite Hok. case_decide as Hs.
      * rewrite Hs. simpl. lia.
      * apply not_true_is_false in Hs. rewrite Hs. simpl. lia.
    + rewrite Hlog', Hlog2, Hlog, <- app_assoc. done.
    + done.
    + congruence.
Qed.

Lemma succeeded_count_le puts : (succeeded_count puts ≤ length puts)%nat.
Proof. apply length_filter. Qed.

(** C9. For every non-empty list of light service ids and whatever the
    bridge answers to each command, the bulk on/off action sends a PUT for
    every id, in the order of the list, without stopping at a failure, and
    then reports the tally: the number of PUTs that succeeded, out of the
    number of lights. (The controls are only shown when the configuration
    is valid.) *)
Theorem set_lights_on_off_tally (service_ids : list string) (turn_on : bool)
    (st : app_state Bridge) :
  service_ids ≠ [] →
  let st' := set_lights_on_off bridge_put true service_ids turn_on st in
  let '(puts, b') :=
    bridge_run bridge_put (bridge_state st) service_ids
               (PayloadOn turn_on) in
  put_log st' = put_log st ++ puts
  ∧ put_service_id <$> puts = service_ids
  ∧ Forall (λ p, put_payload p = PayloadOn turn_on) puts
  ∧ bridge_state st' = b'
  ∧ last (ui_log st')
    = Some (tally_message turn_on (succeeded_count puts)
                          (length service_ids))
  ∧ data_dirty st' = true.
Proof.
  intros Hne. cbn zeta.
  pose proof (bridge_run_ids (bridge_state st) service_ids
                (PayloadOn turn_on)) as Hids.
  pose proof (bridge_run_payload (bridge_state st) service_ids
                (PayloadOn turn_on)) as Hpay.
  unfold set_lights_on_off.
  destruct service_ids as [|i ids] eqn:Hs; [done|]. rewrite <- Hs in *.
  set (total := length service_ids).
  set (my_bar := bool_decide (1 < total)).
  set (st0 := if my_bar then ui_emit (UiProgress 0 total) st else st).
  assert (put_log st0 = put_log st ∧ bridge_state st0 = bridge_state st)
    as (Hlog0 & Hb0) by (unfold st0; by destruct my_bar).
  pose proof (on_off_loop (PayloadOn turn_on)
                ("turn " +:+ (if turn_on then "ON" else "OFF"))
                my_bar total service_ids 0 0 st0) as Hloop.
  fold total in Hloop.
  destruct (foldl _ _ (zip (seq 0 total) service_ids)) as [c st1].
  rewrite Hb0 in Hloop.
  destruct (bridge_run bridge_put (bridge_state st) service_ids
              (PayloadOn turn_on)) as [puts b'].
  destruct Hloop as (Hc & Hlog & Hb & _). simpl in Hc, Hids, Hpay.
  assert ((0 <? total)%nat = true) as Hpos.
  { apply Nat.ltb_lt. unfold total. rewrite Hs. simpl. lia. }
  rewrite Hpos, andb_true_r.
  set (st2 := if my_bar then ui_emit UiProgressEmpty st1 else st1).
  assert (put_log st2 = put_log st1 ∧ bridge_state st2 = bridge_state st1)
    as (Hlog2 & Hb2) by (unfold st2; by destruct my_bar).
  unfold tally_message. fold total. rewrite <- Hc.
  destruct (c =? total)%nat; simpl;
    rewrite last_snoc; split_and!; try done; congruence.
Qed.

End LightCommandFacts.

(** Three lights, the second of which cannot be reached: all three PUTs
    are sent and the tally is two of three. *)
Example set_lights_on_off_example :
  let st' := set_lights_on_off example_bridge_put true ["s1"; "s2"; "s3"]
               true example_app_state in
  put_service_id <$> put_log st' = ["s1"; "s2"; "s3"]
  ∧ put_succeeded <$> put_log st' = [true; false; true]
  ∧ last (ui_log st')
    = Some (UiWarning "Attempted to set 3 light(s) on. 2 succeeded.")
  ∧ data_dirty st' = true.
Proof. vm_compute. done. Qed.

(** With an invalid configuration [send_light_payload] gives up before the
    request: nothing is sent and no command succeeds. *)
Example set_lights_on_off_invalid_config :
  let st' := set_lights_on_off example_bridge_put false ["s1"; "s2"; "s3"]
               true example_app_state in
  put_log st' = []
  ∧ last (ui_log st')
    = Some (UiWarning "Attempted to set 3 light(s) on. 0 succeeded.").
Proof. vm_compute. done. Qed.

Lemma set_lights_on_off_tally_witness :
  ["s1"; "s2"; "s3"] ≠ []
  ∧ let st' := set_lights_on_off example_bridge_put true ["s1"; "s2"; "s3"]
                 true example_app_state in
    let '(puts, b') :=
      bridge_run example_bridge_put (bridge_state example_app_state)
                 ["s1"; "s2"; "s3"] (PayloadOn true) in
    put_log st' = put_log example_app_state ++ puts
    ∧ put_service_id <$> puts = ["s1"; "s2"; "s3"]
    ∧ Forall (λ p, put_payload p = PayloadOn true) puts
    ∧ bridge_state st' = b'
    ∧ last (ui_log st')
      = Some (tally_message true (succeeded_count puts)
                            (length ["s1"; "s2"; "s3"]))
    ∧ data_dirty st' = true.
Proof.
  assert (["s1"; "s2"; "s3"] ≠ []) as Hne by discriminate.
  split; [exact Hne|].
  exact (set_lights_on_off_tally example_bridge_put ["s1"; "s2"; "s3"] true
           example_app_state Hne).
Defined.

(** * Part III: further properties of the program *)

(** ** OrderResolver: what the output is made of *)

Section ODictMore.
Context {K V : Type} `{EqDecision K}.
Implicit Types (d : list (K * V)) (k : K) (v : V).

Lemma od_set_elem_of d k v e : e ∈ od_set d k v → e = (k, v) ∨ e ∈ d.
Proof.
  induction d as [|[k' v'] d IH]; simpl.
  - intros ->%list_elem_of_singleton. by left.
  - case_decide.
    + intros [->|He]%elem_of_cons; [by left|right; by right].
    + intros [->|He]%elem_of_cons; [right; left|].
      destruct (IH He) as [->|Hd]; [by left|right; by right].
Qed.

Lemma od_del_elem_of d k e : e ∈ od_del d k → e ∈ d.
Proof.
  induction d as [|[k' v'] d IH]; simpl; [done|].
  case_decide.
  - intros He. by right.
  - intros [->|He]%elem_of_cons; [left|right; by apply IH].
Qed.

Lemma od_del_absent d k : od_get d k = None → od_del d k = d.
Proof.
  induction d as [|[k0 v0] d IH]; simpl; [done|].
  case_decide; [done|]. intros Hg. by rewrite IH.
Qed.

Lemma od_del_filter d k :
  NoDup (od_keys d) → od_del d k = filter (λ kv, kv.1 ≠ k) d.
Proof.
  unfold od_keys. induction d as [|[k0 v0] d IH]; [done|].
  cbn [fmap list_fmap fst]. intros [Hk Hnd]%NoDup_cons.
  cbn [od_del]. rewrite filter_cons. cbn [fst].
  destruct (decide (k = k0)) as [->|Hne].
  - rewrite decide_False by (intros Hn; by apply Hn).
    symmetry. clear IH Hnd. induction d as [|[k1 v1] d IH]; [done|].
    rewrite filter_cons. cbn [fst].
    apply not_elem_of_cons in Hk as [Hne Hk].
    rewrite decide_True by done. f_equal. by apply IH.
  - rewrite decide_True by done. f_equal. by apply IH.
Qed.

Lemma od_keys_elem_of d k : k ∈ od_keys d ↔ ∃ v, (k, v) ∈ d.
Proof.
  unfold od_keys. rewrite list_elem_of_fmap. split.
  - intros ([k' v] & -> & Hin). by exists v.
  - intros [v Hin]. by exists (k, v).
Qed.

Lemma od_keys_del_ne d k k' :
  k ≠ k' → k' ∈ od_keys d → k' ∈ od_keys (od_del d k).
Proof.
  intros Hne Hin. apply dec_stable. intros Hnin.
  apply od_get_None in Hnin. rewrite od_get_del_ne in Hnin by done.
  by apply od_get_None in Hnin.
Qed.

End ODictMore.

Section OrderResolverMore.
Context {A : Type} (name_of : A → option string).

Lemma items_map_get items k :
  od_get (items_map name_of items) k
  = last (filter (λ x, name_of x = k) items).
Proof.
  unfold items_map.
  rewrite (od_get_foldl_set name_of (λ x, x) [] items k).
  by destruct (last _).
Qed.

Lemma items_map_entries_from (d : list (option string * A))
    (items all : list A) k x :
  (∀ e, e ∈ d → e.2 ∈ all ∧ name_of e.2 = e.1) →
  (∀ z, z ∈ items → z ∈ all) →
  (k, x) ∈ foldl (λ d item, od_set d (name_of item) item) d items →
  x ∈ all ∧ name_of x = k.
Proof.
  revert d. induction items as [|y items IH]; intros d Hd Hsub; simpl.
  - intros Hin. by apply (Hd (k, x)).
  - apply IH.
    + intros e [->|He]%od_set_elem_of; [|by apply Hd].
      split; [apply Hsub; left|done].
    + intros z Hz. apply Hsub. by right.
Qed.

Lemma items_map_entries items k x :
  (k, x) ∈ items_map name_of items → x ∈ items ∧ name_of x = k.
Proof.
  apply items_map_entries_from; [|done]. by intros ? ?%elem_of_nil.
Qed.

Lemma items_map_NoDup items : NoDup (od_keys (items_map name_of items)).
Proof.
  unfold items_map.
  assert (NoDup (od_keys (@nil (option string * A)))) as Hd by constructor.
  revert Hd. generalize (@nil (option string * A)).
  induction items as [|y items IH]; intros d Hd; simpl; [done|].
  apply IH. by apply od_set_NoDup.
Qed.

(** The loop over the preferred names, in closed form. *)
Lemma place_preferred_final (m : list (option string * A)) names final rem :
  (foldl (place_preferred m) (final, rem) names).1
  = final ++ omap (λ n, od_get m (Some n)) names.
Proof.
  revert final rem. induction names as [|n names IH]; intros final rem.
  - simpl. by rewrite app_nil_r.
  - cbn [foldl place_preferred]. rewrite omap_cons_match.
    destruct (od_get m (Some n)) as [item|]; [|apply IH].
    rewrite IH, <- app_assoc. done.
Qed.

Lemma place_preferred_remaining_sub (m : list (option string * A)) names
    final rem e :
  e ∈ (foldl (place_preferred m) (final, rem) names).2 → e ∈ rem.
Proof.
  revert final rem. induction names as [|n names IH]; intros final rem;
    [done|].
  cbn [foldl place_preferred].
  destruct (od_get m (Some n)) as [item|]; [|apply IH].
  intros He%IH. destruct (od_mem rem (Some n)); [|done].
  by eapply od_del_elem_of.
Qed.

Lemma place_preferred_remaining (m : list (option string * A)) names
    final rem :
  NoDup (od_keys rem) →
  (∀ n, od_get m (Some n) = None → od_get rem (Some n) = None) →
  (foldl (place_preferred m) (final, rem) names).2
  = filter (λ kv, kv.1 ∉ (Some <$> names)) rem.
Proof.
  revert final rem. induction names as [|n names IH];
    intros final rem Hnd Hsub.
  - simpl. symmetry. induction rem as [|e rem IHrem]; [done|].
    rewrite filter_cons_True by apply not_elem_of_nil. f_equal.
    apply IHrem.
    + unfold od_keys in *. by apply NoDup_cons in Hnd as [_ ?].
    + intros n Hn. specialize (Hsub n Hn). destruct e as [k v].
      simpl in Hsub. by case_decide.
  - cbn [foldl place_preferred].
    assert ((if od_mem rem (Some n) then od_del rem (Some n) else rem)
            = od_del rem (Some n)) as Hdel.
    { unfold od_mem. case_bool_decide as Hmem; [done|].
      rewrite od_del_absent; [done|].
      by apply eq_None_not_Some. }
    assert (od_del rem (Some n) = filter (λ kv, kv.1 ≠ Some n) rem) as Hfil
      by by apply od_del_filter.
    assert (filter (λ kv : option string * A, kv.1 ∉ (Some <$> n :: names))
                   rem
            = filter (λ kv, kv.1 ∉ (Some <$> names))
                     (filter (λ kv, kv.1 ≠ Some n) rem)) as ->.
    { rewrite list_filter_filter. apply list_filter_iff. intros kv.
      rewrite fmap_cons, not_elem_of_cons. tauto. }
    destruct (od_get m (Some n)) as [item|] eqn:Hm.
    + rewrite Hdel, Hfil. apply IH.
      * rewrite <- Hfil. unfold od_keys. rewrite od_del_filter by done.
        apply NoDup_fmap_fst.
        -- intros k v1 v2 [_ H1]%list_elem_of_filter
             [_ H2]%list_elem_of_filter.
           apply (od_get_elem_of_NoDup _ _ _ Hnd) in H1, H2. congruence.
        -- apply NoDup_filter.
           eapply NoDup_fmap_1. exact Hnd.
      * intros n' Hn'. rewrite <- Hfil.
        destruct (decide (Some n = Some n')) as [[= ->]|Hne]; [congruence|].
        rewrite od_get_del_ne by done. by apply Hsub.
    + rewrite <- Hfil, od_del_absent by by apply Hsub. by apply IH.
Qed.

(** The output for items with pairwise distinct keys, in closed form. *)
Lemma get_ordered_items_closed_form (actual_items : list A)
    (preferred_order_names : list string) :
  NoDup (name_of <$> actual_items) →
  get_ordered_items name_of actual_items preferred_order_names
  = omap (item_named name_of actual_items) preferred_order_names
    ++ sorted (sort_name name_of)
         (filter (λ x, name_of x ∉ (Some <$> preferred_order_names))
                 actual_items).
Proof.
  intros Hnd. unfold get_ordered_items.
  destruct preferred_order_names as [|n names].
  - simpl. f_equal. symmetry.
    induction actual_items as [|x l IH]; [done|].
    rewrite filter_cons_True by apply not_elem_of_nil. f_equal.
    apply IH. by apply NoDup_cons in Hnd as [_ ?].
  - pose proof (place_preferred_final (items_map name_of actual_items)
                  (n :: names) [] (items_map name_of actual_items)) as Hf.
    pose proof (place_preferred_remaining (items_map name_of actual_items)
                  (n :: names) [] (items_map name_of actual_items)
                  (items_map_NoDup actual_items) (λ _ H, H)) as Hr.
    destruct (foldl _ _ (n :: names)) as [final rem].
    cbn [fst snd app] in Hf, Hr. subst final rem. f_equal.
    + generalize (n :: names). intros l.
      induction l as [|n' l IH]; [done|].
      rewrite !omap_cons_match, IH. unfold item_named.
      by rewrite items_map_get.
    + f_equal. rewrite items_map_distinct by done.
      unfold od_values. clear Hnd.
      generalize (Some <$> n :: names). intros ks.
      induction actual_items as [|x l IH]; [done|].
      rewrite fmap_cons, !filter_cons. cbn [fst].
      case_decide; [|done]. rewrite fmap_cons. cbn [snd]. by f_equal.
Qed.

(** X1. For items with pairwise distinct keys the output of the resolver
    is, for each preferred key in turn, the item that carries it (nothing
    for a key no item carries), followed by the items whose key is not
    preferred, in ascending order of their keys. *)
Theorem get_ordered_items_layout (actual_items : list A)
    (preferred_order_names : list string) :
  NoDup (name_of <$> actual_items) →
  get_ordered_items name_of actual_items preferred_order_names
  = omap (item_named name_of actual_items) preferred_order_names
    ++ sorted (sort_name name_of)
         (filter (λ x, name_of x ∉ (Some <$> preferred_order_names))
                 actual_items).
Proof. apply get_ordered_items_closed_form. Qed.

(** X2. Every item of the output is an item of the input: a preferred key
    that no item carries leaves no placeholder, whatever the keys. *)
Theorem get_ordered_items_from_input (actual_items : list A)
    (preferred_order_names : list string) (x : A) :
  x ∈ get_ordered_items name_of actual_items preferred_order_names →
  x ∈ actual_items.
Proof.
  unfold get_ordered_items.
  destruct preferred_order_names as [|n names].
  - by intros ?%sorted_elem_of.
  - pose proof (place_preferred_final (items_map name_of actual_items)
                  (n :: names) [] (items_map name_of actual_items)) as Hf.
    pose proof (place_preferred_remaining_sub
                  (items_map name_of actual_items) (n :: names) []
                  (items_map name_of actual_items)) as Hr.
    destruct (foldl _ _ (n :: names)) as [final rem].
    cbn [fst snd] in Hf, Hr. rewrite Hf. cbn [app].
    intros [Hx|Hx]%elem_of_app.
    + apply list_elem_of_omap in Hx as (n' & _ & Hn').
      apply od_get_Some_elem_of in Hn'.
      by apply items_map_entries in Hn' as [? _].
    + apply sorted_elem_of in Hx. unfold od_values in Hx.
      apply list_elem_of_fmap in Hx as ([k y] & -> & Hy).
      apply Hr in Hy. by apply items_map_entries in Hy as [? _].
Qed.

Lemma place_preferred_cover (m : list (option string * A)) names final rem
    k :
  k ∈ od_keys rem →
  k ∈ od_keys (foldl (place_preferred m) (final, rem) names).2
  ∨ ∃ y, y ∈ (foldl (place_preferred m) (final, rem) names).1
         ∧ (k, y) ∈ m.
Proof.
  revert final rem. induction names as [|n names IH]; intros final rem Hk;
    [by left|].
  cbn [foldl place_preferred].
  destruct (od_get m (Some n)) as [item|] eqn:Hm; [|by apply IH].
  destruct (decide (k = Some n)) as [->|Hne].
  - right. exists item. split; [|by apply od_get_Some_elem_of].
    rewrite place_preferred_final, <- app_assoc.
    apply elem_of_app. right. left.
  - apply IH. destruct (od_mem rem (Some n)); [|done].
    apply od_keys_del_ne; [|done]. congruence.
Qed.

(** X3. No key is lost: for every item of the input the output holds an
    item with the same key, whatever the keys and the preferences. *)
Theorem get_ordered_items_keeps_keys (actual_items : list A)
    (preferred_order_names : list string) (x : A) :
  x ∈ actual_items →
  ∃ y, y ∈ get_ordered_items name_of actual_items preferred_order_names
       ∧ name_of y = name_of x.
Proof.
  intros Hx. unfold get_ordered_items.
  destruct preferred_order_names as [|n names].
  - exists x. split; [by apply sorted_elem_of|done].
  - assert (name_of x ∈ od_keys (items_map name_of actual_items)) as Hk.
    { apply dec_stable. intros Hnin. apply od_get_None in Hnin.
      rewrite items_map_get in Hnin. apply last_None in Hnin.
      assert (x ∈ filter (λ y, name_of y = name_of x) actual_items) as Hin
        by by apply list_elem_of_filter.
      rewrite Hnin in Hin. by apply elem_of_nil in Hin. }
    pose proof (place_preferred_cover (items_map name_of actual_items)
                  (n :: names) [] (items_map name_of actual_items) _ Hk)
      as Hc.
    pose proof (place_preferred_remaining_sub
                  (items_map name_of actual_items) (n :: names) []
                  (items_map name_of actual_items)) as Hr.
    destruct (foldl _ _ (n :: names)) as [final rem].
    cbn [fst snd] in Hc, Hr.
    destruct Hc as [Hrem|(y & Hy & Hm)].
    + apply od_keys_elem_of in Hrem as [y Hy].
      exists y. split.
      * apply elem_of_app. right. apply sorted_elem_of.
        unfold od_values. by apply (list_elem_of_fmap_2 snd) in Hy.
      * apply Hr in Hy. by apply items_map_entries in Hy as [_ ?].
    + exists y. split; [apply elem_of_app; by left|].
      by apply items_map_entries in Hm as [_ ?].
Qed.

End OrderResolverMore.

Lemma get_ordered_items_layout_witness :
  NoDup (example_name <$> [("A", 1); ("B", 2); ("C", 3)])
  ∧ get_ordered_items example_name [("A", 1); ("B", 2); ("C", 3)]
      ["C"; "Z"; "A"]
    = omap (item_named example_name [("A", 1); ("B", 2); ("C", 3)])
           ["C"; "Z"; "A"]
      ++ sorted (sort_name example_name)
           (filter (λ x, example_name x ∉ (Some <$> ["C"; "Z"; "A"]))
                   [("A", 1); ("B", 2); ("C", 3)]).
Proof.
  assert (NoDup (example_name <$> [("A", 1); ("B", 2); ("C", 3)])) as H1
    by (apply (bool_decide_unpack _); vm_compute; exact I).
  split; [exact H1|].
  exact (get_ordered_items_layout example_name _ ["C"; "Z"; "A"] H1).
Defined.

Lemma get_ordered_items_from_input_witness :
  ("C", 3) ∈ get_ordered_items example_name [("A", 1); ("B", 2); ("C", 3)]
               ["C"; "Z"; "A"]
  ∧ ("C", 3) ∈ [("A", 1); ("B", 2); ("C", 3)].
Proof.
  assert (("C", 3) ∈ get_ordered_items example_name
                       [("A", 1); ("B", 2); ("C", 3)] ["C"; "Z"; "A"]) as H1
    by (vm_compute; left).
  split; [exact H1|].
  exact (get_ordered_items_from_input example_name _ _ _ H1).
Defined.

Lemma get_ordered_items_keeps_keys_witness :
  ("A", 1) ∈ [("A", 1); ("A", 2)]
  ∧ ∃ y, y ∈ get_ordered_items example_name [("A", 1); ("A", 2)] ["Z"]
         ∧ example_name y = example_name ("A", 1).
Proof.
  assert (("A", 1) ∈ [("A", 1); ("A", 2)]) as H1 by left.
  split; [exact H1|].
  exact (get_ordered_items_keeps_keys example_name _ ["Z"] _ H1).
Defined.

(** ** NameNormalizer: the grouping key *)

Lemma list_ascii_of_string_app s1 s2 :
  list_ascii_of_string (s1 +:+ s2)
  = list_ascii_of_string s1 ++ list_ascii_of_string s2.
Proof. induction s1 as [|c s1 IH]; simpl; [done|]. by rewrite IH. Qed.

Lemma normalize_chars name :
  name ≠ "" →
  list_ascii_of_string (_normalize_device_name name)
  = filter (λ c, is_space c = false)
           (re_sub_from re_trailing_number (list_ascii_of_string name) 0).
Proof.
  intros Hne. unfold _normalize_device_name.
  rewrite bool_decide_eq_false_2 by done.
  rewrite re_sub_spaces_spec. unfold remove_spaces, re_sub.
  by rewrite !list_ascii_of_string_of_list_ascii.
Qed.

(** X4. A normalised name never contains a whitespace character. *)
Theorem normalize_device_name_no_space (name : string) :
  Forall (λ c, is_space c = false)
         (list_ascii_of_string (_normalize_device_name name)).
Proof.
  destruct (decide (name = "")) as [->|Hne].
  - apply (bool_decide_unpack _). vm_compute. exact I.
  - rewrite normalize_chars by done.
    apply Forall_forall. by intros c [? _]%list_elem_of_filter.
Qed.

Lemma filter_space_all (w : list ascii) :
  Forall (λ c, is_space c = true) w →
  filter (λ c, is_space c = false) w = [].
Proof.
  intros Hw. apply filter_none. intros c Hc.
  rewrite Forall_forall in Hw. rewrite (Hw c Hc). done.
Qed.

(** A name whose last visible character is not a digit has no trailing
    number. *)
Lemma re_sub_trailing_no_number (s : list ascii) :
  (∀ c, head (drop_while is_space (reverse s)) = Some c →
        is_digit c = false) →
  re_sub_from re_trailing_number s 0 = s.
Proof.
  intros Hlast. apply re_sub_trailing_none. intros pre s' ->.
  destruct (tail_number s') as [r|] eqn:Ht; [exfalso|done].
  apply tail_number_Some in Ht as (Hr & w & d & -> & _ & Hd & Hd0).
  assert (∃ c, last d = Some c) as [c Hc] by (by apply last_is_Some).
  assert (is_digit c = true) as Hcd.
  { apply last_Some_elem_of in Hc. rewrite Forall_forall in Hd. auto. }
  apply last_Some in Hc as [d' ->].
  rewrite (Hlast c) in Hcd; [done|].
  rewrite !reverse_app, reverse_singleton, <- !app_assoc. cbn [app].
  rewrite drop_while_app_all.
  - rewrite drop_while_stop; [done|]. by apply is_digit_not_space.
  - destruct Hr as [->| ->]; [constructor|].
    by repeat constructor.
Qed.

(** X5. Numbered names share their key with the bare name: for a name
    that is not empty and whose last visible character is not a digit,
    appending whitespace (possibly none) and a number does not change the
    normalised name. *)
Theorem normalize_device_name_numbered (name w d : string) :
  name ≠ "" →
  (∀ c, last_visible name = Some c → is_digit c = false) →
  all_chars is_space w →
  all_chars is_digit d →
  d ≠ "" →
  _normalize_device_name (name +:+ w +:+ d) = _normalize_device_name name.
Proof.
  intros Hne Hlast Hw Hd Hd0.
  assert (∀ s1 s2, list_ascii_of_string s1 = list_ascii_of_string s2 →
                   s1 = s2) as Hinj.
  { intros s1 s2 Heq. apply (f_equal string_of_list_ascii) in Heq.
    by rewrite !string_of_list_ascii_of_string in Heq. }
  assert (name +:+ w +:+ d ≠ "") as Hne'.
  { intros Heq. apply (f_equal list_ascii_of_string) in Heq.
    rewrite !list_ascii_of_string_app in Heq. simpl in Heq.
    apply app_eq_nil in Heq as [_ Heq]. apply app_eq_nil in Heq as [_ Heq].
    apply Hd0, Hinj. by rewrite Heq. }
  apply Hinj. rewrite !normalize_chars by done.
  rewrite !list_ascii_of_string_app.
  unfold last_visible, all_chars in *.
  set (N := list_ascii_of_string name) in *.
  set (W := list_ascii_of_string w) in *.
  set (D := list_ascii_of_string d) in *.
  rewrite (re_sub_trailing_no_number N) by done.
  pose proof (take_drop_while is_space (reverse N)) as Hsplit.
  apply (f_equal reverse) in Hsplit.
  rewrite reverse_app, reverse_involutive in Hsplit.
  set (pre := reverse (drop_while is_space (reverse N))) in *.
  set (w0 := reverse (take_while is_space (reverse N))) in *.
  assert (Forall (λ c, is_space c = true) w0) as Hw0
    by apply Forall_reverse, take_while_Forall.
  assert (N ++ W ++ D = pre ++ (w0 ++ W) ++ D ++ []) as ->.
  { rewrite <- Hsplit at 1. by rewrite app_nil_r, <- !app_assoc. }
  rewrite (re_sub_trailing_run (w0 ++ W) D [] pre).
  - rewrite <- Hsplit.
    rewrite app_nil_r, filter_app, (filter_space_all w0) by done.
    by rewrite app_nil_r.
  - split_and!; [by apply Forall_app| done | |by left].
    intros HD. apply Hd0, Hinj. exact HD.
  - intros c Hc. unfold pre in Hc. rewrite last_reverse in Hc.
    split; [by apply (drop_while_head is_space _ _ Hc)|].
    intros _. by apply Hlast.
Qed.

Lemma normalize_device_name_numbered_witness :
  "Bed Boob" ≠ ""
  ∧ (∀ c, last_visible "Bed Boob" = Some c → is_digit c = false)
  ∧ all_chars is_space " "
  ∧ all_chars is_digit "12"
  ∧ "12" ≠ ""
  ∧ _normalize_device_name ("Bed Boob" +:+ " " +:+ "12")
    = _normalize_device_name "Bed Boob".
Proof.
  assert ("Bed Boob" ≠ "") as H1 by discriminate.
  assert (∀ c, last_visible "Bed Boob" = Some c → is_digit c = false) as H2
    by (intros c [= <-]; reflexivity).
  assert (all_chars is_space " ") as H3 by (by repeat constructor).
  assert (all_chars is_digit "12") as H4 by (by repeat constructor).
  assert ("12" ≠ "") as H5 by discriminate.
  split_and!; [exact H1|exact H2|exact H3|exact H4|exact H5|].
  exact (normalize_device_name_numbered "Bed Boob" " " "12" H1 H2 H3 H4 H5).
Defined.

(** ** StructureBuilder: where the entries come from *)

Lemma index_device_ids m dev m' :
  map_Forall (λ i detail, detail_id detail = i) m →
  index_device m dev = Returned m' →
  map_Forall (λ i detail, detail_id detail = i) m'.
Proof.
  intros Hm. unfold index_device.
  destruct (raw_device_id dev) as [i|]; [|done].
  destruct (truthy_str (Some i)); intros [= <-]; [|done].
  by apply map_Forall_insert_2.
Qed.

Lemma device_details_map_ids devices_raw device_details_map :
  device_details_map_of devices_raw = Returned device_details_map →
  map_Forall (λ i detail, detail_id detail = i) device_details_map.
Proof.
  unfold device_details_map_of.
  assert (map_Forall (λ i detail, detail_id detail = i)
                     (∅ : gmap string device_detail)) as Hm
    by apply map_Forall_empty.
  revert Hm. generalize (∅ : gmap string device_detail).
  induction devices_raw as [|dev l IH]; intros m Hm; simpl.
  - by intros [= <-].
  - destruct (index_device m dev) as [m'|e] eqn:Hdev; [|done].
    apply IH. by eapply index_device_ids.
Qed.

Lemma index_light_service_origin device_details_map m service
    (all : list raw_light) :
  service ∈ all →
  map_Forall (λ i l, ∀ s, s ∈ l →
                ∃ raw, raw ∈ all
                       ∧ light_service_of device_details_map i raw s) m →
  map_Forall (λ i l, ∀ s, s ∈ l →
                ∃ raw, raw ∈ all
                       ∧ light_service_of device_details_map i raw s)
             (index_light_service device_details_map m service).
Proof.
  intros Hin Hm. unfold index_light_service.
  destruct (raw_light_owner_rid service) as [owner_id|] eqn:Ho; [|done].
  destruct (raw_light_id service) as [sid|] eqn:Hi; [|done].
  destruct (_ && _); [|done].
  apply map_Forall_insert_2; [|done].
  intros s [Hs|Hs]%elem_of_app.
  - destruct (m !! owner_id) as [l|] eqn:Hl; simpl in Hs;
      [|by apply elem_of_nil in Hs].
    by apply (map_Forall_lookup_1 _ _ _ _ Hm Hl).
  - apply list_elem_of_singleton in Hs as ->.
    exists service. split; [done|]. by split_and!.
Qed.

Lemma light_services_fold_origin device_details_map
    (all todo : list raw_light) m :
  (∀ x, x ∈ todo → x ∈ all) →
  map_Forall (λ i l, ∀ s, s ∈ l →
                ∃ raw, raw ∈ all
                       ∧ light_service_of device_details_map i raw s) m →
  map_Forall (λ i l, ∀ s, s ∈ l →
                ∃ raw, raw ∈ all
                       ∧ light_service_of device_details_map i raw s)
             (foldl (index_light_service device_details_map) m todo).
Proof.
  revert m. induction todo as [|x todo IH]; intros m Hsub Hm; simpl; [done|].
  apply IH.
  - intros y Hy. apply Hsub. by right.
  - apply index_light_service_origin; [apply Hsub; left|done].
Qed.

Lemma light_services_map_origin device_details_map light_services_raw i l s :
  light_services_map_of device_details_map light_services_raw !! i = Some l →
  s ∈ l →
  ∃ raw, raw ∈ light_services_raw
         ∧ light_service_of device_details_map i raw s.
Proof.
  unfold light_services_map_of. intros Hl Hs.
  pose proof (light_services_fold_origin device_details_map
                light_services_raw light_services_raw ∅ (λ _ H, H)
                (map_Forall_empty _)) as Hall.
  by apply (map_Forall_lookup_1 _ _ _ _ Hall Hl).
Qed.

(** A resolved child of a room is the entry of a known device, with the
    light services indexed under its id. *)
Lemma room_devices_entry device_details_map hue_device_to_light_services
    room n d :
  map_Forall (λ i detail, detail_id detail = i) device_details_map →
  (n, d) ∈ room_devices device_details_map hue_device_to_light_services
             room →
  ∃ detail,
    device_details_map !! device_id d = Some detail
    ∧ device_name d = detail_name detail
    ∧ light_services d
      = default [] (hue_device_to_light_services !! device_id d).
Proof.
  intros Hm (oid & _ & Hres)%list_elem_of_omap.
  unfold resolve_device in Hres.
  destruct oid as [i|]; simpl in Hres; [|done].
  destruct (device_details_map !! i) as [detail|] eqn:Hi; simpl in Hres;
    [|done].
  injection Hres as <- <-. simpl.
  rewrite (map_Forall_lookup_1 _ _ _ _ Hm Hi). by exists detail.
Qed.

(** Every light service of a built structure, with the device that lists
    it, goes back to a raw light owned by that device. *)
Lemma generate_light_service_origin env bridge output_file_path fs house fs'
    r d s :
  generate_hue_structure_json env bridge output_file_path fs
  = (Returned (Some house), fs') →
  r ∈ rooms house → d ∈ devices_of_room r → s ∈ light_services d →
  ∃ devices_raw light_services_raw device_details_map detail raw,
    fetched_devices bridge = Some devices_raw
    ∧ fetched_lights bridge = Some light_services_raw
    ∧ device_details_map_of devices_raw = Returned device_details_map
    ∧ device_details_map !! device_id d = Some detail
    ∧ device_name d = detail_name detail
    ∧ raw ∈ light_services_raw
    ∧ light_service_of device_details_map (device_id d) raw s.
Proof.
  intros (ds & ls & rs & Hds & Hls & _ & Hb & _)%generate_Returned_Some
    Hr Hd Hs.
  destruct (build_structure_room _ _ _ _ _ _ Hb Hr)
    as (dmap & raw_room & Hdmap & _ & Hroom).
  destruct (build_room_devices _ _ _ _ _ Hroom Hd) as [n Hn].
  destruct (room_devices_entry _ _ _ _ _
              (device_details_map_ids _ _ Hdmap) Hn)
    as (detail & Hdetail & Hname & Hserv).
  rewrite Hserv in Hs.
  destruct (light_services_map_of dmap ls !! device_id d) as [l|] eqn:Hl;
    simpl in Hs; [|by apply elem_of_nil in Hs].
  destruct (light_services_map_origin _ _ _ _ _ Hl Hs) as (raw & Hraw & Hof).
  by exists ds, ls, dmap, detail, raw.
Qed.

(** X6. Every light service of a built structure reflects a light the
    bridge reported: it is listed under the device that owns it, it is on
    exactly when the bridge says so, it supports dimming exactly when the
    light has a dimming section, and a brightness that is present is the
    brightness the bridge reported. *)
Theorem light_services_reflect_bridge env bridge output_file_path fs house
    fs' r d s :
  generate_hue_structure_json env bridge output_file_path fs
  = (Returned (Some house), fs') →
  r ∈ rooms house → d ∈ devices_of_room r → s ∈ light_services d →
  ∃ light_services_raw raw,
    fetched_lights bridge = Some light_services_raw
    ∧ raw ∈ light_services_raw
    ∧ raw_light_owner_rid raw = Some (device_id d)
    ∧ raw_light_id raw = Some (service_id s)
    ∧ is_on s = default false (raw_light_on raw)
    ∧ supports_dimming s = bool_decide (is_Some (raw_light_dimming raw))
    ∧ supports_color s = raw_light_color raw
    ∧ supports_color_temperature s = raw_light_color_temperature raw
    ∧ original_metadata_name s = raw_light_name raw
    ∧ ∀ b, current_brightness s = Some b →
           raw_light_dimming raw = Some (Some b).
Proof.
  intros Hgen Hr Hd Hs.
  destruct (generate_light_service_origin _ _ _ _ _ _ _ _ _ Hgen Hr Hd Hs)
    as (ds & ls & dmap & detail & raw & _ & Hls & _ & _ & _ & Hraw
        & Howner & Hid & Hmake).
  exists ls, raw. rewrite Hmake. unfold make_light_service. cbn.
  split_and!; try done.
  intros b. destruct (default false (raw_light_on raw)); simpl; [|done].
  case_bool_decide as Hdim; [|done].
  destruct Hdim as [o Ho]. rewrite Ho. simpl. by intros ->.
Qed.

Lemma string_length_app (s1 s2 : string) :
  String.length (s1 +:+ s2) = String.length s1 + String.length s2.
Proof. induction s1 as [|c s1 IH]; simpl; [done|]. by rewrite IH. Qed.

Lemma final_service_name_distinct service_name_meta owner_device_name :
  final_service_name service_name_meta owner_device_name ≠ ""
  ∧ final_service_name service_name_meta owner_device_name
    ≠ owner_device_name.
Proof.
  assert (owner_device_name +:+ " Light" ≠ ""
          ∧ owner_device_name +:+ " Light" ≠ owner_device_name) as [H1 H2].
  { split; intros Heq; apply (f_equal String.length) in Heq;
      rewrite string_length_app in Heq; simpl in Heq; lia. }
  unfold final_service_name. destruct service_name_meta as [n|]; [|done].
  case_bool_decide as Hn; simpl; [done|].
  case_bool_decide as Hn'; simpl; done.
Qed.

(** X7. In a built structure the label of a light service is never empty
    and never the name of the device that lists it. *)
Theorem service_name_distinct_from_device env bridge output_file_path fs
    house fs' r d s :
  generate_hue_structure_json env bridge output_file_path fs
  = (Returned (Some house), fs') →
  r ∈ rooms house → d ∈ devices_of_room r → s ∈ light_services d →
  service_name s ≠ "" ∧ service_name s ≠ device_name d.
Proof.
  intros Hgen Hr Hd Hs.
  destruct (generate_light_service_origin _ _ _ _ _ _ _ _ _ Hgen Hr Hd Hs)
    as (ds & ls & dmap & detail & raw & _ & _ & _ & Hdetail & Hname & _
        & _ & _ & Hmake).
  rewrite Hmake, Hname. unfold make_light_service, owner_name. cbn.
  rewrite Hdetail. simpl. apply final_service_name_distinct.
Qed.

Lemma example_bedroom_in : example_bedroom ∈ rooms example_house.
Proof. left. Qed.

Lemma example_lamp_1_in : example_lamp_1 ∈ devices_of_room example_bedroom.
Proof. left. Qed.

Lemma example_s1_in : example_s1 ∈ light_services example_lamp_1.
Proof. left. Qed.

Lemma light_services_reflect_bridge_witness :
  ∃ light_services_raw raw,
    fetched_lights example_bridge = Some light_services_raw
    ∧ raw ∈ light_services_raw
    ∧ raw_light_owner_rid raw = Some (device_id example_lamp_1)
    ∧ raw_light_id raw = Some (service_id example_s1)
    ∧ is_on example_s1 = default false (raw_light_on raw)
    ∧ supports_dimming example_s1
      = bool_decide (is_Some (raw_light_dimming raw))
    ∧ supports_color example_s1 = raw_light_color raw
    ∧ supports_color_temperature example_s1
      = raw_light_color_temperature raw
    ∧ original_metadata_name example_s1 = raw_light_name raw
    ∧ ∀ b, current_brightness example_s1 = Some b →
           raw_light_dimming raw = Some (Some b).
Proof.
  exact (light_services_reflect_bridge example_env example_bridge
           DEFAULT_OUTPUT_FILE empty_fs example_house example_fs
           example_bedroom example_lamp_1 example_s1 example_run
           example_bedroom_in example_lamp_1_in example_s1_in).
Defined.

Lemma service_name_distinct_from_device_witness :
  service_name example_s1 ≠ ""
  ∧ service_name example_s1 ≠ device_name example_lamp_1.
Proof.
  exact (service_name_distinct_from_device example_env example_bridge
           DEFAULT_OUTPUT_FILE empty_fs example_house example_fs
           example_bedroom example_lamp_1 example_s1 example_run
           example_bedroom_in example_lamp_1_in example_s1_in).
Defined.

(** ** StructureBuilder: the shape of a built room *)

Lemma NoDup_fmap_filter_le {X} (key : X → string) (l : list X) :
  (∀ k, (length (filter (λ x, key x = k) l) ≤ 1)%nat) → NoDup (key <$> l).
Proof.
  induction l as [|x l IH]; intros Hle; [constructor|].
  rewrite fmap_cons. apply NoDup_cons. split.
  - intros (y & Hy & Hin)%list_elem_of_fmap.
    specialize (Hle (key x)). rewrite filter_cons_True in Hle by done.
    assert (y ∈ filter (λ z, key z = key x) l) as Hf
      by by apply list_elem_of_filter.
    destruct (filter _ l); [by apply elem_of_nil in Hf|simpl in Hle; lia].
  - apply IH. intros k. specialize (Hle k). rewrite filter_cons in Hle.
    case_decide; simpl in Hle; lia.
Qed.

(** The groups and the standalone devices of one built room. *)
Lemma build_room_shape device_details_map hue_device_to_light_services
    room r :
  map_Forall (λ _ detail, normalized_name detail
                          = _normalize_device_name (detail_name detail))
             device_details_map →
  build_room device_details_map hue_device_to_light_services room
  = Returned r →
  (∀ g, g ∈ device_groups r →
        (2 ≤ length (hue_devices g))%nat
        ∧ ∀ d, d ∈ hue_devices g →
               _normalize_device_name (device_name d) = group_base_name g)
  ∧ NoDup (group_base_name <$> device_groups r)
  ∧ NoDup ((λ d, _normalize_device_name (device_name d))
           <$> standalone_devices r)
  ∧ ∀ d g, d ∈ standalone_devices r → g ∈ device_groups r →
           _normalize_device_name (device_name d) ≠ group_base_name g.
Proof.
  intros Hm Hroom.
  pose proof (λ n, build_room_buckets _ _ _ _ n Hm Hroom) as Hb.
  cbn zeta in Hb.
  set (entries := (room_devices device_details_map
                     hue_device_to_light_services room).*2) in *.
  assert (∀ g, g ∈ device_groups r →
               (2 ≤ length (filter (λ d, _normalize_device_name
                                           (device_name d)
                                         = group_base_name g) entries))%nat
               ∧ g = {| group_base_name := group_base_name g;
                        hue_devices :=
                          sorted device_name
                            (filter (λ d, _normalize_device_name
                                            (device_name d)
                                          = group_base_name g) entries) |})
    as Hgroup.
  { intros g Hg. destruct (Hb (group_base_name g)) as [Hgs _].
    assert (g ∈ filter (λ g', group_base_name g' = group_base_name g)
                       (device_groups r)) as Hin
      by by apply list_elem_of_filter.
    rewrite Hgs in Hin. case_bool_decide as Hlen;
      [|by apply elem_of_nil in Hin].
    by apply list_elem_of_singleton in Hin. }
  split_and!.
  - intros g Hg. destruct (Hgroup g Hg) as [Hlen Heq]. split.
    + rewrite Heq. simpl. by rewrite sorted_length.
    + intros d Hd. rewrite Heq in Hd. simpl in Hd.
      apply sorted_elem_of in Hd. by apply list_elem_of_filter in Hd as [? _].
  - apply NoDup_fmap_filter_le. intros k. destruct (Hb k) as [-> _].
    case_bool_decide; simpl; lia.
  - apply NoDup_fmap_filter_le. intros k. destruct (Hb k) as [_ ->].
    case_bool_decide as Hlen; simpl; lia.
  - intros d g Hd Hg Heq. destruct (Hgroup g Hg) as [Hlen _].
    destruct (Hb (group_base_name g)) as [_ Hst].
    assert (d ∈ filter (λ d', _normalize_device_name (device_name d')
                              = group_base_name g) (standalone_devices r))
      as Hin by by apply list_elem_of_filter.
    rewrite Hst in Hin. case_bool_decide as Hone;
      [lia|by apply elem_of_nil in Hin].
Qed.

(** X8. In every room of a built structure a device group has at least
    two members, all of which normalise to the group's base name; no two
    groups of the room share a base name; and the normalised name of a
    standalone device is that of no group and of no other standalone
    device of the room. *)
Theorem built_room_shape env bridge output_file_path fs house fs' r :
  generate_hue_structure_json env bridge output_file_path fs
  = (Returned (Some house), fs') →
  r ∈ rooms house →
  (∀ g, g ∈ device_groups r →
        (2 ≤ length (hue_devices g))%nat
        ∧ ∀ d, d ∈ hue_devices g →
               _normalize_device_name (device_name d) = group_base_name g)
  ∧ NoDup (group_base_name <$> device_groups r)
  ∧ NoDup ((λ d, _normalize_device_name (device_name d))
           <$> standalone_devices r)
  ∧ ∀ d g, d ∈ standalone_devices r → g ∈ device_groups r →
           _normalize_device_name (device_name d) ≠ group_base_name g.
Proof.
  intros (ds & ls & rs & _ & _ & _ & Hb & _)%generate_Returned_Some Hr.
  destruct (build_structure_room _ _ _ _ _ _ Hb Hr)
    as (dmap & raw & Hdmap & _ & Hroom).
  eapply build_room_shape; [|exact Hroom].
  by eapply device_details_map_normalized.
Qed.

Lemma built_room_shape_witness :
  (∀ g, g ∈ device_groups example_bedroom →
        (2 ≤ length (hue_devices g))%nat
        ∧ ∀ d, d ∈ hue_devices g →
               _normalize_device_name (device_name d) = group_base_name g)
  ∧ NoDup (group_base_name <$> device_groups example_bedroom)
  ∧ NoDup ((λ d, _normalize_device_name (device_name d))
           <$> standalone_devices example_bedroom)
  ∧ ∀ d g, d ∈ standalone_devices example_bedroom →
           g ∈ device_groups example_bedroom →
           _normalize_device_name (device_name d) ≠ group_base_name g.
Proof.
  exact (built_room_shape example_env example_bridge DEFAULT_OUTPUT_FILE
           empty_fs example_house example_fs example_bedroom example_run
           example_bedroom_in).
Defined.

(** The buckets hold every resolved device once. *)
Lemma od_set_append_bind {X} (d : list (string * list X)) n (x : X) :
  od_set d n (default [] (od_get d n) ++ [x]) ≫= snd
  ≡ₚ (d ≫= snd) ++ [x].
Proof.
  induction d as [|[k l] d IH]; [done|].
  cbn [od_set od_get]. destruct (decide (n = k)) as [->|Hne].
  - change (default [] (Some l)) with l.
    rewrite !bind_cons. cbn [snd].
    rewrite <- !app_assoc. apply Permutation_app_head.
    apply Permutation_app_comm.
  - rewrite !bind_cons, IH, <- app_assoc. done.
Qed.

Lemma bucketize_perm (entries : list (string * hue_device)) :
  bucketize entries ≫= snd ≡ₚ entries.*2.
Proof.
  unfold bucketize.
  assert (∀ d : list (string * list hue_device),
            foldl (λ d e, od_set d e.1 (default [] (od_get d e.1) ++ [e.2]))
                  d entries ≫= snd
            ≡ₚ (d ≫= snd) ++ entries.*2) as Hgen.
  { induction entries as [|e entries IH]; intros d; simpl.
    - by rewrite app_nil_r.
    - rewrite IH, od_set_append_bind, <- app_assoc. done. }
  apply Hgen.
Qed.

Lemma bucket_split_perm (b : string * list hue_device) :
  b.2 ≠ [] →
  match group_of_bucket b with
  | Some g => hue_devices g.2
  | None => []
  end ++ standalone_of_bucket b ≡ₚ b.2.
Proof.
  destruct b as [n l]. unfold group_of_bucket, standalone_of_bucket.
  cbn [fst snd]. intros Hl.
  destruct l as [|x [|y l]]; [done|done|].
  rewrite bool_decide_eq_true_2 by (simpl; lia).
  cbn [snd hue_devices]. rewrite app_nil_r. apply sorted_perm.
Qed.

Lemma buckets_split_perm (d : list (string * list hue_device)) :
  (∀ b, b ∈ d → b.2 ≠ []) →
  (od_values (omap group_of_bucket d) ≫= hue_devices)
  ++ (d ≫= standalone_of_bucket)
  ≡ₚ d ≫= snd.
Proof.
  unfold od_values. induction d as [|b d IH]; intros Hne; [done|].
  rewrite omap_cons_match, !bind_cons.
  rewrite <- (bucket_split_perm b) by (apply Hne; left).
  rewrite <- IH by (intros ? ?; apply Hne; by right).
  destruct (group_of_bucket b) as [g|].
  - rewrite fmap_cons, bind_cons, <- !app_assoc. f_equiv.
    rewrite !app_assoc. f_equiv. apply Permutation_app_comm.
  - cbn [app]. rewrite !app_assoc. f_equiv. apply Permutation_app_comm.
Qed.

Lemma build_room_devices_perm device_details_map
    hue_device_to_light_services room r :
  build_room device_details_map hue_device_to_light_services room
  = Returned r →
  devices_of_room r
  ≡ₚ (room_devices device_details_map hue_device_to_light_services room).*2.
Proof.
  intros (_ & Hg & Hs)%build_room_Returned. unfold devices_of_room.
  rewrite Hg, Hs, !sorted_perm, <- bucketize_perm.
  apply buckets_split_perm.
  intros [n l] Hb. by apply bucketize_elem_of in Hb as [_ ?].
Qed.

(** X9. No device is lost or doubled: the devices of a built room, in
    its groups and standing alone, are the children of the raw room that
    are known devices, each as often as the room lists it. *)
Theorem built_room_devices_complete env bridge output_file_path fs house
    fs' r :
  generate_hue_structure_json env bridge output_file_path fs
  = (Returned (Some house), fs') →
  r ∈ rooms house →
  ∃ devices_raw light_services_raw rooms_raw device_details_map raw,
    fetched_devices bridge = Some devices_raw
    ∧ fetched_lights bridge = Some light_services_raw
    ∧ fetched_rooms bridge = Some rooms_raw
    ∧ device_details_map_of devices_raw = Returned device_details_map
    ∧ raw ∈ rooms_raw
    ∧ raw_room_id raw = Some (room_id r)
    ∧ devices_of_room r
      ≡ₚ (room_devices device_details_map
            (light_services_map_of device_details_map light_services_raw)
            raw).*2.
Proof.
  intros (ds & ls & rs & Hds & Hls & Hrs & Hb & _)%generate_Returned_Some Hr.
  destruct (build_structure_room _ _ _ _ _ _ Hb Hr)
    as (dmap & raw & Hdmap & Hraw & Hroom).
  exists ds, ls, rs, dmap, raw. split_and!; try done.
  - by apply build_room_Returned in Hroom as (? & _).
  - by apply build_room_devices_perm.
Qed.

Lemma built_room_devices_complete_witness :
  ∃ devices_raw light_services_raw rooms_raw device_details_map raw,
    fetched_devices example_bridge = Some devices_raw
    ∧ fetched_lights example_bridge = Some light_services_raw
    ∧ fetched_rooms example_bridge = Some rooms_raw
    ∧ device_details_map_of devices_raw = Returned device_details_map
    ∧ raw ∈ rooms_raw
    ∧ raw_room_id raw = Some (room_id example_bedroom)
    ∧ devices_of_room example_bedroom
      ≡ₚ (room_devices device_details_map
            (light_services_map_of device_details_map light_services_raw)
            raw).*2.
Proof.
  exact (built_room_devices_complete example_env example_bridge
           DEFAULT_OUTPUT_FILE empty_fs example_house example_fs
           example_bedroom example_run example_bedroom_in).
Defined.

(** X10. A built structure is in display order: the rooms are ascending
    by room name, the groups of a room by base name, the members of a
    group and the standalone devices of a room by device name. *)
Theorem built_structure_sorted env bridge output_file_path fs house fs' :
  generate_hue_structure_json env bridge output_file_path fs
  = (Returned (Some house), fs') →
  StronglySorted (λ r1 r2, String.le (room_name r1) (room_name r2))
                 (rooms house)
  ∧ ∀ r, r ∈ rooms house →
         StronglySorted (λ g1 g2, String.le (group_base_name g1)
                                            (group_base_name g2))
                        (device_groups r)
         ∧ StronglySorted (λ d1 d2, String.le (device_name d1)
                                              (device_name d2))
                          (standalone_devices r)
         ∧ ∀ g, g ∈ device_groups r →
                StronglySorted (λ d1 d2, String.le (device_name d1)
                                                   (device_name d2))
                               (hue_devices g).
Proof.
  intros (ds & ls & rs & _ & _ & _ & Hb & _)%generate_Returned_Some.
  destruct (build_structure_sorted _ _ _ _ _ Hb) as [Hrooms Hin].
  split; [exact Hrooms|]. intros r Hr.
  destruct (Hin r Hr) as [Hg Hs]. split_and!; [exact Hg|exact Hs|].
  intros g Hg'.
  destruct (build_structure_room _ _ _ _ _ _ Hb Hr)
    as (dmap & raw & _ & _ & Hroom).
  apply build_room_Returned in Hroom as (_ & Hgroups & _).
  rewrite Hgroups in Hg'. apply sorted_elem_of in Hg'.
  unfold od_values in Hg'.
  apply list_elem_of_fmap in Hg' as ([n g'] & -> & Hg').
  apply list_elem_of_omap in Hg' as (b & _ & Hgrp).
  unfold group_of_bucket in Hgrp. case_bool_decide; [|done].
  injection Hgrp as <- <-. simpl.
  apply (sorted_StronglySorted device_name).
Qed.

Lemma built_structure_sorted_witness :
  StronglySorted (λ r1 r2, String.le (room_name r1) (room_name r2))
                 (rooms example_house)
  ∧ ∀ r, r ∈ rooms example_house →
         StronglySorted (λ g1 g2, String.le (group_base_name g1)
                                            (group_base_name g2))
                        (device_groups r)
         ∧ StronglySorted (λ d1 d2, String.le (device_name d1)
                                              (device_name d2))
                          (standalone_devices r)
         ∧ ∀ g, g ∈ device_groups r →
                StronglySorted (λ d1 d2, String.le (device_name d1)
                                                   (device_name d2))
                               (hue_devices g).
Proof.
  exact (built_structure_sorted example_env example_bridge
           DEFAULT_OUTPUT_FILE empty_fs example_house example_fs
           example_run).
Defined.

(** ** Fetching *)

Lemma get_hue_resources_truthy {A} env (outcome : http_outcome A) :
  truthy_list (_get_hue_resources env outcome) = true →
  clean_response outcome.
Proof.
  unfold _get_hue_resources.
  destruct (negb (CONFIG_VALID env)); [done|].
  destruct outcome as [e|text|errors data]; [done|done|].
  destruct (truthy_list errors) eqn:He; [done|].
  destruct data as [[|x data]|]; [done| |done].
  intros _. by exists errors, (x :: data).
Qed.

Lemma generate_Returned_truthy env bridge output_file_path fs house fs' :
  generate_hue_structure_json env bridge output_file_path fs
  = (Returned (Some house), fs') →
  truthy_list (fetched_devices bridge) = true
  ∧ truthy_list (fetched_lights bridge) = true
  ∧ truthy_list (fetched_rooms bridge) = true.
Proof.
  intros Hrun.
  destruct (truthy_list (fetched_devices bridge)
            && truthy_list (fetched_lights bridge)
            && truthy_list (fetched_rooms bridge)) eqn:Hg.
  - by apply andb_true_iff in Hg as [[? ?]%andb_true_iff ?].
  - by rewrite (generate_guard _ _ _ _ Hg) in Hrun.
Qed.

(** X11. A run of the generator on what [_get_hue_resources] makes of the
    three answers of the bridge succeeds only if each answer is JSON, has
    no entry in its error array and lists at least one resource: a failed
    request, a body that is not JSON, a reported error (even beside data)
    or an empty list for devices, lights or rooms makes the run fail. *)
Theorem generate_needs_clean_responses env responses output_file_path fs
    house fs' :
  generate_hue_structure_json env (fetch_resources env responses)
    output_file_path fs
  = (Returned (Some house), fs') →
  clean_response (device_response responses)
  ∧ clean_response (light_response responses)
  ∧ clean_response (room_response responses).
Proof.
  intros (Hd & Hl & Hr)%generate_Returned_truthy.
  split_and!; apply (get_hue_resources_truthy env); assumption.
Qed.

Lemma generate_needs_clean_responses_witness :
  clean_response (device_response example_responses)
  ∧ clean_response (light_response example_responses)
  ∧ clean_response (room_response example_responses).
Proof.
  apply (generate_needs_clean_responses example_env example_responses
           DEFAULT_OUTPUT_FILE empty_fs example_house example_fs).
  vm_compute. reflexivity.
Defined.

(** ** The store, continued *)

Lemma write_file_lookup_ne path c fs fs' p :
  write_file path c fs = Some fs' → p ≠ path →
  files fs' !! p = files fs !! p.
Proof.
  intros [_ ->]%write_file_Some Hne. simpl. by rewrite lookup_insert_ne.
Qed.

Lemma create_default_ui_order_lookup house fs p :
  p ≠ UI_ORDER_FILE_PATH_DEFAULT ∨ is_Some (files fs !! p) →
  files (create_default_ui_order house fs) !! p = files fs !! p.
Proof.
  intros Hp. unfold create_default_ui_order, path_exists.
  case_bool_decide as Hex; simpl; [done|].
  assert (p ≠ UI_ORDER_FILE_PATH_DEFAULT) as Hne.
  { destruct Hp as [Hp|Hp]; [done|]. by intros ->. }
  destruct (write_file _ _ fs) as [fs1|] eqn:Hw.
  - by eapply write_file_lookup_ne.
  - by apply failed_write_lookup_ne.
Qed.

(** The three ways a run ends. *)
Lemma generate_cases env bridge output_file_path fs :
  let run := generate_hue_structure_json env bridge output_file_path fs in
  (run.2 = fs ∧ ∀ house, run.1 ≠ Returned (Some house))
  ∨ (∃ house, write_file output_file_path (StructureFile house)
                (create_default_ui_order house fs) = None
              ∧ run = (Returned None,
                       failed_write output_file_path (StructureFile house)
                         (create_default_ui_order house fs)))
  ∨ (∃ house fs', write_file output_file_path (StructureFile house)
                    (create_default_ui_order house fs) = Some fs'
                  ∧ run = (Returned (Some house), fs')).
Proof.
  unfold generate_hue_structure_json.
  destruct (negb (CONFIG_VALID env)); [by left|].
  destruct (negb _); [by left|].
  destruct (build_structure _ _ _ _) as [house|e]; [|by left].
  destruct (write_file _ _ _) as [fs'|] eqn:Hw.
  - right. right. by exists house, fs'.
  - right. left. by exists house.
Qed.

(** X12. A run of the generator, whatever its outcome, touches no file of
    the store other than the structure file it is asked to write and the
    order file; and an order file that exists is left as it is (unless it
    is the very path the structure is written to). *)
Theorem generate_store_frame env bridge output_file_path fs p :
  p ≠ output_file_path →
  p ≠ UI_ORDER_FILE_PATH_DEFAULT ∨ is_Some (files fs !! p) →
  files (generate_hue_structure_json env bridge output_file_path fs).2 !! p
  = files fs !! p.
Proof.
  intros Hne Hp.
  destruct (generate_cases env bridge output_file_path fs)
    as [[-> _]|[(house & Hw & ->)|(house & fs' & Hw & ->)]]; simpl.
  - done.
  - rewrite failed_write_lookup_ne by done.
    by apply create_default_ui_order_lookup.
  - rewrite (write_file_lookup_ne _ _ _ _ _ Hw Hne).
    by apply create_default_ui_order_lookup.
Qed.

Lemma generate_store_frame_witness :
  files (generate_hue_structure_json example_env twin_bridge
           DEFAULT_OUTPUT_FILE example_fs).2 !! UI_ORDER_FILE_PATH_DEFAULT
  = files example_fs !! UI_ORDER_FILE_PATH_DEFAULT.
Proof.
  apply generate_store_frame.
  - vm_compute. discriminate.
  - right. vm_compute. eexists. reflexivity.
Defined.

(** X13. A run that does not return a structure, asked to write to a
    path other than the order file's, leaves the structure file as it
    was, except when the write of the structure file itself failed after
    the file was opened: [open(path, 'w')] has truncated the file, which
    then holds the part of the new document that was written, and the old
    structure is lost. (Such a run may also have created the default order
    file.) *)
Theorem generate_failure_structure_file env bridge output_file_path fs :
  output_file_path ≠ UI_ORDER_FILE_PATH_DEFAULT →
  (∀ house,
     (generate_hue_structure_json env bridge output_file_path fs).1
     ≠ Returned (Some house)) →
  files (generate_hue_structure_json env bridge output_file_path fs).2
    !! output_file_path
  = files fs !! output_file_path
  ∨ ∃ house text,
      write_fails fs output_file_path = true
      ∧ write_remains fs output_file_path (StructureFile house) = Some text
      ∧ files (generate_hue_structure_json env bridge output_file_path fs).2
          !! output_file_path
        = Some (OtherFile text).
Proof.
  intros Hne Hfail.
  destruct (generate_cases env bridge output_file_path fs)
    as [[-> _]|[(house & Hw & Hrun)|(house & fs' & Hw & Hrun)]].
  - by left.
  - rewrite Hrun. cbn [snd]. rewrite failed_write_lookup.
    rewrite create_default_ui_order_remains.
    destruct (write_remains fs output_file_path (StructureFile house))
      as [text|] eqn:Hr.
    + right. exists house, text. split_and!; [|done|done].
      apply write_file_None in Hw.
      by rewrite create_default_ui_order_fails in Hw.
    + left. apply create_default_ui_order_lookup. by left.
  - rewrite Hrun in Hfail. by destruct (Hfail house).
Qed.

Lemma generate_failure_structure_file_witness :
  files (generate_hue_structure_json example_env twin_bridge
           DEFAULT_OUTPUT_FILE full_disk_fs).2 !! DEFAULT_OUTPUT_FILE
  = files full_disk_fs !! DEFAULT_OUTPUT_FILE
  ∨ ∃ house text,
      write_fails full_disk_fs DEFAULT_OUTPUT_FILE = true
      ∧ write_remains full_disk_fs DEFAULT_OUTPUT_FILE (StructureFile house)
        = Some text
      ∧ files (generate_hue_structure_json example_env twin_bridge
                 DEFAULT_OUTPUT_FILE full_disk_fs).2 !! DEFAULT_OUTPUT_FILE
        = Some (OtherFile text).
Proof.
  apply generate_failure_structure_file.
  - vm_compute. discriminate.
  - intros house. vm_compute. discriminate.
Defined.

(** On a full disk the run fails and the structure that the file held is
    gone: the application then finds a file that it cannot decode. *)
Example generate_full_disk :
  let run :=
    generate_hue_structure_json example_env twin_bridge DEFAULT_OUTPUT_FILE
      full_disk_fs in
  run.1 = Returned None
  ∧ files full_disk_fs !! DEFAULT_OUTPUT_FILE
    = Some (StructureFile example_house)
  ∧ files run.2 !! DEFAULT_OUTPUT_FILE = Some (OtherFile "{")
  ∧ load_hue_structure run.2 STRUCTURE_FILE_PATH
    = (JsonNull,
       [UiError
          "Error decoding JSON from reference/hue_light_structure.json."]).
Proof. vm_compute. done. Qed.

(** When the directory cannot be created or the file cannot be opened,
    the run fails and the store is as it was. *)
Example generate_read_only :
  generate_hue_structure_json example_env twin_bridge DEFAULT_OUTPUT_FILE
    read_only_fs
  = (Returned None, read_only_fs).
Proof. vm_compute. reflexivity. Qed.

(** ** Loading what the generator wrote *)



(** ** Ordering the rooms and the devices of a room *)

Lemma sorted_sorted {X} (key : X → string) (l : list X) :
  StronglySorted (key_le key) l → sorted key l = l.
Proof. intros Hs. symmetry. by apply sorted_unique. Qed.

Lemma omap_fmap_inverse {X} (f : string → option X) (k : X → string)
    (l : list X) :
  (∀ x, x ∈ l → f (k x) = Some x) → omap f (k <$> l) = l.
Proof.
  induction l as [|x l IH]; intros Hf; [done|].
  rewrite fmap_cons. cbn [omap list_omap].
  rewrite (Hf x) by left. f_equal. apply IH. intros y Hy. apply Hf. by right.
Qed.

Lemma NoDup_names {X} (name_of : X → option string) (k : X → string)
    (l : list X) :
  (∀ x, name_of x = Some (k x)) → NoDup (k <$> l) → NoDup (name_of <$> l).
Proof.
  intros Hk Hnd.
  assert (name_of <$> l = Some <$> (k <$> l)) as ->.
  { rewrite <- list_fmap_compose. apply list_fmap_ext. intros i x _.
    simpl. apply Hk. }
  apply NoDup_fmap_2; [|done]. by intros ? ? [= ->].
Qed.

(** A preference that lists the keys of the items in their order gives
    the items back. *)
Lemma get_ordered_items_all_preferred {X} (name_of : X → option string)
    (k : X → string) (l : list X) :
  (∀ x, name_of x = Some (k x)) → NoDup (k <$> l) →
  get_ordered_items name_of l (k <$> l) = l.
Proof.
  intros Hk Hnd.
  rewrite get_ordered_items_closed_form by by eapply NoDup_names.
  rewrite filter_none.
  - simpl. rewrite app_nil_r. apply omap_fmap_inverse. intros x Hx.
    unfold item_named.
    rewrite <- (last_filter_NoDup_fmap k l x Hnd Hx). f_equal.
    apply list_filter_iff. intros y. rewrite Hk. split; congruence.
  - intros x Hx Hnot. apply Hnot. rewrite Hk.
    apply list_elem_of_fmap_2. by apply list_elem_of_fmap_2.
Qed.

Lemma filter_all {X} (P : X → Prop) `{∀ x, Decision (P x)} (l : list X) :
  (∀ x, x ∈ l → P x) → filter P l = l.
Proof.
  induction l as [|x l IH]; intros Hp; [done|].
  rewrite filter_cons_True by (apply Hp; left).
  f_equal. apply IH. intros y Hy. apply Hp. by right.
Qed.

(** Without a preference, sorted items with distinct keys come back as
    they are. *)
Lemma get_ordered_items_sorted {X} (name_of : X → option string)
    (l : list X) :
  NoDup (name_of <$> l) → StronglySorted (key_le (sort_name name_of)) l →
  get_ordered_items name_of l [] = l.
Proof.
  intros Hnd Hs. rewrite get_ordered_items_closed_form by done.
  simpl. rewrite filter_all by (intros; apply not_elem_of_nil).
  by apply sorted_sorted.
Qed.

(** X15. With the default order of a structure whose rooms have pairwise
    distinct names, the rooms are shown in the order of the structure. *)
Theorem default_order_keeps_rooms (h : house_structure) :
  NoDup (room_name <$> rooms h) →
  get_ordered_room_definitions (JsonStructure h)
    (JsonUiOrder (default_ui_order h))
  = Returned (rooms h).
Proof.
  intros Hnd. simpl. f_equal.
  by apply (get_ordered_items_all_preferred _ room_name).
Qed.

Lemma default_order_keeps_rooms_witness :
  get_ordered_room_definitions (JsonStructure example_house)
    (JsonUiOrder (default_ui_order example_house))
  = Returned (rooms example_house).
Proof.
  apply default_order_keeps_rooms.
  apply (bool_decide_unpack _). vm_compute. exact I.
Defined.

Lemma device_names_in_room_items (r : room_data) :
  device_names_in_room r = item_name <$> all_room_devices r.
Proof.
  unfold device_names_in_room, all_room_devices.
  by rewrite fmap_app, <- !list_fmap_compose.
Qed.

(** X16. With the default order of a structure whose rooms have pairwise
    distinct names, a room whose groups and standalone devices have
    pairwise distinct names shows its groups, in the order of the
    structure, and then its standalone devices, in the order of the
    structure. *)
Theorem default_order_keeps_devices (h : house_structure) (r : room_data) :
  NoDup (room_name <$> rooms h) →
  r ∈ rooms h →
  NoDup (device_names_in_room r) →
  ordered_room_devices r (JsonUiOrder (default_ui_order h))
  = Returned (all_room_devices r).
Proof.
  intros Hnd Hr Hnames. unfold ordered_room_devices, device_order_of.
  rewrite default_ui_order_lookup.
  rewrite (last_filter_NoDup_fmap room_name _ r Hnd Hr). simpl. f_equal.
  rewrite device_names_in_room_items in *.
  apply (get_ordered_items_all_preferred _ item_name); [|done].
  by intros [g|d].
Qed.

Lemma default_order_keeps_devices_witness :
  ordered_room_devices example_bedroom
    (JsonUiOrder (default_ui_order example_house))
  = Returned (all_room_devices example_bedroom).
Proof.
  apply default_order_keeps_devices.
  - apply (bool_decide_unpack _). vm_compute. exact I.
  - apply example_bedroom_in.
  - apply (bool_decide_unpack _). vm_compute. exact I.
Defined.

(** X17. When the store has no usable order file, the rooms of a
    structure that the generator built, if their names are pairwise
    distinct, are shown in the order of the structure. *)
Theorem no_order_keeps_rooms env bridge output_file_path fs house fs' :
  generate_hue_structure_json env bridge output_file_path fs
  = (Returned (Some house), fs') →
  NoDup (room_name <$> rooms house) →
  get_ordered_room_definitions (JsonStructure house) JsonEmptyObject
  = Returned (rooms house).
Proof.
  intros (ds & ls & rs & _ & _ & _ & Hb & _)%generate_Returned_Some Hnd.
  apply build_structure_sorted in Hb as [Hs _].
  simpl. f_equal. apply get_ordered_items_sorted; [|exact Hs].
  by apply (NoDup_names _ room_name).
Qed.

Lemma no_order_keeps_rooms_witness :
  get_ordered_room_definitions (JsonStructure example_house) JsonEmptyObject
  = Returned (rooms example_house).
Proof.
  apply (no_order_keeps_rooms example_env example_bridge DEFAULT_OUTPUT_FILE
           empty_fs example_house example_fs).
  - vm_compute. reflexivity.
  - apply (bool_decide_unpack _). vm_compute. exact I.
Defined.

(** ** The flat map of light services *)

Lemma lookup_foldl_insert {X} (k : X → string) (m0 : gmap string X)
    (l : list X) (i : string) :
  foldl (λ m x, <[k x := x]> m) m0 l !! i
  = match last (filter (λ x, k x = i) l) with
    | Some x => Some x
    | None => m0 !! i
    end.
Proof.
  revert m0. induction l as [|x l IH]; intros m0; simpl; [done|].
  rewrite IH, filter_cons. destruct (decide (k x = i)) as [Hx|Hx].
  - rewrite last_cons. destruct (last (filter _ l)); [done|].
    by rewrite <- Hx, lookup_insert_eq.
  - destruct (last (filter _ l)); [done|]. by rewrite lookup_insert_ne.
Qed.

(** An id is mapped to the service visited last among those that carry
    it. *)
Lemma get_flat_light_services_map_lookup (h : house_structure) (i : string) :
  get_flat_light_services_map (JsonStructure h) !! i
  = last (filter (λ s, service_id s = i) (all_light_services h)).
Proof.
  unfold get_flat_light_services_map.
  rewrite (lookup_foldl_insert service_id). by destruct (last _).
Qed.

Lemma last_filter_is_Some {X} (P : X → Prop) `{∀ x, Decision (P x)}
    (l : list X) (x : X) :
  x ∈ l → P x → is_Some (last (filter P l)).
Proof.
  intros Hx Hp.
  assert (x ∈ filter P l) as Hin by by apply list_elem_of_filter.
  destruct (filter P l) as [|y l'] using rev_ind.
  - by apply elem_of_nil in Hin.
  - rewrite last_snoc. by eexists.
Qed.

(** X18. The flat map of a structure holds services of the structure
    only, each under its own id; every service id of the structure has an
    entry; and when the ids are pairwise distinct every service is found
    under its id. *)
Theorem flat_light_services_map_spec (h : house_structure) :
  let flat := get_flat_light_services_map (JsonStructure h) in
  (∀ i s, flat !! i = Some s → s ∈ all_light_services h ∧ service_id s = i)
  ∧ (∀ s, s ∈ all_light_services h → is_Some (flat !! service_id s))
  ∧ (NoDup (service_id <$> all_light_services h) →
     ∀ s, s ∈ all_light_services h → flat !! service_id s = Some s).
Proof.
  cbn zeta. split_and!.
  - intros i s. rewrite get_flat_light_services_map_lookup.
    intros Hl%last_Some_elem_of. by apply list_elem_of_filter in Hl as [? ?].
  - intros s Hs. rewrite get_flat_light_services_map_lookup.
    by eapply last_filter_is_Some.
  - intros Hnd s Hs. rewrite get_flat_light_services_map_lookup.
    by apply (last_filter_NoDup_fmap service_id).
Qed.

(** ** The ids of the house controls *)

Lemma get_all_service_ids_elem_of list_of_set (h : house_structure) i :
  enumerates_sets list_of_set →
  i ∈ get_all_service_ids_from_structure list_of_set (JsonStructure h)
  ↔ ∃ s, s ∈ all_light_services h ∧ service_id s = i.
Proof.
  intros Hen. unfold get_all_service_ids_from_structure.
  destruct (Hen (list_to_set (service_id <$> all_light_services h)))
    as [_ ->].
  rewrite elem_of_list_to_set, list_elem_of_fmap. split.
  - intros (s & -> & Hs). by exists s.
  - intros (s & Hs & <-). by exists s.
Qed.

(** X19. Whatever the order in which a set is listed, the ids collected
    for the house controls are pairwise distinct and are exactly the ids
    of the light services of the structure, that is, the keys of its flat
    map. *)
Theorem get_all_service_ids_spec list_of_set (h : house_structure) :
  enumerates_sets list_of_set →
  NoDup (get_all_service_ids_from_structure list_of_set (JsonStructure h))
  ∧ ∀ i,
      i ∈ get_all_service_ids_from_structure list_of_set (JsonStructure h)
      ↔ is_Some (get_flat_light_services_map (JsonStructure h) !! i).
Proof.
  intros Hen. split.
  - apply Hen.
  - intros i. rewrite get_all_service_ids_elem_of by done.
    rewrite get_flat_light_services_map_lookup. split.
    + intros (s & Hs & Hi). by eapply last_filter_is_Some.
    + intros [s Hl%last_Some_elem_of].
      apply list_elem_of_filter in Hl as [? ?]. by exists s.
Qed.

Lemma elements_enumerates_sets : enumerates_sets elements.
Proof.
  intros X. split; [apply NoDup_elements|]. intros x. apply elem_of_elements.
Qed.

Lemma get_all_service_ids_spec_witness :
  NoDup (get_all_service_ids_from_structure elements
           (JsonStructure example_house))
  ∧ ∀ i,
      i ∈ get_all_service_ids_from_structure elements
            (JsonStructure example_house)
      ↔ is_Some (get_flat_light_services_map (JsonStructure example_house)
                 !! i).
Proof.
  apply (get_all_service_ids_spec elements example_house).
  exact elements_enumerates_sets.
Defined.

(** ** Light commands, continued *)

Section LightCommandMore.
Context {Bridge : Type}.
Context (bridge_put : Bridge → string → light_payload → put_response * Bridge).

Lemma ui_emit_error_count (e : ui_event) (st : app_state Bridge) :
  error_count (ui_log (ui_emit e st))
  = error_count (ui_log st) + (if is_ui_error e then 1 else 0).
Proof.
  unfold error_count. simpl. rewrite filter_app, length_app. f_equal.
  rewrite filter_cons. by destruct e.
Qed.

(** A PUT that fails leaves one error message, a PUT that succeeds
    none. *)
Lemma send_light_payload_errors service_id payload action_description
    (st : app_state Bridge) :
  let '(ok, st') :=
    send_light_payload bridge_put true service_id payload action_description
      st in
  error_count (ui_log st')
  = error_count (ui_log st) + (if ok then 0 else 1).
Proof.
  unfold send_light_payload. simpl.
  destruct (bridge_put (bridge_state st) service_id payload) as [response b].
  destruct response; lazy beta iota zeta.
  - simpl. lia.
  - by rewrite ui_emit_error_count.
  - by rewrite ui_emit_error_count.
Qed.

Lemma on_off_loop_errors payload action_description my_bar total
    (items : list (nat * string)) c (st : app_state Bridge) :
  let '(c', st') :=
    foldl (on_off_step bridge_put true payload action_description my_bar
             total)
          (c, st) items in
  c' + error_count (ui_log st')
  = c + error_count (ui_log st) + length items.
Proof.
  revert c st. induction items as [|[k i] items IH]; intros c st.
  - simpl. lia.
  - cbn [foldl on_off_step length].
    pose proof (send_light_payload_errors i payload action_description st)
      as Hsend.
    destruct (send_light_payload _ _ i payload action_description st)
      as [ok st1].
    set (st2 := if my_bar then ui_emit (UiProgress (k + 1) total) st1
                else st1).
    assert (error_count (ui_log st2) = error_count (ui_log st1)) as Hst2.
    { unfold st2. destruct my_bar; [|done].
      rewrite ui_emit_error_count. simpl. lia. }
    specialize (IH (if ok then S c else c) st2).
    destruct (foldl _ _ items) as [c' st'].
    rewrite IH, Hst2, Hsend. destruct ok; lia.
Qed.

(** What the action sends, whatever the list of ids. *)
Lemma set_lights_on_off_run (service_ids : list string) (turn_on : bool)
    (st : app_state Bridge) :
  let st' := set_lights_on_off bridge_put true service_ids turn_on st in
  let puts :=
    (bridge_run bridge_put (bridge_state st) service_ids
                (PayloadOn turn_on)).1 in
  put_log st' = put_log st ++ puts
  ∧ error_count (ui_log st') + succeeded_count puts
    = error_count (ui_log st) + length service_ids.
Proof.
  cbn zeta. unfold set_lights_on_off.
  destruct service_ids as [|i ids] eqn:Hs.
  { rewrite ui_emit_error_count. simpl. rewrite app_nil_r.
    unfold succeeded_count. simpl. split; [done|lia]. }
  rewrite <- Hs in *.
  set (total := length service_ids).
  set (my_bar := bool_decide (1 < total)).
  set (st0 := if my_bar then ui_emit (UiProgress 0 total) st else st).
  assert (put_log st0 = put_log st ∧ bridge_state st0 = bridge_state st
          ∧ error_count (ui_log st0) = error_count (ui_log st))
    as (Hlog0 & Hb0 & He0).
  { unfold st0. destruct my_bar; [|done].
    rewrite ui_emit_error_count. simpl. split_and!; (done || lia). }
  pose proof (on_off_loop bridge_put (PayloadOn turn_on)
                ("turn " +:+ (if turn_on then "ON" else "OFF"))
                my_bar total service_ids 0 0 st0) as Hloop.
  pose proof (on_off_loop_errors (PayloadOn turn_on)
                ("turn " +:+ (if turn_on then "ON" else "OFF"))
                my_bar total (zip (seq 0 total) service_ids) 0 st0) as Herr.
  fold total in Hloop.
  destruct (foldl _ _ (zip (seq 0 total) service_ids)) as [c st1].
  rewrite Hb0 in Hloop.
  destruct (bridge_run bridge_put (bridge_state st) service_ids
              (PayloadOn turn_on)) as [puts b'].
  destruct Hloop as (Hc & Hlog & _ & _). simpl in Hc.
  rewrite length_zip, length_seq in Herr.
  assert (total `min` length service_ids = total) as Hmin
    by (unfold total; lia).
  rewrite Hmin in Herr.
  set (st2 := if my_bar then ui_emit UiProgressEmpty st1 else st1).
  assert (put_log st2 = put_log st1
          ∧ error_count (ui_log st2) = error_count (ui_log st1))
    as (Hlog2 & He2).
  { unfold st2. destruct my_bar; [|done].
    rewrite ui_emit_error_count. simpl. split; (done || lia). }
  cbn [fst].
  destruct ((c =? total)%nat && (0 <? total)%nat);
    [|destruct (0 <? total)%nat];
    unfold set_data_dirty; cbn [ui_log put_log];
    rewrite ?ui_emit_error_count; cbn [is_ui_error];
    unfold ui_emit; cbn [put_log]; (split; [congruence|lia]).
Qed.

(** X20. Whatever the order in which a set is listed and whatever the
    bridge answers, the house-wide switch sends one PUT to each light
    service id of the structure, and no other: the ids of the PUTs are
    pairwise distinct, each carries the on/off payload, and every light
    service of the structure is among them. *)
Theorem house_switch_reaches_every_light list_of_set (h : house_structure)
    (turn_on : bool) (st : app_state Bridge) :
  enumerates_sets list_of_set →
  let st' :=
    set_lights_on_off bridge_put true
      (get_all_service_ids_from_structure list_of_set (JsonStructure h))
      turn_on st in
  ∃ puts,
    put_log st' = put_log st ++ puts
    ∧ NoDup (put_service_id <$> puts)
    ∧ Forall (λ p, put_payload p = PayloadOn turn_on) puts
    ∧ ∀ i, i ∈ put_service_id <$> puts
           ↔ ∃ s, s ∈ all_light_services h ∧ service_id s = i.
Proof.
  intros Hen. cbn zeta.
  set (ids := get_all_service_ids_from_structure list_of_set
                (JsonStructure h)).
  exists (bridge_run bridge_put (bridge_state st) ids (PayloadOn turn_on)).1.
  split_and!.
  - apply set_lights_on_off_run.
  - rewrite bridge_run_ids. apply Hen.
  - apply bridge_run_payload.
  - intros i. rewrite bridge_run_ids.
    by apply get_all_service_ids_elem_of.
Qed.

(** X21. The bulk on/off action leaves one error message for each PUT
    that failed and none for a PUT that succeeded: the error messages it
    adds and the PUTs that succeeded add up to the number of ids. *)
Theorem set_lights_on_off_error_messages (service_ids : list string)
    (turn_on : bool) (st : app_state Bridge) :
  let st' := set_lights_on_off bridge_put true service_ids turn_on st in
  let puts :=
    (bridge_run bridge_put (bridge_state st) service_ids
                (PayloadOn turn_on)).1 in
  error_count (ui_log st') + succeeded_count puts
  = error_count (ui_log st) + length service_ids.
Proof. apply set_lights_on_off_run. Qed.

(** *** An invalid configuration *)

Lemma on_off_loop_invalid payload action_description my_bar total
    (items : list (nat * string)) c (st : app_state Bridge) :
  let '(c', st') :=
    foldl (on_off_step bridge_put false payload action_description my_bar
             total)
          (c, st) items in
  c' = c ∧ put_log st' = put_log st ∧ bridge_state st' = bridge_state st.
Proof.
  revert st. induction items as [|[k i] items IH]; intros st; [done|].
  cbn [foldl on_off_step send_light_payload negb].
  set (st2 := if my_bar then ui_emit (UiProgress (k + 1) total) st
              else st).
  assert (put_log st2 = put_log st ∧ bridge_state st2 = bridge_state st)
    as (Hlog2 & Hb2) by (unfold st2; by destruct my_bar).
  specialize (IH st2). destruct (foldl _ _ items) as [c' st'].
  destruct IH as (? & ? & ?). split_and!; congruence.
Qed.

(** X22. With an invalid configuration the bulk on/off action sends
    nothing to the bridge, whatever the ids, and reports that none of the
    lights was set. *)
Theorem set_lights_on_off_invalid (service_ids : list string)
    (turn_on : bool) (st : app_state Bridge) :
  service_ids ≠ [] →
  let st' := set_lights_on_off bridge_put false service_ids turn_on st in
  put_log st' = put_log st
  ∧ bridge_state st' = bridge_state st
  ∧ last (ui_log st')
    = Some (tally_message turn_on 0 (length service_ids))
  ∧ data_dirty st' = true.
Proof.
  intros Hne. cbn zeta. unfold set_lights_on_off.
  destruct service_ids as [|i ids] eqn:Hs; [done|]. rewrite <- Hs in *.
  set (total := length service_ids).
  set (my_bar := bool_decide (1 < total)).
  set (st0 := if my_bar then ui_emit (UiProgress 0 total) st else st).
  assert (put_log st0 = put_log st ∧ bridge_state st0 = bridge_state st)
    as (Hlog0 & Hb0) by (unfold st0; by destruct my_bar).
  pose proof (on_off_loop_invalid (PayloadOn turn_on)
                ("turn " +:+ (if turn_on then "ON" else "OFF"))
                my_bar total (zip (seq 0 total) service_ids) 0 st0) as Hloop.
  destruct (foldl _ _ (zip (seq 0 total) service_ids)) as [c st1].
  destruct Hloop as (-> & Hlog & Hb).
  assert ((0 <? total)%nat = true) as Hpos.
  { apply Nat.ltb_lt. unfold total. rewrite Hs. simpl. lia. }
  assert ((0 =? total)%nat = false) as Hz.
  { apply Nat.eqb_neq. apply Nat.ltb_lt in Hpos. lia. }
  rewrite Hpos, Hz. cbn [andb].
  set (st2 := if my_bar then ui_emit UiProgressEmpty st1 else st1).
  assert (put_log st2 = put_log st1 ∧ bridge_state st2 = bridge_state st1)
    as (Hlog2 & Hb2) by (unfold st2; by destruct my_bar).
  unfold tally_message. fold total. rewrite Hz. simpl.
  rewrite last_snoc. split_and!; try done; congruence.
Qed.

(** *** Brightness *)

Lemma brightness_step_eq valid
    (light_details_map : gmap string light_service) payload
    action_description my_bar total c d (st : app_state Bridge) k i :
  brightness_step bridge_put valid light_details_map payload
    action_description my_bar total (c, d, st) (k, i)
  = let r :=
      if detail_supports_dimming light_details_map i then
        let sent :=
          send_light_payload bridge_put valid i payload action_description
            st in
        (if sent.1 then S c else c, S d, sent.2)
      else (c, d, st) in
    (r.1.1, r.1.2,
     if my_bar then ui_emit (UiProgress (k + 1) total) r.2 else r.2).
Proof.
  unfold brightness_step, detail_supports_dimming.
  destruct (light_details_map !! i) as [light_info|]; [|done].
  destruct (supports_dimming light_info); [|done].
  by destruct (send_light_payload _ _ _ _ _ _).
Qed.

(** The loop sends one PUT per id that the map knows as dimmable, and
    counts these ids and the successes. *)
Lemma brightness_loop (light_details_map : gmap string light_service)
    payload action_description my_bar total ids k c d
    (st : app_state Bridge) :
  let '(c', d', st') :=
    foldl (brightness_step bridge_put true light_details_map payload
             action_description my_bar total)
          (c, d, st) (zip (seq k (length ids)) ids) in
  let '(puts, b') :=
    bridge_run bridge_put (bridge_state st)
               (dimmable_ids light_details_map ids) payload in
  c' = c + succeeded_count puts
  ∧ d' = d + length (dimmable_ids light_details_map ids)
  ∧ put_log st' = put_log st ++ puts
  ∧ bridge_state st' = b'.
Proof.
  revert k c d st. induction ids as [|i ids IH]; intros k c d st.
  - simpl. rewrite app_nil_r. unfold succeeded_count. simpl.
    split_and!; (done || lia).
  - cbn [length seq zip zip_with foldl]. rewrite brightness_step_eq.
    unfold dimmable_ids. rewrite filter_cons.
    fold (dimmable_ids light_details_map ids).
    destruct (detail_supports_dimming light_details_map i) eqn:Hdim.
    + rewrite decide_True by done. cbn [bridge_run].
      pose proof (send_light_payload_valid bridge_put i payload
                    action_description st) as Hsend.
      destruct (bridge_put (bridge_state st) i payload) as [response b].
      destruct (send_light_payload _ _ i payload action_description st)
        as [ok st1].
      destruct Hsend as (Hok & Hlog & Hb & _). cbn [fst snd].
      set (st2 := if my_bar then ui_emit (UiProgress (k + 1) total) st1
                  else st1).
      assert (put_log st2 = put_log st1
              ∧ bridge_state st2 = bridge_state st1) as (Hlog2 & Hb2)
        by (unfold st2; by destruct my_bar).
      specialize (IH (S k) (if ok then S c else c) (S d) st2).
      destruct (foldl _ _ (zip (seq (S k) (length ids)) ids))
        as [[c' d'] st'].
      rewrite Hb2, Hb in IH.
      destruct (bridge_run bridge_put b
                  (dimmable_ids light_details_map ids) payload)
        as [puts b''].
      destruct IH as (Hc & Hd & Hlog' & Hb').
      split_and!.
      * rewrite Hc. unfold succeeded_count. rewrite filter_cons.
        rewrite Hok. case_decide as Hs.
        -- rewrite Hs. simpl. lia.
        -- apply not_true_is_false in Hs. rewrite Hs. simpl. lia.
      * rewrite Hd. simpl. lia.
      * rewrite Hlog', Hlog2, Hlog, <- app_assoc. done.
      * done.
    + rewrite decide_False by done. cbn [fst snd].
      set (st2 := if my_bar then ui_emit (UiProgress (k + 1) total) st
                  else st).
      assert (put_log st2 = put_log st
              ∧ bridge_state st2 = bridge_state st) as (Hlog2 & Hb2)
        by (unfold st2; by destruct my_bar).
      specialize (IH (S k) c d st2).
      destruct (foldl _ _ (zip (seq (S k) (length ids)) ids))
        as [[c' d'] st'].
      rewrite Hb2 in IH.
      destruct (bridge_run bridge_put (bridge_state st)
                  (dimmable_ids light_details_map ids) payload)
        as [puts b''].
      destruct IH as (Hc & Hd & Hlog' & Hb').
      split_and!; congruence.
Qed.

(** What the brightness action sends and reports. *)
Lemma set_lights_brightness_run (service_ids : list string)
    (brightness_percent : Z)
    (light_details_map : gmap string light_service)
    (st : app_state Bridge) :
  service_ids ≠ [] →
  let st' :=
    set_lights_brightness bridge_put true service_ids brightness_percent
      light_details_map st in
  let targets := dimmable_ids light_details_map service_ids in
  let '(puts, b') :=
    bridge_run bridge_put (bridge_state st) targets
               (PayloadBrightness (inject_Z brightness_percent)) in
  put_log st' = put_log st ++ puts
  ∧ put_service_id <$> puts = targets
  ∧ Forall (λ p, put_payload p
                 = PayloadBrightness (inject_Z brightness_percent)) puts
  ∧ bridge_state st' = b'
  ∧ last (ui_log st')
    = Some (brightness_message (succeeded_count puts) (length targets))
  ∧ data_dirty st' = true.
Proof.
  intros Hne. cbn zeta. unfold set_lights_brightness.
  destruct service_ids as [|i ids] eqn:Hs; [done|]. rewrite <- Hs in *.
  set (payload := PayloadBrightness (inject_Z brightness_percent)).
  set (targets := dimmable_ids light_details_map service_ids).
  pose proof (bridge_run_ids bridge_put (bridge_state st) targets payload)
    as Hids.
  pose proof (bridge_run_payload bridge_put (bridge_state st) targets
                payload) as Hpay.
  set (total := length service_ids).
  set (my_bar := bool_decide (1 < total)).
  set (st0 := if my_bar then ui_emit (UiProgress 0 total) st else st).
  assert (put_log st0 = put_log st ∧ bridge_state st0 = bridge_state st)
    as (Hlog0 & Hb0) by (unfold st0; by destruct my_bar).
  pose proof (brightness_loop light_details_map payload
                ("set brightness to " +:+ pretty brightness_percent
                 +:+ "%")
                my_bar total service_ids 0 0 0 st0) as Hloop.
  fold total payload targets in Hloop.
  destruct (foldl _ _ (zip (seq 0 total) service_ids)) as [[c d] st1].
  rewrite Hb0 in Hloop.
  destruct (bridge_run bridge_put (bridge_state st) targets payload)
    as [puts b'].
  destruct Hloop as (Hc & Hd & Hlog & Hb). simpl in Hc, Hd, Hids, Hpay.
  assert ((0 <? total)%nat = true) as Hpos.
  { apply Nat.ltb_lt. unfold total. rewrite Hs. simpl. lia. }
  rewrite Hpos, andb_true_r.
  set (st2 := if my_bar then ui_emit UiProgressEmpty st1 else st1).
  assert (put_log st2 = put_log st1 ∧ bridge_state st2 = bridge_state st1)
    as (Hlog2 & Hb2) by (unfold st2; by destruct my_bar).
  unfold brightness_message. rewrite <- Hc, <- Hd.
  destruct (d =? 0)%nat eqn:Hd0.
  - simpl. rewrite last_snoc. split_and!; try done; congruence.
  - assert ((0 <? d)%nat = true) as Hdpos.
    { apply Nat.ltb_lt. apply Nat.eqb_neq in Hd0. lia. }
    rewrite Hdpos, andb_true_r.
    destruct (c =? d)%nat; simpl;
      rewrite last_snoc; split_and!; try done; congruence.
Qed.

(** X23. For every non-empty list of ids and whatever the bridge
    answers, the bulk brightness action sends a PUT, in the order of the
    list, to each id that the map of light details knows as dimmable, and
    to no other; each PUT carries the brightness; and the closing message
    says that no light is dimmable when no PUT was sent, and otherwise
    gives the number of PUTs that succeeded out of the number sent. *)
Theorem set_lights_brightness_tally (service_ids : list string)
    (brightness_percent : Z)
    (light_details_map : gmap string light_service)
    (st : app_state Bridge) :
  service_ids ≠ [] →
  let st' :=
    set_lights_brightness bridge_put true service_ids brightness_percent
      light_details_map st in
  let targets := dimmable_ids light_details_map service_ids in
  let '(puts, b') :=
    bridge_run bridge_put (bridge_state st) targets
               (PayloadBrightness (inject_Z brightness_percent)) in
  put_log st' = put_log st ++ puts
  ∧ put_service_id <$> puts = targets
  ∧ Forall (λ p, put_payload p
                 = PayloadBrightness (inject_Z brightness_percent)) puts
  ∧ bridge_state st' = b'
  ∧ last (ui_log st')
    = Some (brightness_message (succeeded_count puts) (length targets))
  ∧ data_dirty st' = true.
Proof. apply set_lights_brightness_run. Qed.

(** X24. The ids handed to the brightness slider of a room are pairwise
    distinct and are the ids of the room's services that the flat map
    knows as dimmable; the slider, when it is shown, sends a PUT to each
    of them, in the order of the list. *)
Theorem room_slider_reaches_dimmable_lights list_of_set
    (flat_light_services_map : gmap string light_service)
    (room : room_data) (new_b : Z) (st : app_state Bridge) :
  enumerates_sets list_of_set →
  room_dimmable_service_ids list_of_set flat_light_services_map room ≠ [] →
  let r_dim_ids :=
    room_dimmable_service_ids list_of_set flat_light_services_map room in
  let st' :=
    set_lights_brightness bridge_put true r_dim_ids new_b
      flat_light_services_map st in
  NoDup r_dim_ids
  ∧ (∀ i, i ∈ r_dim_ids
          ↔ (∃ s, s ∈ temp_room_services room ∧ service_id s = i)
            ∧ detail_supports_dimming flat_light_services_map i = true)
  ∧ ∃ puts,
      put_log st' = put_log st ++ puts
      ∧ put_service_id <$> puts = r_dim_ids.
Proof.
  intros Hen Hne. cbn zeta.
  set (r_dim_ids :=
         room_dimmable_service_ids list_of_set flat_light_services_map room)
    in *.
  assert (∀ i, i ∈ r_dim_ids
               ↔ (∃ s, s ∈ temp_room_services room ∧ service_id s = i)
                 ∧ detail_supports_dimming flat_light_services_map i = true)
    as Hin.
  { intros i. unfold r_dim_ids, room_dimmable_service_ids.
    destruct (Hen (list_to_set
                (filter (λ i, detail_supports_dimming
                                flat_light_services_map i = true)
                        (service_id <$> temp_room_services room))))
      as [_ ->].
    rewrite elem_of_list_to_set, list_elem_of_filter, list_elem_of_fmap.
    split.
    - intros (Hd & s & -> & Hs). split; [by exists s|done].
    - intros ((s & Hs & <-) & Hd). split; [done|by exists s]. }
  split_and!; [apply Hen|exact Hin|].
  pose proof (set_lights_brightness_run r_dim_ids new_b
                flat_light_services_map st Hne) as Hrun.
  cbn zeta in Hrun.
  assert (dimmable_ids flat_light_services_map r_dim_ids = r_dim_ids) as Hall.
  { apply filter_all. intros i Hi. by apply Hin in Hi as [_ ?]. }
  rewrite Hall in Hrun.
  destruct (bridge_run bridge_put (bridge_state st) r_dim_ids
              (PayloadBrightness (inject_Z new_b))) as [puts b'].
  destruct Hrun as (Hlog & Hids & _). by exists puts.
Qed.

End LightCommandMore.

Lemma house_switch_reaches_every_light_witness :
  let st' :=
    set_lights_on_off example_bridge_put true
      (get_all_service_ids_from_structure elements
         (JsonStructure example_house))
      true example_app_state in
  ∃ puts,
    put_log st' = put_log example_app_state ++ puts
    ∧ NoDup (put_service_id <$> puts)
    ∧ Forall (λ p, put_payload p = PayloadOn true) puts
    ∧ ∀ i, i ∈ put_service_id <$> puts
           ↔ ∃ s, s ∈ all_light_services example_house ∧ service_id s = i.
Proof.
  apply (house_switch_reaches_every_light example_bridge_put elements).
  exact elements_enumerates_sets.
Defined.

Lemma set_lights_on_off_invalid_witness :
  let st' := set_lights_on_off example_bridge_put false ["s1"; "s2"] true
               example_app_state in
  put_log st' = put_log example_app_state
  ∧ bridge_state st' = bridge_state example_app_state
  ∧ last (ui_log st') = Some (tally_message true 0 (length ["s1"; "s2"]))
  ∧ data_dirty st' = true.
Proof. apply set_lights_on_off_invalid. discriminate. Defined.

Lemma set_lights_brightness_tally_witness :
  let light_details_map :=
    get_flat_light_services_map (JsonStructure example_house) in
  let st' :=
    set_lights_brightness example_bridge_put true ["s1"; "s2"; "s9"] 40
      light_details_map example_app_state in
  let targets := dimmable_ids light_details_map ["s1"; "s2"; "s9"] in
  let '(puts, b') :=
    bridge_run example_bridge_put (bridge_state example_app_state) targets
               (PayloadBrightness (inject_Z 40)) in
  put_log st' = put_log example_app_state ++ puts
  ∧ put_service_id <$> puts = targets
  ∧ Forall (λ p, put_payload p = PayloadBrightness (inject_Z 40)) puts
  ∧ bridge_state st' = b'
  ∧ last (ui_log st')
    = Some (brightness_message (succeeded_count puts) (length targets))
  ∧ data_dirty st' = true.
Proof.
  apply (set_lights_brightness_tally example_bridge_put
           ["s1"; "s2"; "s9"] 40).
  discriminate.
Defined.

(** In the example the lights "s1" and "s2" are known and dimmable, "s9"
    is unknown: two PUTs are sent, of which the one to "s2" fails. *)
Example set_lights_brightness_example :
  let st' :=
    set_lights_brightness example_bridge_put true ["s1"; "s2"; "s9"] 40
      (get_flat_light_services_map (JsonStructure example_house))
      example_app_state in
  put_service_id <$> put_log st' = ["s1"; "s2"]
  ∧ last (ui_log st')
    = Some (UiWarning
              "Attempted to set brightness for 2 light(s). 1 succeeded.").
Proof. vm_compute. done. Qed.

Lemma room_slider_reaches_dimmable_lights_witness :
  let flat := get_flat_light_services_map (JsonStructure example_house) in
  let r_dim_ids := room_dimmable_service_ids elements flat example_bedroom in
  let st' :=
    set_lights_brightness example_bridge_put true r_dim_ids 40 flat
      example_app_state in
  NoDup r_dim_ids
  ∧ (∀ i, i ∈ r_dim_ids
          ↔ (∃ s, s ∈ temp_room_services example_bedroom ∧ service_id s = i)
            ∧ detail_supports_dimming flat i = true)
  ∧ ∃ puts,
      put_log st' = put_log example_app_state ++ puts
      ∧ put_service_id <$> puts = r_dim_ids.
Proof.
  apply (room_slider_reaches_dimmable_lights example_bridge_put elements).
  - exact elements_enumerates_sets.
  - vm_compute. discriminate.
Defined.

(** ** Resources without an id *)

Lemma index_devices_raises (device_details_map : gmap string device_detail)
    (devices_raw : list raw_device) :
  match py_foldl index_device device_details_map devices_raw with
  | Returned _ => Forall (λ dev, is_Some (raw_device_id dev)) devices_raw
  | Raised e =>
      e = "TypeError"
      ∧ ¬ Forall (λ dev, is_Some (raw_device_id dev)) devices_raw
  end.
Proof.
  revert device_details_map.
  induction devices_raw as [|dev l IH]; intros m; simpl; [constructor|].
  unfold index_device. destruct (raw_device_id dev) as [dev_id|] eqn:Hid.
  - assert (∀ m1, match py_foldl index_device m1 l with
                  | Returned _ =>
                      Forall (λ dev, is_Some (raw_device_id dev)) (dev :: l)
                  | Raised e =>
                      e = "TypeError"
                      ∧ ¬ Forall (λ dev, is_Some (raw_device_id dev))
                            (dev :: l)
                  end) as Hrest.
    { intros m1. specialize (IH m1). destruct (py_foldl _ m1 l) as [m2|e].
      - constructor; [by rewrite Hid|done].
      - destruct IH as [-> Hn]. split; [done|].
        intros Hall. apply Hn. by apply Forall_cons in Hall as [_ ?]. }
    destruct (truthy_str (Some dev_id)); apply Hrest.
  - split; [done|]. intros Hall. apply Forall_cons in Hall as [[? Hs] _].
    congruence.
Qed.

Lemma build_rooms_raises (device_details_map : gmap string device_detail)
    (hue_device_to_light_services : gmap string (list light_service))
    (rooms_raw : list raw_room) :
  match py_mapM (build_room device_details_map hue_device_to_light_services)
                rooms_raw with
  | Returned _ => Forall (λ room, is_Some (raw_room_id room)) rooms_raw
  | Raised e =>
      e = "TypeError"
      ∧ ¬ Forall (λ room, is_Some (raw_room_id room)) rooms_raw
  end.
Proof.
  induction rooms_raw as [|room l IH]; simpl; [constructor|].
  unfold build_room at 1.
  destruct (raw_room_id room) as [room_id|] eqn:Hid.
  - destruct (foldl place_bucket _ _) as [groups standalone].
    destruct (py_mapM _ l) as [built|e].
    + constructor; [by rewrite Hid|done].
    + destruct IH as [-> Hn]. split; [done|].
      intros Hall. apply Hn. by apply Forall_cons in Hall as [_ ?].
  - split; [done|]. intros Hall. apply Forall_cons in Hall as [[? Hs] _].
    congruence.
Qed.

(** X25. With a valid configuration and three non-empty resource lists,
    the run ends by returning when every device and every room has an id;
    when a device or a room has none it raises [TypeError] (from the
    default name, which is built from the id before it is known to be
    needed) and leaves the store untouched, a name notwithstanding. *)
Theorem generate_raises_iff_id_missing env bridge output_file_path fs :
  CONFIG_VALID env = true →
  truthy_list (fetched_devices bridge) && truthy_list (fetched_lights bridge)
  && truthy_list (fetched_rooms bridge) = true →
  (ids_present bridge →
   ∃ result fs',
     generate_hue_structure_json env bridge output_file_path fs
     = (Returned result, fs'))
  ∧ (¬ ids_present bridge →
     generate_hue_structure_json env bridge output_file_path fs
     = (Raised "TypeError", fs)).
Proof.
  intros Hvalid Hg. unfold generate_hue_structure_json, ids_present.
  rewrite Hvalid, Hg. cbn [negb]. unfold build_structure.
  pose proof (index_devices_raises ∅ (default [] (fetched_devices bridge)))
    as Hdev.
  destruct (py_foldl index_device ∅ _) as [device_details_map|e].
  - set (smap := foldl (index_light_service device_details_map) ∅ _).
    pose proof (build_rooms_raises device_details_map smap
                  (default [] (fetched_rooms bridge))) as Hroom.
    destruct (py_mapM _ _) as [built|e].
    + split; [|by intros []].
      intros _. destruct (write_file _ _ _) as [fs'|]; by eexists _, _.
    + destruct Hroom as [-> Hn]. split; [by intros [_ ?]|done].
  - destruct Hdev as [-> Hn]. split; [by intros [? _]|done].
Qed.

Lemma generate_raises_iff_id_missing_witness :
  (ids_present anonymous_bridge →
   ∃ result fs',
     generate_hue_structure_json example_env anonymous_bridge
       DEFAULT_OUTPUT_FILE empty_fs
     = (Returned result, fs'))
  ∧ (¬ ids_present anonymous_bridge →
     generate_hue_structure_json example_env anonymous_bridge
       DEFAULT_OUTPUT_FILE empty_fs
     = (Raised "TypeError", empty_fs)).
Proof.
  apply generate_raises_iff_id_missing; vm_compute; reflexivity.
Defined.

(** The device without an id makes the run raise, and nothing is
    written. *)
Example generate_anonymous_device :
  generate_hue_structure_json example_env anonymous_bridge
    DEFAULT_OUTPUT_FILE empty_fs
  = (Raised "TypeError", empty_fs).
Proof. vm_compute. reflexivity. Qed.

(** * Part IV: the order resolver on the program's own order *)

(** C1. The resolver is meant to return every item once and to skip a
    preferred key that is repeated: it removes a placed item from the
    remaining ones under a guard against a second removal, and its own
    path for an empty preference returns all the items. It misses both.
    The append is not under the guard, so a repeated preferred key emits
    its item again; and the items are looked up by key, so of the items
    that share a key only the last one is returned, where the path for an
    empty preference returns them all. The generator's own default order
    provokes both: of the devices "A1 2", "A1 3" and "A1" of one room it
    makes the group "A1" and the standalone device "A1", and writes the
    order ["A1"; "A1"]; the room tab, resolving its two items against this
    order, gets the standalone device twice and the group not at all. *)
Theorem get_ordered_items_repeats_and_drops :
  get_ordered_items example_name [("A", 1)] ["A"; "A"]
  = [("A", 1); ("A", 1)]
  ∧ get_ordered_items example_name [("A", 1); ("A", 2)] ["Z"] = [("A", 2)]
  ∧ get_ordered_items example_name [("A", 1); ("A", 2)] []
    = [("A", 1); ("A", 2)]
  ∧ (let run :=
       generate_hue_structure_json example_env shadow_bridge
         DEFAULT_OUTPUT_FILE empty_fs in
     let ui_order_config := (load_ui_order run.2 UI_ORDER_FILE_PATH).1 in
     run.1 = Returned (Some shadow_house)
     ∧ load_hue_structure run.2 STRUCTURE_FILE_PATH
       = (JsonStructure shadow_house, [])
     ∧ device_order_of ui_order_config (room_name shadow_room)
       = Returned ["A1"; "A1"]
     ∧ all_room_devices shadow_room
       = [GroupItem shadow_group; StandaloneItem shadow_device]
     ∧ ordered_room_devices shadow_room ui_order_config
       = Returned [StandaloneItem shadow_device;
                   StandaloneItem shadow_device]
     ∧ (GroupItem shadow_group
        ∉ [StandaloneItem shadow_device; StandaloneItem shadow_device])
     ∧ ordered_room_devices shadow_room JsonEmptyObject
       = Returned [GroupItem shadow_group; StandaloneItem shadow_device]).
Proof.
  cbv zeta. split_and!; try (vm_compute; reflexivity).
  intros Hin. repeat (apply elem_of_cons in Hin as [Hin|Hin]; [done|]).
  by apply elem_of_nil in Hin.
Qed.
